(** * japanese-addresses: the record-linkage engine of [bin/build.js]

    A shallow embedding of the aggregation code of [bin/build.js], the
    properties of it that the specification states, and further properties
    that the code shows.

    Conventions of the embedding.
    - A JavaScript string is the list of its UTF-16 code units ([jsstring]).
      Literals are written in UTF-8 and decoded by [u].
    - A JavaScript object used as a dictionary ([records], [coords],
      [patchData]) is a [gmap] keyed by strings.  Keys are assumed not to name
      a property inherited from [Object.prototype].
    - An exception that the code lets escape (a [TypeError] on a property
      access through [undefined]) is the [None] of an [option].
    - JavaScript numbers holding coordinates are idealised as rationals: no
      rounding and no [NaN].
    - Helpers that [build.js] imports from [lib/] ([createRecordKey],
      [getPostalKanaOrRomeItems]) and from npm packages ([kanji2number], the
      distance used by turf) are parameters of the development. *)

From Stdlib Require Import String Ascii NArith ZArith QArith List Bool Lia.
From Stdlib Require Import Reals Qreals Lra DecimalPos.
From stdpp Require Import base option list gmap.

Local Open Scope N_scope.

(** ** JavaScript strings *)

Module JsString.

Definition jsstring : Type := list N.

(** Continuation byte payload and the UTF-8 decoder used for literals.  Code
    points above the basic plane become a surrogate pair. *)
Definition cont (b : N) : N := N.land b 0x3F.

Definition units_of_cp (cp : N) : list N :=
  if cp <? 0x10000 then [cp]
  else [0xD800 + N.shiftr (cp - 0x10000) 10;
        0xDC00 + N.land (cp - 0x10000) 0x3FF].

Fixpoint decode (bs : list N) : jsstring :=
  match bs with
  | [] => []
  | b0 :: t0 =>
    if b0 <? 0x80 then b0 :: decode t0
    else match t0 with
    | [] => [0xFFFD]
    | b1 :: t1 =>
      if b0 <? 0xE0 then
        (N.shiftl (N.land b0 0x1F) 6 + cont b1) :: decode t1
      else match t1 with
      | [] => [0xFFFD]
      | b2 :: t2 =>
        if b0 <? 0xF0 then
          (N.shiftl (N.land b0 0x0F) 12 + N.shiftl (cont b1) 6 + cont b2)
            :: decode t2
        else match t2 with
        | [] => [0xFFFD]
        | b3 :: t3 =>
          units_of_cp (N.shiftl (N.land b0 0x07) 18 + N.shiftl (cont b1) 12
                       + N.shiftl (cont b2) 6 + cont b3) ++ decode t3
        end
      end
    end
  end.

Definition u (s : string) : jsstring :=
  decode (map (fun a => N_of_ascii a) (list_ascii_of_string s)).

(** [a === b] on two strings *)
Definition eqb (a b : jsstring) : bool := bool_decide (a = b).

(** [s.startsWith(p)] *)
Fixpoint starts_with (p s : jsstring) : bool :=
  match p, s with
  | [], _ => true
  | _ :: _, [] => false
  | a :: p', b :: s' => (a =? b) && starts_with p' s'
  end.

(** [s.replace(pat, rep)] with a string pattern: only the first occurrence is
    replaced.  (No replacement string of the program holds a dollar sign, so
    the special replacement patterns do not arise.) *)
Fixpoint replace (pat rep s : jsstring) : jsstring :=
  if starts_with pat s then rep ++ drop (length pat) s
  else match s with
       | [] => []
       | c :: s' => c :: replace pat rep s'
       end.

(** [s.replaceAll(pat, rep)] for a non-empty string pattern: every occurrence,
    found left to right without overlap.  [skip] counts the code units of the
    current occurrence that are still to be passed over. *)
Fixpoint replaceAll_from (skip : nat) (pat rep s : jsstring) : jsstring :=
  match s with
  | [] => []
  | c :: s' =>
    match skip with
    | S k => replaceAll_from k pat rep s'
    | O =>
      if starts_with pat s
      then rep ++ replaceAll_from (pred (length pat)) pat rep s'
      else c :: replaceAll_from O pat rep s'
    end
  end.

Definition replaceAll (pat rep s : jsstring) : jsstring :=
  replaceAll_from O pat rep s.

(** The code units that [String.prototype.trim] strips: the WhiteSpace and
    LineTerminator productions of ECMAScript. *)
Definition is_js_space (c : N) : bool :=
  (c =? 0x09) || (c =? 0x0A) || (c =? 0x0B) || (c =? 0x0C) || (c =? 0x0D)
  || (c =? 0x20) || (c =? 0xA0) || (c =? 0x1680)
  || ((0x2000 <=? c) && (c <=? 0x200A))
  || (c =? 0x2028) || (c =? 0x2029) || (c =? 0x202F) || (c =? 0x205F)
  || (c =? 0x3000) || (c =? 0xFEFF).

(** The ASCII members of that set. *)
Definition is_ascii_space (c : N) : bool :=
  (c =? 0x09) || (c =? 0x0A) || (c =? 0x0B) || (c =? 0x0C) || (c =? 0x0D)
  || (c =? 0x20).

Fixpoint trim_start (ws : N -> bool) (s : jsstring) : jsstring :=
  match s with
  | c :: s' => if ws c then trim_start ws s' else s
  | [] => []
  end.

Definition trim_end (ws : N -> bool) (s : jsstring) : jsstring :=
  reverse (trim_start ws (reverse s)).

Definition trim_with (ws : N -> bool) (s : jsstring) : jsstring :=
  trim_end ws (trim_start ws s).

(** [s.trim()] *)
Definition trim (s : jsstring) : jsstring := trim_with is_js_space s.

(** Line terminators, which the dot of a regular expression refuses. *)
Definition is_line_terminator (c : N) : bool :=
  (c =? 0x0A) || (c =? 0x0D) || (c =? 0x2028) || (c =? 0x2029).

(** The class [\d]. *)
Definition is_digit (c : N) : bool := (0x30 <=? c) && (c <=? 0x39).

(** [/^\d+$/.test(s)] on a string *)
Definition all_digits (s : jsstring) : bool :=
  match s with
  | [] => false
  | _ :: _ => forallb is_digit s
  end.

(** [s.replace(/\d+$/, '')]: the leftmost position from which only digits
    follow, up to the end, starts the match. *)
Fixpoint strip_trailing_digits (s : jsstring) : jsstring :=
  if all_digits s then []
  else match s with
       | [] => []
       | c :: s' => c :: strip_trailing_digits s'
       end.

(** Decimal rendering of a natural number, as [String(n)] gives it. *)
Fixpoint digits_of_uint (d : Decimal.uint) : jsstring :=
  match d with
  | Decimal.Nil => []
  | Decimal.D0 d' => 0x30 :: digits_of_uint d'
  | Decimal.D1 d' => 0x31 :: digits_of_uint d'
  | Decimal.D2 d' => 0x32 :: digits_of_uint d'
  | Decimal.D3 d' => 0x33 :: digits_of_uint d'
  | Decimal.D4 d' => 0x34 :: digits_of_uint d'
  | Decimal.D5 d' => 0x35 :: digits_of_uint d'
  | Decimal.D6 d' => 0x36 :: digits_of_uint d'
  | Decimal.D7 d' => 0x37 :: digits_of_uint d'
  | Decimal.D8 d' => 0x38 :: digits_of_uint d'
  | Decimal.D9 d' => 0x39 :: digits_of_uint d'
  end.

Definition string_of_N (n : N) : jsstring := digits_of_uint (N.to_uint n).

End JsString.
Export JsString.

Notation "x |> f" := (f x) (at level 71, left associativity, only parsing).

(** ** Static tables *)

Record Rename := { ren_pref : jsstring; ren_orig : jsstring; ren_renamed : jsstring }.

Definition isjRenames : list Rename :=
  [ {| ren_pref := u "兵庫県"; ren_orig := u "篠山市"; ren_renamed := u "丹波篠山市" |};
    {| ren_pref := u "福岡県"; ren_orig := u "筑紫郡那珂川町"; ren_renamed := u "那珂川市" |} ].

Definition prefNames : list jsstring := [
  u "北海道"; u "青森県"; u "岩手県"; u "宮城県"; u "秋田県"; u "山形県";
  u "福島県"; u "茨城県"; u "栃木県"; u "群馬県"; u "埼玉県"; u "千葉県";
  u "東京都"; u "神奈川県"; u "新潟県"; u "富山県"; u "石川県"; u "福井県";
  u "山梨県"; u "長野県"; u "岐阜県"; u "静岡県"; u "愛知県"; u "三重県";
  u "滋賀県"; u "京都府"; u "大阪府"; u "兵庫県"; u "奈良県"; u "和歌山県";
  u "鳥取県"; u "島根県"; u "岡山県"; u "広島県"; u "山口県"; u "徳島県";
  u "香川県"; u "愛媛県"; u "高知県"; u "福岡県"; u "佐賀県"; u "長崎県";
  u "熊本県"; u "大分県"; u "宮崎県"; u "鹿児島県"; u "沖縄県" ].

(** [toPrefCode], on the numbers 1..47 that [main] maps it over. *)
Definition toPrefCode (prefNumber : N) : jsstring :=
  if prefNumber <? 10 then u "0" ++ string_of_N prefNumber
  else string_of_N prefNumber.

(** [han2zenMap], in the order of its keys: the voiced and semi-voiced pairs
    come first, so the alternation of [HAN2ZEN_REGEXP] tries them first. *)
Definition han2zenMap : list (jsstring * jsstring) := [
  (u "ｶﾞ", u "ガ"); (u "ｷﾞ", u "ギ"); (u "ｸﾞ", u "グ"); (u "ｹﾞ", u "ゲ");
  (u "ｺﾞ", u "ゴ"); (u "ｻﾞ", u "ザ"); (u "ｼﾞ", u "ジ"); (u "ｽﾞ", u "ズ");
  (u "ｾﾞ", u "ゼ"); (u "ｿﾞ", u "ゾ"); (u "ﾀﾞ", u "ダ"); (u "ﾁﾞ", u "ヂ");
  (u "ﾂﾞ", u "ヅ"); (u "ﾃﾞ", u "デ"); (u "ﾄﾞ", u "ド"); (u "ﾊﾞ", u "バ");
  (u "ﾋﾞ", u "ビ"); (u "ﾌﾞ", u "ブ"); (u "ﾍﾞ", u "ベ"); (u "ﾎﾞ", u "ボ");
  (u "ﾊﾟ", u "パ"); (u "ﾋﾟ", u "ピ"); (u "ﾌﾟ", u "プ"); (u "ﾍﾟ", u "ペ");
  (u "ﾎﾟ", u "ポ"); (u "ｳﾞ", u "ヴ"); (u "ﾜﾞ", u "ヷ"); (u "ｦﾞ", u "ヺ");
  (u "ｱ", u "ア"); (u "ｲ", u "イ"); (u "ｳ", u "ウ"); (u "ｴ", u "エ");
  (u "ｵ", u "オ"); (u "ｶ", u "カ"); (u "ｷ", u "キ"); (u "ｸ", u "ク");
  (u "ｹ", u "ケ"); (u "ｺ", u "コ"); (u "ｻ", u "サ"); (u "ｼ", u "シ");
  (u "ｽ", u "ス"); (u "ｾ", u "セ"); (u "ｿ", u "ソ"); (u "ﾀ", u "タ");
  (u "ﾁ", u "チ"); (u "ﾂ", u "ツ"); (u "ﾃ", u "テ"); (u "ﾄ", u "ト");
  (u "ﾅ", u "ナ"); (u "ﾆ", u "ニ"); (u "ﾇ", u "ヌ"); (u "ﾈ", u "ネ");
  (u "ﾉ", u "ノ"); (u "ﾊ", u "ハ"); (u "ﾋ", u "ヒ"); (u "ﾌ", u "フ");
  (u "ﾍ", u "ヘ"); (u "ﾎ", u "ホ"); (u "ﾏ", u "マ"); (u "ﾐ", u "ミ");
  (u "ﾑ", u "ム"); (u "ﾒ", u "メ"); (u "ﾓ", u "モ"); (u "ﾔ", u "ヤ");
  (u "ﾕ", u "ユ"); (u "ﾖ", u "ヨ"); (u "ﾗ", u "ラ"); (u "ﾘ", u "リ");
  (u "ﾙ", u "ル"); (u "ﾚ", u "レ"); (u "ﾛ", u "ロ"); (u "ﾜ", u "ワ");
  (u "ｦ", u "ヲ"); (u "ﾝ", u "ン"); (u "ｧ", u "ァ"); (u "ｨ", u "ィ");
  (u "ｩ", u "ゥ"); (u "ｪ", u "ェ"); (u "ｫ", u "ォ"); (u "ｯ", u "ッ");
  (u "ｬ", u "ャ"); (u "ｭ", u "ュ"); (u "ｮ", u "ョ"); (u "｡", u "。");
  (u "､", u "、"); (u "ｰ", u "ー"); (u "｢", u "「"); (u "｣", u "」");
  (u "･", u "・") ].

(** ** Text normalizer *)

(** The alternative of [HAN2ZEN_REGEXP] that matches at the head of [s]. *)
Definition han2zen_at (s : jsstring) : option (jsstring * jsstring) :=
  List.find (fun kv => starts_with (fst kv) s) han2zenMap.

(** [str.replace(HAN2ZEN_REGEXP, match => han2zenMap[match])], a global
    replacement; [skip] as in [replaceAll_from]. *)
Fixpoint han2zen_from (skip : nat) (str : jsstring) : jsstring :=
  match str with
  | [] => []
  | c :: s' =>
    match skip with
    | S k => han2zen_from k s'
    | O =>
      match han2zen_at str with
      | Some kv => snd kv ++ han2zen_from (pred (length (fst kv))) s'
      | None => c :: han2zen_from O s'
      end
    end
  end.

Definition han2zen (str : jsstring) : jsstring := han2zen_from O str.

Definition FULLWIDTH_SPACE : N := 0x3000.

(** [text.replace('　', '').trim()] *)
Definition removeUnnecessarySpace (text : jsstring) : jsstring :=
  trim (replace [FULLWIDTH_SPACE] [] text).

(** The character classes of [GET_CHOME_NUMBER_REGEX]. *)
Definition kanji_2_to_9 (c : N) : bool := existsb (N.eqb c) (u "二三四五六七八九").
Definition kanji_1_to_9 (c : N) : bool := existsb (N.eqb c) (u "一二三四五六七八九").
Definition KANJI_JU : N := 0x5341.
Definition KANJI_CHO : N := 0x4E01.
Definition KANJI_ME : N := 0x76EE.

(** The ways a greedy [x?] can proceed at [s], in backtracking order: each is
    the text consumed and the text left. *)
Definition opt (p : N -> bool) (s : jsstring) : list (jsstring * jsstring) :=
  match s with
  | c :: s' => if p c then [([c], s'); ([], s)] else [([], s)]
  | [] => [([], [])]
  end.

(** [丁目?$] *)
Definition chome_tail (s : jsstring) : bool :=
  match s with
  | [c] => c =? KANJI_CHO
  | [c; d] => (c =? KANJI_CHO) && (d =? KANJI_ME)
  | _ => false
  end.

(** Group 1 of every way [GET_CHOME_NUMBER_REGEX] matches with its first
    character at the head of [s], in backtracking order. *)
Definition chome_matches_at (s : jsstring) : list jsstring :=
  '(a, s1) ← opt kanji_2_to_9 s;
  '(b, s2) ← opt (N.eqb KANJI_JU) s1;
  '(c, s3) ← opt kanji_1_to_9 s2;
  if chome_tail s3 then [a ++ b ++ c] else [].

(** [text.match(GET_CHOME_NUMBER_REGEX)]: group 1 of the leftmost match. *)
Fixpoint chome_match (text : jsstring) : option jsstring :=
  match head (chome_matches_at text) with
  | Some g => Some g
  | None =>
    match text with
    | [] => None
    | _ :: s' => chome_match s'
    end
  end.

(** [.+\)$] *)
Definition parens_tail (s : jsstring) : bool :=
  match reverse s with
  | close :: ((_ :: _) as body) =>
    (close =? 0x29) && forallb (fun c => negb (is_line_terminator c)) body
  | _ => false
  end.

(** [text.replace(REMOVE_STRING_IN_PARENS_REGEX, '')] *)
Fixpoint removeStringEnclosedInParentheses (text : jsstring) : jsstring :=
  match text with
  | [] => []
  | c :: s' =>
    if (c =? 0x28) && parens_tail s' then []
    else c :: removeStringEnclosedInParentheses s'
  end.

(** ** Data model *)

(** A row of the kana postal dictionary (the columns the aggregation reads). *)
Record KanaItem := {
  kana_lgCode : jsstring;    (* 全国地方公共団体コード *)
  kana_zip : jsstring;       (* 郵便番号 *)
  kana_prefKana : jsstring;  (* 都道府県名カナ *)
  kana_cityKana : jsstring;  (* 市区町村名カナ *)
  kana_townKana : jsstring;  (* 町域名カナ *)
  kana_pref : jsstring;      (* 都道府県名 *)
  kana_city : jsstring;      (* 市区町村名 *)
  kana_town : jsstring       (* 町域名 *)
}.

(** A row of the romaji postal dictionary. *)
Record RomeItem := {
  rome_zip : jsstring;       (* 郵便番号 *)
  rome_pref : jsstring;      (* 都道府県名 *)
  rome_city : jsstring;      (* 市区町村名 *)
  rome_town : jsstring;      (* 町域名 *)
  rome_prefRome : jsstring;  (* 都道府県名ローマ字 *)
  rome_cityRome : jsstring;  (* 市区町村名ローマ字 *)
  rome_townRome : jsstring   (* 町域名ローマ字 *)
}.

(** The last argument of [getPostalKanaOrRomeItems] and the rows it works on. *)
Inductive kind := kana | rome.

Definition item (k : kind) : Type :=
  match k with kana => KanaItem | rome => RomeItem end.

Definition item_pref {k : kind} : item k -> jsstring :=
  match k with kana => kana_pref | rome => rome_pref end.

(** A row of the district-level file (13.0b). *)
Record OazaLine := {
  oaza_pref : jsstring;      (* 都道府県名 *)
  oaza_city : jsstring;      (* 市区町村名 *)
  oaza_cityCode : jsstring;  (* 市区町村コード *)
  oaza_town : jsstring;      (* 大字町丁目名 *)
  oaza_lat : jsstring;       (* 緯度 *)
  oaza_lng : jsstring        (* 経度 *)
}.

(** A row of the block-level file (18.0a). *)
Record GaikuLine := {
  gaiku_pref : jsstring;     (* 都道府県名 *)
  gaiku_city : jsstring;     (* 市区町村名 *)
  gaiku_town : jsstring;     (* 大字・丁目名 *)
  gaiku_koaza : jsstring;    (* 小字・通称名 *)
  gaiku_flag : jsstring;     (* 住居表示フラグ *)
  gaiku_num : jsstring;      (* 街区符号・地番 *)
  gaiku_lat : jsstring;      (* 緯度 *)
  gaiku_lng : jsstring       (* 経度 *)
}.

(** The elements of a record array: strings and numbers. *)
Inductive jsval := JStr (s : jsstring) | JNum (q : Q).

(** An address record is the array that [db.run] receives. *)
Abbreviation record := (list jsval).

(** The columns of the [insert into addresses] statement, which is also the
    order in which both aggregators lay a record out. *)
Definition COL_prefCode : nat := 0.   (* 都道府県コード *)
Definition COL_zip : nat := 1.        (* 郵便番号 *)
Definition COL_pref : nat := 2.       (* 都道府県名 *)
Definition COL_prefKana : nat := 3.   (* 都道府県名カナ *)
Definition COL_prefRome : nat := 4.   (* 都道府県名ローマ字 *)
Definition COL_cityCode : nat := 5.   (* 市区町村コード *)
Definition COL_city : nat := 6.       (* 市区町村名 *)
Definition COL_cityKana : nat := 7.   (* 市区町村名カナ *)
Definition COL_cityRome : nat := 8.   (* 市区町村名ローマ字 *)
Definition COL_town : nat := 9.       (* 大字町丁目名 *)
Definition COL_townKana : nat := 10.  (* 大字町丁目名カナ *)
Definition COL_townRome : nat := 11.  (* 大字町丁目名ローマ字 *)
Definition COL_koaza : nat := 12.     (* 小字・通称名 *)
Definition COL_lat : nat := 13.       (* 緯度 *)
Definition COL_lng : nat := 14.       (* 経度 *)

(** A [lng, lat] pair. *)
Abbreviation point := (Q * Q)%type.

(** A row of the block-level output. *)
Record GaikuRecord := {
  gr_pref : jsstring; gr_city : jsstring; gr_town : jsstring;
  gr_num : jsstring; gr_lng : Q; gr_lat : Q
}.

(** What [getGaikuAddressItems] hands back, with the global [coords] as the
    call leaves it. *)
Record GaikuResult := {
  towns : gmap jsstring record;
  gaikuItems : list GaikuRecord;
  coords_after : gmap jsstring (list point)
}.

(** The parsed files of the position reference data, by prefecture code. *)
Record Files := {
  nlftp_mlit_130b : jsstring -> list OazaLine;
  nlftp_mlit_180a : jsstring -> list GaikuLine
}.

(** The state that outlives one round of the prefecture loop of [main]: the
    module-level [coords], the [patchData] object (whose per-prefecture
    objects the aggregators write into), and what was pushed to the two
    writer queues. *)
Record State := {
  coords : gmap jsstring (list point);
  patchData : gmap jsstring (gmap jsstring record);
  sqliteQueue : list record;
  gaikuQueue : list GaikuRecord
}.

(** ** Record key builder: the municipal renames *)

(** [isjRenames.find(({pref, orig}) => pref === p && orig === c)] and the
    choice of [cityName] that follows it. *)
Definition renameEntry (pref city : jsstring) : option Rename :=
  List.find (fun e => eqb (ren_pref e) pref && eqb (ren_orig e) city) isjRenames.

Definition cityNameOf (pref city : jsstring) : jsstring :=
  match renameEntry pref city with
  | Some e => ren_renamed e
  | None => city
  end.

(** ** Coordinate aggregator *)

(** [addToCoords]: the first sample of a key starts its array, a later one is
    pushed at its end. *)
Definition addToCoords (recordKey : jsstring) (lng lat : Q)
    (coords : gmap jsstring (list point)) : gmap jsstring (list point) :=
  match coords !! recordKey with
  | None => <[recordKey := [(lng, lat)]]> coords
  | Some arr => <[recordKey := arr ++ [(lng, lat)]]> coords
  end.

(** A bound of turf's [bbox], which starts from plus and minus infinity. *)
Inductive bound := NegInf | Fin (q : Q) | PosInf.

(** [b > q] and [b < q] for a bound and a coordinate. *)
Definition bound_gt (b : bound) (q : Q) : bool :=
  match b with
  | PosInf => true
  | Fin x => match (x ?= q)%Q with Gt => true | _ => false end
  | NegInf => false
  end.

Definition bound_lt (b : bound) (q : Q) : bool :=
  match b with
  | NegInf => true
  | Fin x => match (x ?= q)%Q with Lt => true | _ => false end
  | PosInf => false
  end.

(** One step of [bbox]: [west, south, east, north] widened to hold [c]. *)
Definition bbox_step (r : bound * bound * bound * bound) (c : point)
    : bound * bound * bound * bound :=
  let '(west, south, east, north) := r in
  (if bound_gt west (fst c) then Fin (fst c) else west,
   if bound_gt south (snd c) then Fin (snd c) else south,
   if bound_lt east (fst c) then Fin (fst c) else east,
   if bound_lt north (snd c) then Fin (snd c) else north).

Definition bbox (features : list point) : bound * bound * bound * bound :=
  fold_left bbox_step features (PosInf, PosInf, NegInf, NegInf).

(** [turfCenter]: the centre of the bounding box.  On no feature at all the
    bounds stay infinite and building the centre point throws. *)
Definition turfCenter (features : list point) : option point :=
  match bbox features with
  | (Fin west, Fin south, Fin east, Fin north) =>
    Some (((west + east) / 2)%Q, ((south + north) / 2)%Q)
  | _ => None
  end.

Section Nearest.

(** The distance that [turfNearestPoint] measures with, and [<] on it. *)
Context {D : Type}.
Variable distance : point -> point -> D.
Variable ltb : D -> D -> bool.

(** [distanceToPoint < minDist], where [minDist] starts at [Infinity]
    ([None]) and every computed distance is finite. *)
Definition below (d : D) (minDist : option D) : bool :=
  match minDist with
  | None => true
  | Some m => ltb d m
  end.

(** The loop of [turfNearestPoint]: [i] is the index of the feature at the
    head of [points]. *)
Fixpoint nearest_from (target : point) (points : list point) (i : nat)
    (bestFeatureIndex : nat) (minDist : option D) : nat :=
  match points with
  | [] => bestFeatureIndex
  | pt :: rest =>
    let distanceToPoint := distance target pt in
    if below distanceToPoint minDist
    then nearest_from target rest (S i) i (Some distanceToPoint)
    else nearest_from target rest (S i) bestFeatureIndex minDist
  end.

(** [turfNearestPoint(target, points)]: a copy of the feature at the best
    index. *)
Definition turfNearestPoint (target : point) (points : list point)
    : option point :=
  points !! nearest_from target points 0 0 None.

(** [getCenter]: the sample of the key nearest to the centre of the bounding
    box of its samples.  The store holds finite numbers here, so [point]
    accepts every sample; for a store that may hold [NaN], where [point]
    throws, see [getCenterNaN]. *)
Definition getCenter (recordKey : jsstring)
    (coords : gmap jsstring (list point)) : option point :=
  arr ← coords !! recordKey;
  center ← turfCenter arr;
  turfNearestPoint center arr.

End Nearest.

(** ** The distance of turf *)

(** [q % m] on numbers: the remainder has the sign of the dividend. *)
Definition js_rem (q : Q) (m : Z) : Q :=
  (q - inject_Z (m * Z.quot (Qnum q) (m * Zpos (Qden q))))%Q.

(** [degreesToRadians] *)
Definition degreesToRadians (degrees : Q) : R :=
  (Q2R (js_rem degrees 360) * PI / 180)%R.

(** [Math.atan2(y, x)] *)
Definition atan2 (y x : R) : R :=
  if Rlt_dec 0 x then atan (y / x)
  else if Rlt_dec x 0 then
    (if Rle_dec 0 y then atan (y / x) + PI else atan (y / x) - PI)%R
  else if Rlt_dec 0 y then (PI / 2)%R
  else if Rlt_dec y 0 then (- PI / 2)%R
  else 0%R.

(** The mean radius of the earth in metres. *)
Definition earthRadius : R := 6371008.8%R.

(** The local [a] of [distance(from, to)] in [@turf/distance]: the haversine
    of the angle between the two points. *)
Definition haversine (from to : point) : R :=
  let dLat := degreesToRadians (snd to - snd from) in
  let dLon := degreesToRadians (fst to - fst from) in
  let lat1 := degreesToRadians (snd from) in
  let lat2 := degreesToRadians (snd to) in
  (sin (dLat / 2) ^ 2 + sin (dLon / 2) ^ 2 * cos lat1 * cos lat2)%R.

(** [distance(from, to)] of [@turf/distance], which [@turf/nearest-point]
    measures with: the great-circle distance in kilometres.  It is taken over
    the reals. *)
Definition turfDistance (from to : point) : R :=
  let a := haversine from to in
  (2 * atan2 (sqrt a) (sqrt (1 - a)) * (earthRadius / 1000))%R.

(** [a < b] on distances. *)
Definition Rltb (a b : R) : bool := if Rlt_dec a b then true else false.

(** ** Postal backfill: the worker of [sqliteWriterQueue] *)

(** [String(q)] of a non-negative integer below 10^21 is its decimal digits;
    every other number prints with a sign, a point or an exponent. *)
Definition is_digit_number (q : Q) : bool :=
  match Qred q with
  | Qmake n 1 => ((0 <=? n) && (n <? 10 ^ 21))%Z
  | _ => false
  end.

(** [/^\d+$/.test(v)]: the argument is converted to a string first, and a
    missing element prints as [undefined]. *)
Definition test_digits (v : option jsval) : bool :=
  match v with
  | Some (JStr s) => all_digits s
  | Some (JNum q) => is_digit_number q
  | None => false
  end.

(** [s === v] for a string [s] and an array element [v]. *)
Definition strict_eq (s : jsstring) (v : option jsval) : bool :=
  match v with
  | Some (JStr t) => eqb s t
  | _ => false
  end.

(** The chain of calls that computes [district_name_rome] from a string. *)
Definition districtNameRome (s : jsstring) : jsstring :=
  s |> strip_trailing_digits
    |> replaceAll (u " ") []
    |> replace (u "SHINMAEDA") (u "SHIMMAEDA")
    |> replace (u "IYAMAMINAMI") (u "IIYAMAMINAMI")
    |> replace (u "OGISHINMACHIDORI") (u "OGISHIMMACHIDORI")
    |> replace (u "AZANASHINOKI") (u "NASHINOKI")
    |> replace (u "KAMITOBASANOMOTOCHO") (u "KAMITOBAASANOMOTOCHO")
    |> replace (u "SANMAIBASHI") (u "SAMMAIBASHI")
    |> replace (u "TATEOKASHINMACHI") (u "TATEOKASHIMMACHI")
    |> replace (u "HACCHODAI") (u "HATCHODAI")
    |> replace (u "KANAIWAKAMIECHIZENMACHI") (u "KANAIWAKAMIECHIZEMMACHI")
    |> replace (u "KAMITOBAMINAMIWANOMOTOCHO") (u "KAMITOBAMINAMIIWANOMOTOCHO")
    |> replace (u "SHIZUKINIHAMA") (u "SHIZUKINIIHAMA")
    |> replace (u "TONDASHINMACHI") (u "TONDASHIMMACHI")
    |> replace (u "TATEOKASHIMINAMIWANOMOTOCHO") (u "TATEOKASHIMINAMIIWANOMOTOCHO")
    |> replace (u "SENBADORI") (u "SEMBADORI")
    |> replace (u "SHINMATSUYAMA") (u "SHIMMATSUYAMA")
    |> replace (u "SHINMATSUYAMAMINAMI") (u "SHIMMATSUYAMAMINAMI")
    |> replace (u "UCHIHASHINISHI") (u "UCHIHASHINISHI(SONOTA)")
    |> replace (u "JONANMINAMI") (u "JONAMMINAMI")
    |> replace (u "'") [].

(** [district_name_rome]: calling [replace] on an element that is missing or
    is a number throws. *)
Definition district_name_rome (array : record) : option jsstring :=
  match array !! 10%nat with
  | Some (JStr s) => Some (districtNameRome s)
  | _ => None
  end.

(** The predicate of the filter that computes [romeItemFindInclude]. *)
Definition romeItemMatches (array : record) (name : jsstring) (it : RomeItem)
    : bool :=
  strict_eq (rome_pref it) (array !! 1%nat)
  && strict_eq (rome_cityRome it) (array !! 7%nat)
  && (eqb name (replaceAll (u " ") [] (rome_townRome it))
      || eqb (rome_townRome it) []).

Definition romeItemFindInclude (postalCodeRomeItems : list RomeItem)
    (array : record) (name : jsstring) : list RomeItem :=
  List.filter (romeItemMatches array name) postalCodeRomeItems.

(** What the worker prints. *)
Inductive Diagnostic :=
| Warn (array : record)   (* Data may be incorrect, need to check manually *)
| Log (array : record).   (* Unexpected find of array *)

(** The choice of [additions] and the diagnostics on the way. *)
Definition chooseAddition (array : record) (found : list RomeItem)
    : option RomeItem * list Diagnostic :=
  match found with
  | [it] =>
    (Some it, if eqb (rome_townRome it) [] then [Warn array] else [])
  | [_; it] => (Some it, [])
  | _ => (None, [Log array])
  end.

(** [array.splice(1, 0, x)] *)
Definition splice_1_0 (x : jsval) (array : record) : record :=
  take 1 array ++ x :: drop 1 array.

(** The worker: the array that [db.run] receives and what was printed. *)
Definition sqliteWriter (postalCodeRomeItems : list RomeItem) (array : record)
    : option (record * list Diagnostic) :=
  if test_digits (array !! 1%nat) then Some (array, [])
  else
    name ← district_name_rome array;
    let '(additions, out) :=
      chooseAddition array (romeItemFindInclude postalCodeRomeItems array name) in
    Some (splice_1_0 (JStr (match additions with
                            | Some it => rome_zip it
                            | None => []
                            end)) array,
          out).

(** ** The specification's words, for comparison with the code *)

(** Section 4.1: the full-width space removed, ASCII whitespace trimmed from
    both ends. *)
Definition normalizeWhitespace_spec (text : jsstring) : jsstring :=
  trim_with is_ascii_space (List.filter (fun c => negb (c =? FULLWIDTH_SPACE)) text).

(** Section 4.7: the fixed ordered list of literal substring corrections. *)
Definition ROME_CORRECTIONS : list (jsstring * jsstring) := [
  (u "SHINMAEDA", u "SHIMMAEDA");
  (u "IYAMAMINAMI", u "IIYAMAMINAMI");
  (u "OGISHINMACHIDORI", u "OGISHIMMACHIDORI");
  (u "AZANASHINOKI", u "NASHINOKI");
  (u "KAMITOBASANOMOTOCHO", u "KAMITOBAASANOMOTOCHO");
  (u "SANMAIBASHI", u "SAMMAIBASHI");
  (u "TATEOKASHINMACHI", u "TATEOKASHIMMACHI");
  (u "HACCHODAI", u "HATCHODAI");
  (u "KANAIWAKAMIECHIZENMACHI", u "KANAIWAKAMIECHIZEMMACHI");
  (u "KAMITOBAMINAMIWANOMOTOCHO", u "KAMITOBAMINAMIIWANOMOTOCHO");
  (u "SHIZUKINIHAMA", u "SHIZUKINIIHAMA");
  (u "TONDASHINMACHI", u "TONDASHIMMACHI");
  (u "TATEOKASHIMINAMIWANOMOTOCHO", u "TATEOKASHIMINAMIIWANOMOTOCHO");
  (u "SENBADORI", u "SEMBADORI");
  (u "SHINMATSUYAMA", u "SHIMMATSUYAMA");
  (u "SHINMATSUYAMAMINAMI", u "SHIMMATSUYAMAMINAMI");
  (u "UCHIHASHINISHI", u "UCHIHASHINISHI(SONOTA)");
  (u "JONANMINAMI", u "JONAMMINAMI");
  (u "'", []) ].

(** Section 4.7: trailing digits removed, embedded spaces removed, the
    corrections applied in order. *)
Definition comparisonString_spec (townRome : jsstring) : jsstring :=
  fold_left (fun s c => replace (fst c) (snd c) s) ROME_CORRECTIONS
    (List.filter (fun c => negb (c =? 0x20)) (strip_trailing_digits townRome)).

(** Section 4.7: the candidates of a record, from its prefecture name, its
    city romaji and its town romaji. *)
Definition candidates_spec (postalCodeRomeItems : list RomeItem)
    (prefName cityRome townRome : jsstring) : list RomeItem :=
  List.filter
    (fun it =>
       eqb (rome_pref it) prefName && eqb (rome_cityRome it) cityRome
       && (eqb (List.filter (fun c => negb (c =? 0x20)) (rome_townRome it))
               (comparisonString_spec townRome)
           || eqb (rome_townRome it) []))
    postalCodeRomeItems.

(** A field of a record as a string, by its column. *)
Definition field (col : nat) (r : record) : jsstring :=
  match r !! col with
  | Some (JStr s) => s
  | _ => []
  end.

(** A record with no postal-code element: the columns of the insert statement
    without the second one. *)
Definition recordWithoutZip
    (prefCode pref prefKana prefRome cityCode city cityKana cityRome
     town townKana townRome koaza : jsstring) (lat lng : Q) : record :=
  [ JStr prefCode; JStr pref; JStr prefKana; JStr prefRome; JStr cityCode;
    JStr city; JStr cityKana; JStr cityRome; JStr town; JStr townKana;
    JStr townRome; JStr koaza; JNum lat; JNum lng ].

(** Section 4.1: the numeral that [GET_CHOME_NUMBER_REGEX] captures, an
    optional digit from two to nine, an optional ten, an optional digit. *)
Definition chome_numeral (g : jsstring) : Prop :=
  exists a b c, g = a ++ b ++ c
    /\ (a = [] \/ exists x, a = [x] /\ kanji_2_to_9 x = true)
    /\ (b = [] \/ b = [KANJI_JU])
    /\ (c = [] \/ exists x, c = [x] /\ kanji_1_to_9 x = true).

(** Section 4.4: [west, south, east, north] is the axis-aligned bounding box
    of the samples. *)
Definition is_bbox (arr : list point) (west south east north : Q) : Prop :=
  (forall p, In p arr ->
     (west <= fst p)%Q /\ (fst p <= east)%Q /\ (south <= snd p)%Q /\ (snd p <= north)%Q)
  /\ (exists p, In p arr /\ fst p = west)
  /\ (exists p, In p arr /\ snd p = south)
  /\ (exists p, In p arr /\ fst p = east)
  /\ (exists p, In p arr /\ snd p = north).

(** The order that comparing distances with [<] is expected to be. *)
Definition strict_weak_order {D : Type} (ltb : D -> D -> bool) : Prop :=
  (forall a, ltb a a = false)
  /\ (forall a b c, ltb a b = true -> ltb b c = true -> ltb a c = true)
  /\ (forall a b c, ltb a b = false -> ltb b c = false -> ltb a c = false).

(** The shape that the line iterations of both aggregators share: a row whose
    key is taken is skipped, any other row stores the record made of it. *)
Fixpoint dedupLoop {L : Type} (key : L -> jsstring) (make : L -> option record)
    (data : list L) (records : gmap jsstring record)
    : option (gmap jsstring record) :=
  match data with
  | [] => Some records
  | line :: rest =>
    match records !! key line with
    | Some _ => dedupLoop key make rest records
    | None =>
      r ← make line;
      dedupLoop key make rest (<[key line := r]> records)
    end
  end.

(** The first row of [data] with the key [k]. *)
Definition firstWithKey {L : Type} (key : L -> jsstring) (k : jsstring)
    (data : list L) : option L :=
  List.find (fun line => eqb (key line) k) data.

(** Squared Euclidean distance in the lon/lat plane. *)
Definition euclid2 (p q : point) : Q :=
  ((fst p - fst q) * (fst p - fst q) + (snd p - snd q) * (snd p - snd q))%Q.

(** ** Instances of the parameters, for running the model *)

Module Sample.

(** The longest prefix of [s] whose characters all satisfy [p]. *)
Fixpoint take_while (p : N -> bool) (s : jsstring) : jsstring :=
  match s with
  | c :: s' => if p c then c :: take_while p s' else []
  | [] => []
  end.

(** [Number] on a plain decimal literal: an optional sign, digits, and an
    optional fraction. *)
Definition digitsValue (s : jsstring) : Z :=
  fold_left (fun acc c => (acc * 10 + Z.of_N (c - 0x30))%Z) s 0%Z.

Definition Number (text : jsstring) : Q :=
  let negative := starts_with (u "-") text in
  let body := if negative then drop 1 text else text in
  let whole := take_while (fun c => negb (c =? 0x2E)) body in
  let frac := drop (S (length whole)) body in
  let q := Qmake (digitsValue (whole ++ frac))
                 (Nat.iter (length frac) (Pos.mul 10) 1%positive) in
  if negative then Qopp q else q.

(** Modelled from the spec: [lib/create-record-key] is not among the sources.
    Section 3 makes the key the ordered tuple of prefecture, city, town and
    sub-district; the tuple is written with a comma between its parts. *)
Definition createRecordKey (pref city town koaza : jsstring) : jsstring :=
  pref ++ u "," ++ city ++ u "," ++ town ++ u "," ++ koaza.

Definition item_city {k : kind} : item k -> jsstring :=
  match k with kana => kana_city | rome => rome_city end.

Definition item_town {k : kind} : item k -> jsstring :=
  match k with kana => kana_town | rome => rome_town end.

(** The town name with the leftmost match of [GET_CHOME_NUMBER_REGEX] cut
    off. *)
Fixpoint withoutChome (text : jsstring) : jsstring :=
  match head (chome_matches_at text) with
  | Some _ => []
  | None =>
    match text with
    | [] => []
    | c :: s' => c :: withoutChome s'
    end
  end.

(** Modelled from the spec: [lib/get-postal-kana-or-rome-items] is not among
    the sources.  Section 4.3: the city is compared exactly; for the town the
    first attempt that succeeds wins: the town as it is, the town without its
    chome suffix, a row whose town field is empty. *)
Definition getPostalKanaOrRomeItems (k : kind) (pref city town : jsstring)
    (items : list (item k)) : option (item k) :=
  let inCity := List.filter (fun it => eqb (item_city it) city) items in
  match List.find (fun it => eqb (item_town it) town) inCity with
  | Some it => Some it
  | None =>
    match List.find (fun it => eqb (item_town it) (withoutChome town)) inCity with
    | Some it => Some it
    | None => List.find (fun it => eqb (item_town it) []) inCity
    end
  end.

(** [kanji2number] on the numerals that [GET_CHOME_NUMBER_REGEX] captures:
    with 十 the digit before it counts tens and the digit after it units;
    without it the digits are read positionally. *)
Definition kanjiDigit (c : N) : N :=
  match list_find (N.eqb c) (u "一二三四五六七八九") with
  | Some (i, _) => N.of_nat (S i)
  | None => 0
  end.

Definition kanji2number (s : jsstring) : N :=
  if existsb (N.eqb KANJI_JU) s then
    let tens := take_while (fun c => negb (c =? KANJI_JU)) s in
    let units := drop (S (length tens)) s in
    (match tens with [] => 1 | c :: _ => kanjiDigit c end) * 10
    + (match units with [] => 0 | c :: _ => kanjiDigit c end)
  else fold_left (fun acc c => acc * 10 + kanjiDigit c) s 0.

(** The order of squared Euclidean distances. *)
Definition Qltb (a b : Q) : bool :=
  match (a ?= b)%Q with Lt => true | _ => false end.

Definition hokkaido : jsstring := u "北海道".
Definition sapporo : jsstring := u "札幌市中央区".

Definition kanaItem1 : KanaItem := {|
  kana_lgCode := u "01101"; kana_zip := u "0640941";
  kana_prefKana := u "ﾎｯｶｲﾄﾞｳ"; kana_cityKana := u "ｻｯﾎﾟﾛｼﾁｭｳｵｳｸ";
  kana_townKana := u "ｱｻﾋｶﾞｵｶ";
  kana_pref := hokkaido; kana_city := sapporo; kana_town := u "旭ケ丘" |}.

Definition romeItem1 : RomeItem := {|
  rome_zip := u "0640941"; rome_pref := hokkaido; rome_city := sapporo;
  rome_town := u "旭ケ丘"; rome_prefRome := u "HOKKAIDO";
  rome_cityRome := u "SAPPORO SHI CHUO KU"; rome_townRome := u "ASAHIGAOKA" |}.

Definition oazaLine1 : OazaLine := {|
  oaza_pref := hokkaido; oaza_city := sapporo; oaza_cityCode := u "01101";
  oaza_town := u "旭ケ丘一丁目"; oaza_lat := u "43.04"; oaza_lng := u "141.32" |}.

Definition gaikuLine1 : GaikuLine := {|
  gaiku_pref := hokkaido; gaiku_city := sapporo; gaiku_town := u "旭ケ丘二丁目";
  gaiku_koaza := u "NULL"; gaiku_flag := u "1"; gaiku_num := u "5";
  gaiku_lat := u "43.05"; gaiku_lng := u "141.31" |}.

Definition kanaItemNoZip : KanaItem := {|
  kana_lgCode := u "01101"; kana_zip := [];
  kana_prefKana := u "ﾎｯｶｲﾄﾞｳ"; kana_cityKana := u "ｻｯﾎﾟﾛｼﾁｭｳｵｳｸ";
  kana_townKana := u "ｱｻﾋｶﾞｵｶ";
  kana_pref := hokkaido; kana_city := sapporo; kana_town := u "旭ケ丘" |}.

Definition aomori : jsstring := u "青森県".
Definition aomoriCity : jsstring := u "青森市".

Definition kanaItem2 : KanaItem := {|
  kana_lgCode := u "02201"; kana_zip := u "0300801";
  kana_prefKana := u "ｱｵﾓﾘｹﾝ"; kana_cityKana := u "ｱｵﾓﾘｼ";
  kana_townKana := u "ｼﾝﾏﾁ";
  kana_pref := aomori; kana_city := aomoriCity; kana_town := u "新町" |}.

Definition gaikuLine2 : GaikuLine := {|
  gaiku_pref := aomori; gaiku_city := aomoriCity; gaiku_town := u "新町一丁目";
  gaiku_koaza := u "NULL"; gaiku_flag := u "0"; gaiku_num := u "3";
  gaiku_lat := u "40.82"; gaiku_lng := u "140.74" |}.

(** Three samples, and the centre of their bounding box as [turfCenter]
    computes it: longitude 0, latitude 45. *)
Definition threeSamples : list point := [(90, 90); (90, 45); (-90, 0)]%Q.
Definition centre : point := (0 # 2, 90 # 2).

(** The files of two prefectures. *)
Definition files : Files := {|
  nlftp_mlit_130b := fun prefCode =>
    if eqb prefCode (u "01") then [oazaLine1] else [];
  nlftp_mlit_180a := fun prefCode =>
    if eqb prefCode (u "01") then [gaikuLine1]
    else if eqb prefCode (u "02") then [gaikuLine2] else []
|}.

(** The state in which [main] enters the prefecture loop, with no patch. *)
Definition state0 : State := {|
  coords := ∅; patchData := ∅; sqliteQueue := []; gaikuQueue := []
|}.

End Sample.

(** ** The aggregators *)

Section Build.

(** [Number(text)] on the coordinate columns. *)
Variable Number : jsstring -> Q.
(** [lib/create-record-key]. *)
Variable createRecordKey : jsstring -> jsstring -> jsstring -> jsstring -> jsstring.
(** [lib/get-postal-kana-or-rome-items], called with the prefecture, the city,
    the town and the rows of one dictionary; [None] is [undefined].  The two
    last arguments of the source, the name of the city reading column and the
    kind, go together and are the [kind] here.  The function is taken to be
    pure. *)
Variable getPostalKanaOrRomeItems :
  forall k : kind, jsstring -> jsstring -> jsstring -> list (item k) -> option (item k).
(** [kanji2number] of [@geolonia/japanese-numeral]. *)
Variable kanji2number : jsstring -> N.
(** The distance of [@turf/nearest-point] and its order. *)
Context {D : Type}.
Variable distance : point -> point -> D.
Variable ltb : D -> D -> bool.

(** [getChomeNumber]: a match with an empty group 1 counts as no match. *)
Definition getChomeNumber (text suffix : jsstring) : jsstring :=
  match chome_match text with
  | Some ((_ :: _) as g) => string_of_N (kanji2number g) ++ suffix
  | _ => []
  end.

(** The ternary [getChomeNumber(t) !== '' ? ` ${getChomeNumber(t)}` : '']. *)
Definition chomeSuffix (text : jsstring) : jsstring :=
  if eqb (getChomeNumber text []) [] then []
  else u " " ++ getChomeNumber text [].

(** The array literal of [getOazaAddressItems].  Its second element reads
    [postalCodeKanaItem['郵便番号']] with no test of [postalCodeKanaItem]. *)
Definition oazaRecord (prefCode : jsstring) (line : OazaLine)
    (cityName townName : jsstring)
    (postalCodeKanaItem : option KanaItem)
    (postalCodeRomeItem : option RomeItem) : option record :=
  zip ← kana_zip <$> postalCodeKanaItem;
  Some [
    JStr prefCode;
    JStr zip;
    JStr (oaza_pref line);
    JStr (match postalCodeKanaItem with
          | Some k => han2zen (kana_prefKana k) | None => [] end);
    JStr (match postalCodeRomeItem with
          | Some r => rome_prefRome r | None => [] end);
    JStr (oaza_cityCode line);
    JStr cityName;
    JStr (match postalCodeKanaItem with
          | Some k => han2zen (kana_cityKana k) | None => [] end);
    JStr (match postalCodeRomeItem with
          | Some r => rome_cityRome r | None => [] end);
    JStr townName;
    JStr (match postalCodeKanaItem with
          | Some k =>
            han2zen (removeStringEnclosedInParentheses (kana_townKana k))
              ++ chomeSuffix (oaza_town line)
          | None => [] end);
    JStr (match postalCodeRomeItem with
          | Some r =>
            removeStringEnclosedInParentheses (rome_townRome r)
              ++ chomeSuffix (oaza_town line)
          | None => [] end);
    JStr [];
    JNum (Number (oaza_lat line));
    JNum (Number (oaza_lng line)) ].

Definition oazaCity (line : OazaLine) : jsstring :=
  cityNameOf (oaza_pref line) (oaza_city line).

Definition oazaTown (line : OazaLine) : jsstring :=
  removeUnnecessarySpace (oaza_town line).

Definition oazaKey (line : OazaLine) : jsstring :=
  createRecordKey (oaza_pref line) (oazaCity line) (oazaTown line) [].

(** What one row of the district-level file would store. *)
Definition oazaRecordOf (prefCode : jsstring)
    (postalCodeKanaItems : list KanaItem) (postalCodeRomeItems : list RomeItem)
    (line : OazaLine) : option record :=
  oazaRecord prefCode line (oazaCity line) (oazaTown line)
    (getPostalKanaOrRomeItems kana (oaza_pref line) (oazaCity line)
       (oazaTown line) postalCodeKanaItems)
    (getPostalKanaOrRomeItems rome (oaza_pref line) (oazaCity line)
       (oazaTown line) postalCodeRomeItems).

(** The line iteration of [getOazaAddressItems].  The source looks the two
    items up before it tests the key; the lookups have no effect, so they are
    made here where the record is built. *)
Fixpoint oazaLoop (prefCode : jsstring)
    (postalCodeKanaItems : list KanaItem) (postalCodeRomeItems : list RomeItem)
    (data : list OazaLine) (records : gmap jsstring record)
    : option (gmap jsstring record) :=
  match data with
  | [] => Some records
  | line :: rest =>
    match records !! oazaKey line with
    | Some _ =>
      oazaLoop prefCode postalCodeKanaItems postalCodeRomeItems rest records
    | None =>
      r ← oazaRecordOf prefCode postalCodeKanaItems postalCodeRomeItems line;
      oazaLoop prefCode postalCodeKanaItems postalCodeRomeItems rest
        (<[oazaKey line := r]> records)
    end
  end.

(** [getOazaAddressItems]: [data] is the parsed district-level file of the
    prefecture; [records] starts as [patchData[prefCode] || {}]. *)
Definition getOazaAddressItems (prefCode : jsstring)
    (postalCodeKanaItems : list KanaItem) (postalCodeRomeItems : list RomeItem)
    (patchData : gmap jsstring (gmap jsstring record))
    (data : list OazaLine) : option (gmap jsstring record) :=
  oazaLoop prefCode postalCodeKanaItems postalCodeRomeItems data
    (default ∅ (patchData !! prefCode)).

Definition gaikuCity (line : GaikuLine) : jsstring :=
  cityNameOf (gaiku_pref line) (gaiku_city line).

Definition gaikuTown (line : GaikuLine) : jsstring :=
  removeUnnecessarySpace (gaiku_town line).

(** [line['小字・通称名'] === 'NULL' ? '' : line['小字・通称名']] *)
Definition koazaName (line : GaikuLine) : jsstring :=
  if eqb (gaiku_koaza line) (u "NULL") then [] else gaiku_koaza line.

Definition gaikuKey (line : GaikuLine) : jsstring :=
  createRecordKey (gaiku_pref line) (gaikuCity line) (gaikuTown line)
    (koazaName line).

(** One round of the first loop of [getGaikuAddressItems]: the sample goes to
    [coords], and a row flagged for residential display to [gaikuRecords]. *)
Definition gaikuSample
    (st : gmap jsstring (list point) * list GaikuRecord) (line : GaikuLine)
    : gmap jsstring (list point) * list GaikuRecord :=
  let lng := Number (gaiku_lng line) in
  let lat := Number (gaiku_lat line) in
  (addToCoords (gaikuKey line) lng lat (fst st),
   if eqb (gaiku_flag line) (u "1")
   then snd st ++ [ {| gr_pref := gaiku_pref line; gr_city := gaikuCity line;
                       gr_town := gaiku_town line; gr_num := gaiku_num line;
                       gr_lng := lng; gr_lat := lat |} ]
   else snd st).

Definition gaikuSamples (data : list GaikuLine)
    (coords : gmap jsstring (list point))
    : gmap jsstring (list point) * list GaikuRecord :=
  fold_left gaikuSample data (coords, []).

(** The array literal of [getGaikuAddressItems].  Its second and sixth
    elements read a property of [postalCodeKanaItem] with no test of it. *)
Definition gaikuRecord (prefCode : jsstring) (line : GaikuLine)
    (cityName townName koaza : jsstring)
    (postalCodeKanaItem : option KanaItem)
    (postalCodeRomeItem : option RomeItem) (center : point) : option record :=
  zip ← kana_zip <$> postalCodeKanaItem;
  lgCode ← kana_lgCode <$> postalCodeKanaItem;
  Some [
    JStr prefCode;
    JStr zip;
    JStr (gaiku_pref line);
    JStr (match postalCodeKanaItem with
          | Some k => han2zen (kana_prefKana k) | None => [] end);
    JStr (match postalCodeRomeItem with
          | Some r => rome_prefRome r | None => [] end);
    JStr lgCode;
    JStr cityName;
    JStr (match postalCodeKanaItem with
          | Some k => han2zen (kana_cityKana k) | None => [] end);
    JStr (match postalCodeRomeItem with
          | Some r => rome_cityRome r | None => [] end);
    JStr townName;
    JStr (match postalCodeKanaItem with
          | Some k =>
            han2zen (removeStringEnclosedInParentheses (kana_townKana k))
              ++ chomeSuffix townName
          | None => [] end);
    JStr (match postalCodeRomeItem with
          | Some r =>
            removeStringEnclosedInParentheses (rome_townRome r)
              ++ chomeSuffix townName
          | None => [] end);
    JStr koaza;
    JNum (snd center);
    JNum (fst center) ].

(** What one row of the block-level file would store, given the samples. *)
Definition gaikuRecordOf (prefCode : jsstring)
    (postalCodeKanaItems : list KanaItem) (postalCodeRomeItems : list RomeItem)
    (coords : gmap jsstring (list point)) (line : GaikuLine) : option record :=
  center ← getCenter distance ltb (gaikuKey line) coords;
  gaikuRecord prefCode line (gaikuCity line) (gaikuTown line) (koazaName line)
    (getPostalKanaOrRomeItems kana (gaiku_pref line) (gaikuCity line)
       (gaikuTown line) postalCodeKanaItems)
    (getPostalKanaOrRomeItems rome (gaiku_pref line) (gaikuCity line)
       (gaikuTown line) postalCodeRomeItems)
    center.

(** The second loop of [getGaikuAddressItems]. *)
Fixpoint gaikuLoop (prefCode : jsstring)
    (postalCodeKanaItems : list KanaItem) (postalCodeRomeItems : list RomeItem)
    (coords : gmap jsstring (list point))
    (data : list GaikuLine) (records : gmap jsstring record)
    : option (gmap jsstring record) :=
  match data with
  | [] => Some records
  | line :: rest =>
    match records !! gaikuKey line with
    | Some _ =>
      gaikuLoop prefCode postalCodeKanaItems postalCodeRomeItems coords rest
        records
    | None =>
      r ← gaikuRecordOf prefCode postalCodeKanaItems postalCodeRomeItems
            coords line;
      gaikuLoop prefCode postalCodeKanaItems postalCodeRomeItems coords rest
        (<[gaikuKey line := r]> records)
    end
  end.

(** [getGaikuAddressItems]: [data] is the parsed block-level file of the
    prefecture, [coords] the global sample store as the call finds it. *)
Definition getGaikuAddressItems (prefCode : jsstring)
    (postalCodeKanaItems : list KanaItem) (postalCodeRomeItems : list RomeItem)
    (records : gmap jsstring record) (data : list GaikuLine)
    (coords : gmap jsstring (list point)) : option GaikuResult :=
  let st := gaikuSamples data coords in
  towns ← gaikuLoop prefCode postalCodeKanaItems postalCodeRomeItems (fst st)
             data records;
  Some {| towns := towns; gaikuItems := snd st; coords_after := fst st |}.

(** [prefNames[parseInt(prefCode, 10) - 1]] for the code of [prefNumber]. *)
Definition prefNameOf (prefNumber : N) : option jsstring :=
  if prefNumber =? 0 then None
  else prefNames !! (N.to_nat prefNumber - 1)%nat.

(** [item['都道府県名'] === prefName] *)
Definition inPref {k : kind} (prefName : option jsstring) (it : item k) : bool :=
  match prefName with
  | Some p => eqb (item_pref it) p
  | None => false
  end.

(** [getAddressItems] for one prefecture. *)
Definition getAddressItems (files : Files) (prefNumber : N)
    (postalCodeKanaItems : list KanaItem) (postalCodeRomeItems : list RomeItem)
    (patchData : gmap jsstring (gmap jsstring record))
    (coords : gmap jsstring (list point)) : option GaikuResult :=
  let prefCode := toPrefCode prefNumber in
  let prefName := prefNameOf prefNumber in
  let filteredPostalCodeKanaItems :=
    List.filter (inPref (k := kana) prefName) postalCodeKanaItems in
  let filteredPostalCodeRomeItems :=
    List.filter (inPref (k := rome) prefName) postalCodeRomeItems in
  oazaData ← getOazaAddressItems prefCode filteredPostalCodeKanaItems
               filteredPostalCodeRomeItems patchData
               (nlftp_mlit_130b files prefCode);
  getGaikuAddressItems prefCode filteredPostalCodeKanaItems
    filteredPostalCodeRomeItems oazaData (nlftp_mlit_180a files prefCode)
    coords.

(** One round of the prefecture loop.  When [patchData] has an object for the
    prefecture, that object is the [records] the round has filled.  The
    records of the round are queued in the order of their keys; the code
    pushes [Object.values(towns)], which has them in the order in which the
    keys were added.  The order within a round is not modelled, and nothing
    below depends on it. *)
Definition prefRound (files : Files)
    (postalCodeKanaItems : list KanaItem) (postalCodeRomeItems : list RomeItem)
    (st : State) (prefNumber : N) : option State :=
  res ← getAddressItems files prefNumber postalCodeKanaItems
          postalCodeRomeItems (patchData st) (coords st);
  Some {|
    coords := coords_after res;
    patchData :=
      match patchData st !! toPrefCode prefNumber with
      | Some _ => <[toPrefCode prefNumber := towns res]> (patchData st)
      | None => patchData st
      end;
    sqliteQueue := sqliteQueue st ++ (map_to_list (towns res)).*2;
    gaikuQueue := gaikuQueue st ++ gaikuItems res
  |}.

(** The prefecture loop of [main]. *)
Fixpoint prefLoop (files : Files)
    (postalCodeKanaItems : list KanaItem) (postalCodeRomeItems : list RomeItem)
    (prefCodeArray : list N) (st : State) : option State :=
  match prefCodeArray with
  | [] => Some st
  | prefNumber :: rest =>
    st' ← prefRound files postalCodeKanaItems postalCodeRomeItems st prefNumber;
    prefLoop files postalCodeKanaItems postalCodeRomeItems rest st'
  end.

(** ** Notions used to state further properties *)

(** The code units that start a key of [han2zenMap]. *)
Definition han2zen_head (c : N) : bool :=
  existsb (fun kv => match fst kv with h :: _ => c =? h | [] => false end)
    han2zenMap.

(** The text that the dot of a regular expression can run over. *)
Definition no_line_terminator (s : jsstring) : bool :=
  forallb (fun c => negb (is_line_terminator c)) s.

(** The block point that the first loop of [getGaikuAddressItems] pushes for
    a row whose residential-display flag is set. *)
Definition gaikuPointOf (line : GaikuLine) : GaikuRecord :=
  {| gr_pref := gaiku_pref line; gr_city := gaikuCity line;
     gr_town := gaiku_town line; gr_num := gaiku_num line;
     gr_lng := Number (gaiku_lng line); gr_lat := Number (gaiku_lat line) |}.

(** The rows that carry the flag, and the sample of a row. *)
Definition flagged (line : GaikuLine) : bool := eqb (gaiku_flag line) (u "1").

Definition sampleOf (line : GaikuLine) : point :=
  (Number (gaiku_lng line), Number (gaiku_lat line)).

(** The value of a run of decimal digits read after [acc]. *)
Definition digits_value (acc : N) (s : jsstring) : N :=
  fold_left (fun a c => a * 10 + (c - 0x30)) s acc.

(** [Number.MAX_SAFE_INTEGER]: up to it a number is the integer it prints as,
    and [toString] and [parseInt] are exact. *)
Definition MAX_SAFE_INTEGER : N := 2 ^ 53 - 1.

(** [parseInt(s, 10)]: leading whitespace is skipped, a sign is read, and the
    longest run of digits that follows is the value, taken exactly; [None] is
    [NaN]. *)
Definition parseInt10 (s : jsstring) : option Z :=
  let s1 := trim_start is_js_space s in
  let '(negative, s2) :=
    match s1 with
    | c :: r =>
      if c =? 0x2D then (true, r) else if c =? 0x2B then (false, r)
      else (false, s1)
    | [] => (false, [])
    end in
  match Sample.take_while is_digit s2 with
  | [] => None
  | ds =>
    Some (if negative then (- Z.of_N (digits_value 0 ds))%Z
          else Z.of_N (digits_value 0 ds))
  end.

(** [prefNames[parseInt(prefCode, 10) - 1]] on the code itself; an index that
    is [NaN] or negative reads [undefined]. *)
Definition prefNameAt (prefCode : jsstring) : option jsstring :=
  i ← parseInt10 prefCode;
  if (i - 1 <? 0)%Z then None else prefNames !! Z.to_nat (i - 1).

(** The column types of the [create table addresses] statement of [main]:
    thirteen text columns and two real ones. *)
Definition matches_schema (r : record) : bool :=
  match r with
  | [JStr _; JStr _; JStr _; JStr _; JStr _; JStr _; JStr _; JStr _; JStr _;
     JStr _; JStr _; JStr _; JStr _; JNum _; JNum _] => true
  | _ => false
  end.

(** A record with no postal code, laid out as the aggregators lay one out. *)
Definition recordNoZip : record :=
  [ JStr (u "01"); JStr []; JStr Sample.hokkaido; JStr []; JStr (u "HOKKAIDO");
    JStr (u "01101"); JStr Sample.sapporo; JStr [];
    JStr (u "SAPPORO SHI CHUO KU"); JStr (u "旭ケ丘"); JStr [];
    JStr (u "ASAHIGAOKA"); JStr []; JNum (4304 # 100); JNum (14132 # 100) ].

(** A stored coordinate as JavaScript can hold it: a finite number, or [NaN]
    ([None]), which [Number] makes of a text that is no numeric literal.  (An
    infinity is left out: a coordinate column does not read as one.) *)
Abbreviation jscoord := (option Q).

(** [point(c)] of [@turf/helpers]: it throws unless both coordinates are
    numbers. *)
Definition turfPoint (c : jscoord * jscoord) : option point :=
  x ← fst c; y ← snd c; Some (x, y).

(** A sample of finite numbers, as a store that may hold [NaN] has it. *)
Definition finiteSample (p : point) : jscoord * jscoord :=
  (Some (fst p), Some (snd p)).

(** A store of finite numbers as one that may hold [NaN]. *)
Definition finiteStore (coords : gmap jsstring (list point))
    : gmap jsstring (list (jscoord * jscoord)) :=
  (fun arr : list point => finiteSample <$> arr) <$> coords.

(** [getCenter] on a store that may hold [NaN]: [arr.map(c => point(c))]
    throws at a sample with such a coordinate.  On a store of finite numbers
    this is [getCenter] as defined above. *)
Definition getCenterNaN (recordKey : jsstring)
    (coords : gmap jsstring (list (jscoord * jscoord))) : option point :=
  arr ← coords !! recordKey;
  features ← mapM turfPoint arr;
  center ← turfCenter features;
  turfNearestPoint distance ltb center features.

(** A text that [Number] reads as a finite number: an optional sign, at least
    one digit, an optional point with digits after it, in at most 300
    characters.  (Other texts may read as [NaN] or as an infinity, which the
    rationals of this development do not hold.) *)
Definition coordinateLiteral (s : jsstring) : bool :=
  let body :=
    match s with
    | c :: r => if (c =? 0x2D) || (c =? 0x2B) then r else s
    | [] => []
    end in
  let whole := Sample.take_while is_digit body in
  (length s <=? 300)%nat
  && negb (bool_decide (whole = []))
  && match drop (length whole) body with
     | [] => true
     | c :: frac => (c =? 0x2E) && forallb is_digit frac
     end.

(** A block-level row whose town name holds a full-width space inside its
    numeral, and a kana item whose municipal code is not the city code of
    [Sample.oazaLine1]. *)
Definition gaikuLineSpaced : GaikuLine := {|
  gaiku_pref := Sample.hokkaido; gaiku_city := Sample.sapporo;
  gaiku_town := u "旭ケ丘十　一丁目"; gaiku_koaza := u "NULL";
  gaiku_flag := u "0"; gaiku_num := u "9";
  gaiku_lat := u "43.07"; gaiku_lng := u "141.29" |}.

Definition kanaItemOtherCode : KanaItem := {|
  kana_lgCode := u "01100"; kana_zip := u "0640941";
  kana_prefKana := u "ﾎｯｶｲﾄﾞｳ"; kana_cityKana := u "ｻｯﾎﾟﾛｼﾁｭｳｵｳｸ";
  kana_townKana := u "ｱｻﾋｶﾞｵｶ";
  kana_pref := Sample.hokkaido; kana_city := Sample.sapporo;
  kana_town := u "旭ケ丘" |}.

(** * Properties *)

(** ** Strings *)

Lemma eqb_eq (a b : jsstring) : eqb a b = true <-> a = b.
Proof. unfold eqb. apply bool_decide_eq_true. Qed.

Lemma eqb_neq (a b : jsstring) : eqb a b = false <-> a <> b.
Proof. unfold eqb. apply bool_decide_eq_false. Qed.

Lemma eqb_refl (a : jsstring) : eqb a a = true.
Proof. by apply eqb_eq. Qed.

(** [trim_start] drops a run of [ws] characters and stops at the first
    character that is not one. *)
Lemma trim_start_split (ws : N -> bool) (s : jsstring) :
  exists k, s = k ++ trim_start ws s
    /\ (forall c, In c k -> ws c = true)
    /\ (forall c, head (trim_start ws s) = Some c -> ws c = false).
Proof.
  induction s as [|c s IH]; simpl.
  - exists []. repeat split; [intros c [] | discriminate].
  - destruct (ws c) eqn:Hc.
    + destruct IH as (k & Hk & Hall & Hhd).
      exists (c :: k). repeat split.
      * simpl. by f_equal.
      * intros x [<- | Hx]; auto.
      * exact Hhd.
    + exists []. repeat split; [intros x [] |].
      intros x [= <-]. exact Hc.
Qed.

Lemma trim_end_split (ws : N -> bool) (s : jsstring) :
  exists k, s = trim_end ws s ++ k
    /\ (forall c, In c k -> ws c = true)
    /\ (forall c, last (trim_end ws s) = Some c -> ws c = false).
Proof.
  unfold trim_end.
  destruct (trim_start_split ws (reverse s)) as (k & Hk & Hall & Hhd).
  exists (reverse k). repeat split.
  - rewrite <- reverse_app, <- Hk. by rewrite reverse_involutive.
  - intros c Hc. apply Hall. rewrite <- list_elem_of_In in *.
    by apply elem_of_reverse.
  - intros c. rewrite last_reverse. apply Hhd.
Qed.

(** [trim_with] cuts a run of [ws] characters off each end and nothing else. *)
Lemma trim_with_split (ws : N -> bool) (s : jsstring) :
  exists k1 k2, s = k1 ++ trim_with ws s ++ k2
    /\ (forall c, In c k1 -> ws c = true)
    /\ (forall c, In c k2 -> ws c = true)
    /\ (forall c, head (trim_with ws s) = Some c -> ws c = false)
    /\ (forall c, last (trim_with ws s) = Some c -> ws c = false).
Proof.
  unfold trim_with.
  destruct (trim_start_split ws s) as (k1 & H1 & Hall1 & Hhd).
  destruct (trim_end_split ws (trim_start ws s)) as (k2 & H2 & Hall2 & Hlast).
  exists k1, k2. repeat split; auto.
  - by rewrite <- H2.
  - intros c Hc. apply Hhd. rewrite H2.
    destruct (trim_end ws (trim_start ws s)); [discriminate | exact Hc].
Qed.

(** [replace [c] []] deletes the first [c] and nothing else. *)
Lemma replace_char_split (c : N) (s : jsstring) :
  (~ In c s /\ replace [c] [] s = s)
  \/ exists pre post, s = pre ++ c :: post /\ ~ In c pre
       /\ replace [c] [] s = pre ++ post.
Proof.
  induction s as [|x s IH].
  - left. split; [intros [] | reflexivity].
  - simpl. destruct (N.eqb_spec c x) as [<- | Hne]; simpl.
    + right. exists [], s. split; [reflexivity |]. split; [intros [] |].
      by rewrite drop_0.
    + destruct IH as [[Hnot Heq] | (pre & post & Hs & Hpre & Heq)].
      * left. split; [| by rewrite Heq].
        intros [-> | Hin]; [by apply Hne | by apply Hnot].
      * right. exists (x :: pre), post. split; [| split].
        -- simpl. by f_equal.
        -- intros [-> | Hin]; [by apply Hne | by apply Hpre].
        -- simpl. by f_equal.
Qed.

Lemma filter_all_false (p : N -> bool) (k : jsstring) :
  (forall c, In c k -> p c = false) -> List.filter p k = [].
Proof.
  induction k as [|c k IH]; simpl; intros H; [reflexivity |].
  rewrite (H c (or_introl eq_refl)). apply IH. intros x Hx. apply H. by right.
Qed.

(** The text with its first [c] deleted is determined. *)
Lemma deleted_first_unique (c : N) (s t1 t2 : jsstring) :
  ((~ In c s /\ t1 = s)
   \/ exists pre post, s = pre ++ c :: post /\ ~ In c pre /\ t1 = pre ++ post) ->
  ((~ In c s /\ t2 = s)
   \/ exists pre post, s = pre ++ c :: post /\ ~ In c pre /\ t2 = pre ++ post) ->
  t1 = t2.
Proof.
  intros [[Hn1 ->] | (p1 & q1 & Hs1 & Hp1 & ->)]
         [[Hn2 ->] | (p2 & q2 & Hs2 & Hp2 & ->)].
  - reflexivity.
  - exfalso. apply Hn1. rewrite Hs2. apply in_or_app. right. by left.
  - exfalso. apply Hn2. rewrite Hs1. apply in_or_app. right. by left.
  - assert (Hpq : p1 = p2 /\ q1 = q2); [| by destruct Hpq as [-> ->]].
    clear -Hs1 Hs2 Hp1 Hp2. rewrite Hs1 in Hs2. clear Hs1.
    revert p2 Hs2 Hp2. induction p1 as [|x p1 IH]; intros [|y p2] Heq Hp2.
    + by injection Heq as ->.
    + injection Heq as <- _. exfalso. apply Hp2. by left.
    + injection Heq as -> _. exfalso. apply Hp1. by left.
    + injection Heq as -> Heq.
      destruct (IH (fun H => Hp1 (or_intror H)) p2 Heq
                  (fun H => Hp2 (or_intror H))) as [-> ->]. done.
Qed.

(** A run of [ws] characters in front of a text that does not start with
    one is determined by the whole. *)
Lemma trimmed_start_unique (ws : N -> bool) (k1 k1' a a' : jsstring) :
  k1 ++ a = k1' ++ a' ->
  (forall c, In c k1 -> ws c = true) -> (forall c, In c k1' -> ws c = true) ->
  (forall c, head a = Some c -> ws c = false) ->
  (forall c, head a' = Some c -> ws c = false) ->
  a <> [] -> a' <> [] ->
  k1 = k1' /\ a = a'.
Proof.
  revert k1'. induction k1 as [|x k1 IH]; intros [|y k1'] Heq H1 H1' Ha Ha' Hne Hne'.
  - done.
  - exfalso. cbn [app] in Heq. subst a.
    specialize (Ha y eq_refl). specialize (H1' y (or_introl eq_refl)). congruence.
  - exfalso. cbn [app] in Heq. subst a'.
    specialize (Ha' x eq_refl). specialize (H1 x (or_introl eq_refl)). congruence.
  - injection Heq as -> Heq.
    destruct (IH k1' Heq (fun c H => H1 c (or_intror H))
                (fun c H => H1' c (or_intror H)) Ha Ha' Hne Hne') as [-> ->].
    done.
Qed.

(** What is left of a text when a run of [ws] characters is cut off each end,
    so that neither end is a [ws] character, is determined. *)
Lemma trimmed_unique (ws : N -> bool) (t k1 k2 j1 j2 r r' : jsstring) :
  t = k1 ++ r ++ k2 -> t = j1 ++ r' ++ j2 ->
  (forall c, In c k1 -> ws c = true) -> (forall c, In c k2 -> ws c = true) ->
  (forall c, In c j1 -> ws c = true) -> (forall c, In c j2 -> ws c = true) ->
  (forall c, head r = Some c -> ws c = false) ->
  (forall c, last r = Some c -> ws c = false) ->
  (forall c, head r' = Some c -> ws c = false) ->
  (forall c, last r' = Some c -> ws c = false) ->
  r' = r.
Proof.
  intros Ht Ht' Hk1 Hk2 Hj1 Hj2 Hhd Hlast Hhd' Hlast'.
  assert (Hall : forall (a b u v : jsstring),
             a ++ [] ++ b = u ++ v ->
             (forall c, In c a -> ws c = true) ->
             (forall c, In c b -> ws c = true) ->
             forall c, In c v -> ws c = true).
  { intros a b u v Heq Ha Hb c Hc.
    assert (Hin : In c (a ++ [] ++ b))
      by (rewrite Heq; apply in_or_app; by right).
    apply in_app_or in Hin as [Hin | Hin]; [by apply Ha | by apply Hb]. }
  destruct r as [|x r], r' as [|x' r']; [done | | |].
  - exfalso. rewrite Ht' in Ht.
    pose proof (Hall k1 k2 j1 ((x' :: r') ++ j2) (eq_sym Ht) Hk1 Hk2 x'
                  (or_introl eq_refl)) as Hx.
    specialize (Hhd' x' eq_refl). congruence.
  - exfalso. rewrite Ht in Ht'.
    pose proof (Hall j1 j2 k1 ((x :: r) ++ k2) (eq_sym Ht') Hj1 Hj2 x
                  (or_introl eq_refl)) as Hx.
    specialize (Hhd x eq_refl). congruence.
  - rewrite Ht in Ht'.
    destruct (trimmed_start_unique ws k1 j1 ((x :: r) ++ k2) ((x' :: r') ++ j2))
      as [_ Heq]; try done.
    apply (f_equal reverse) in Heq. rewrite !reverse_app in Heq.
    destruct (trimmed_start_unique ws (reverse k2) (reverse j2)
                (reverse (x :: r)) (reverse (x' :: r'))) as [_ Hr]; try done.
    + intros c Hc. apply Hk2. rewrite <- list_elem_of_In in *.
      by apply elem_of_reverse.
    + intros c Hc. apply Hj2. rewrite <- list_elem_of_In in *.
      by apply elem_of_reverse.
    + intros c. rewrite head_reverse. apply Hlast.
    + intros c. rewrite head_reverse. apply Hlast'.
    + intros H. apply (f_equal reverse) in H.
      by rewrite reverse_involutive in H.
    + intros H. apply (f_equal reverse) in H.
      by rewrite reverse_involutive in H.
    + apply (f_equal reverse) in Hr. by rewrite !reverse_involutive in Hr.
Qed.

(** ** Text normalizer: [removeUnnecessarySpace] *)

(** C9, as amended.  [removeUnnecessarySpace] deletes the first full-width
    space of its input, when there is one, and nothing else inside it; of what
    is left it cuts off a run of JavaScript whitespace characters (ASCII or
    not) at each end, and nothing else; the result neither starts nor ends
    with a whitespace character.  This determines the result.  So the result
    is a subsequence of the input that keeps every character that is not
    whitespace, in order, and a string that holds at most one full-width
    space has none left. *)
Theorem removeUnnecessarySpace_effect (text : jsstring) :
  (exists t k1 k2,
     ((~ In FULLWIDTH_SPACE text /\ t = text)
      \/ exists pre post, text = pre ++ FULLWIDTH_SPACE :: post
            /\ ~ In FULLWIDTH_SPACE pre /\ t = pre ++ post)
     /\ t = k1 ++ removeUnnecessarySpace text ++ k2
     /\ (forall c, In c k1 -> is_js_space c = true)
     /\ (forall c, In c k2 -> is_js_space c = true))
  /\ sublist (removeUnnecessarySpace text) text
  /\ List.filter (fun c => negb (is_js_space c)) (removeUnnecessarySpace text)
     = List.filter (fun c => negb (is_js_space c)) text
  /\ (forall c, head (removeUnnecessarySpace text) = Some c -> is_js_space c = false)
  /\ (forall c, last (removeUnnecessarySpace text) = Some c -> is_js_space c = false)
  /\ ((length (List.filter (N.eqb FULLWIDTH_SPACE) text) <= 1)%nat ->
      ~ In FULLWIDTH_SPACE (removeUnnecessarySpace text))
  /\ (forall r t k1 k2,
        ((~ In FULLWIDTH_SPACE text /\ t = text)
         \/ exists pre post, text = pre ++ FULLWIDTH_SPACE :: post
               /\ ~ In FULLWIDTH_SPACE pre /\ t = pre ++ post) ->
        t = k1 ++ r ++ k2 ->
        (forall c, In c k1 -> is_js_space c = true) ->
        (forall c, In c k2 -> is_js_space c = true) ->
        (forall c, head r = Some c -> is_js_space c = false) ->
        (forall c, last r = Some c -> is_js_space c = false) ->
        r = removeUnnecessarySpace text).
Proof.
  unfold removeUnnecessarySpace, trim.
  set (t := replace [FULLWIDTH_SPACE] [] text).
  destruct (trim_with_split is_js_space t) as (k1 & k2 & Ht & Hk1 & Hk2 & Hhd & Hlast).
  assert (Hsub : sublist (trim_with is_js_space t) t).
  { rewrite Ht at 2. apply sublist_inserts_l, sublist_inserts_r. reflexivity. }
  assert (Hfil : List.filter (fun c => negb (is_js_space c)) (trim_with is_js_space t)
                 = List.filter (fun c => negb (is_js_space c)) t).
  { rewrite Ht at 2. rewrite !List.filter_app.
    rewrite (filter_all_false _ k1), (filter_all_false _ k2), app_nil_r; auto.
    - intros c Hc. by rewrite (Hk2 c Hc).
    - intros c Hc. by rewrite (Hk1 c Hc). }
  assert (Hdel : (~ In FULLWIDTH_SPACE text /\ t = text)
            \/ exists pre post, text = pre ++ FULLWIDTH_SPACE :: post
                  /\ ~ In FULLWIDTH_SPACE pre /\ t = pre ++ post).
  { destruct (replace_char_split FULLWIDTH_SPACE text)
      as [[Hnot Heq] | (pre & post & Hs & Hpre & Heq)]; [by left |].
    right. by exists pre, post. }
  split; [by exists t, k1, k2 |].
  split; [| split; [| split; [| split; [| split]]]]; try done.
  - destruct Hdel as [[_ Heq] | (pre & post & Hs & _ & Heq)].
    + by rewrite <- Heq.
    + etrans; [exact Hsub |]. rewrite Heq, Hs.
      apply sublist_app; [reflexivity |]. by apply sublist_cons_r; left.
  - rewrite Hfil. destruct Hdel as [[_ Heq] | (pre & post & Hs & _ & Heq)].
    + by rewrite Heq.
    + rewrite Heq, Hs, !List.filter_app. reflexivity.
  - intros Hle Hin.
    assert (Hin' : In FULLWIDTH_SPACE t).
    { rewrite <- list_elem_of_In in *.
      eapply elem_of_sublist; [exact Hin | exact Hsub]. }
    destruct Hdel as [[Hnot Heq] | (pre & post & Hs & Hpre & Heq)].
    + apply Hnot. by rewrite <- Heq.
    + rewrite Heq in Hin'.
      rewrite Hs, List.filter_app in Hle. simpl in Hle.
      try rewrite N.eqb_refl in Hle. rewrite length_app in Hle. simpl in Hle.
      apply in_app_or in Hin' as [Hin' | Hin']; [by apply Hpre |].
      assert (Hf : In FULLWIDTH_SPACE (List.filter (N.eqb FULLWIDTH_SPACE) post)).
      { apply filter_In. split; [exact Hin' | apply N.eqb_refl]. }
      destruct (List.filter (N.eqb FULLWIDTH_SPACE) post); [destruct Hf |].
      simpl in Hle. lia.
  - intros r t' j1 j2 Hdel' Ht' Hj1 Hj2 Hrhd Hrlast.
    assert (Heq : t' = t).
    { eapply deleted_first_unique; [exact Hdel' | exact Hdel]. }
    subst t'. eapply trimmed_unique; eauto.
Qed.

(** C9, as stated, fails: of two full-width spaces only the first is removed,
    and a no-break space, which is neither ASCII nor a full-width space, is
    trimmed.  The result differs from what the claim describes whether "the
    full-width space" is read as every one or as the first one. *)
Lemma removeUnnecessarySpace_counterexample :
  removeUnnecessarySpace (0xA0 :: u "a　b　c") = u "ab　c"
  /\ normalizeWhitespace_spec (0xA0 :: u "a　b　c") = 0xA0 :: u "abc"
  /\ removeUnnecessarySpace (0xA0 :: u "a　b　c")
     <> normalizeWhitespace_spec (0xA0 :: u "a　b　c")
  /\ removeUnnecessarySpace (0xA0 :: u "a　b　c")
     <> trim_with is_ascii_space
          (replace [FULLWIDTH_SPACE] [] (0xA0 :: u "a　b　c")).
Proof.
  vm_compute. repeat split; discriminate.
Qed.

(** ** Text normalizer: [getChomeNumber] *)

Lemma opt_elem (p : N -> bool) (s a s1 : jsstring) :
  (a, s1) ∈ opt p s ->
  s = a ++ s1 /\ (a = [] \/ exists x, a = [x] /\ p x = true).
Proof.
  destruct s as [|c s']; simpl.
  - intros H. apply list_elem_of_singleton in H. injection H as -> ->. auto.
  - destruct (p c) eqn:Hp.
    + intros H. apply elem_of_cons in H as [H | H].
      * injection H as -> ->. eauto.
      * apply list_elem_of_singleton in H. injection H as -> ->. auto.
    + intros H. apply list_elem_of_singleton in H. injection H as -> ->. auto.
Qed.

Lemma opt_skip (p : N -> bool) (s : jsstring) : ([], s) ∈ opt p s.
Proof.
  destruct s as [|c s']; simpl; [by left |].
  destruct (p c); [right; left | left].
Qed.

Lemma opt_take (p : N -> bool) (x : N) (s : jsstring) :
  p x = true -> ([x], s) ∈ opt p (x :: s).
Proof. intros Hp. simpl. rewrite Hp. left. Qed.

Lemma chome_tail_cases (tail : jsstring) :
  chome_tail tail = true <-> tail = [KANJI_CHO] \/ tail = [KANJI_CHO; KANJI_ME].
Proof.
  split.
  - destruct tail as [|c [|d [|e t]]]; simpl; try discriminate.
    + intros ->%N.eqb_eq. by left.
    + intros [->%N.eqb_eq ->%N.eqb_eq]%andb_prop. by right.
  - intros [-> | ->]; reflexivity.
Qed.

(** Every way the expression matches at the head of [s] splits [s] into a
    numeral and the tail [丁] or [丁目]. *)
Lemma chome_matches_at_elem (s g : jsstring) :
  g ∈ chome_matches_at s <->
  exists tail, s = g ++ tail /\ chome_tail tail = true /\ chome_numeral g.
Proof.
  unfold chome_matches_at. split.
  - intros ([a s1] & Hg & Ha)%list_elem_of_bind.
    apply list_elem_of_bind in Hg as ([b s2] & Hg & Hb).
    apply list_elem_of_bind in Hg as ([c s3] & Hg & Hc).
    destruct (chome_tail s3) eqn:Htail; [| by apply elem_of_nil in Hg].
    apply list_elem_of_singleton in Hg as ->.
    apply opt_elem in Ha as [-> Ha], Hb as [-> Hb], Hc as [-> Hc].
    exists s3. split; [by rewrite <- !app_assoc |]. split; [exact Htail |].
    exists a, b, c. split; [reflexivity |]. split; [exact Ha |].
    split; [| exact Hc].
    destruct Hb as [-> | (x & -> & ->%N.eqb_eq)]; [by left | by right].
  - intros (tail & -> & Htail & a & b & c & -> & Ha & Hb & Hc).
    apply list_elem_of_bind. exists (a, b ++ c ++ tail). split.
    2:{ rewrite <- !app_assoc.
        destruct Ha as [-> | (x & -> & Hx)]; [apply opt_skip | by apply opt_take]. }
    apply list_elem_of_bind. exists (b, c ++ tail). split.
    2:{ destruct Hb as [-> | ->]; [apply opt_skip | apply opt_take, N.eqb_refl]. }
    apply list_elem_of_bind. exists (c, tail). split.
    2:{ destruct Hc as [-> | (x & -> & Hx)]; [apply opt_skip | by apply opt_take]. }
    rewrite Htail. by apply list_elem_of_singleton.
Qed.

Lemma chome_match_unfold (text : jsstring) :
  chome_match text =
  match head (chome_matches_at text) with
  | Some g => Some g
  | None => match text with [] => None | _ :: s' => chome_match s' end
  end.
Proof. destruct text; reflexivity. Qed.

(** The match is anchored at the end of the text. *)
Lemma chome_match_Some (text g : jsstring) :
  chome_match text = Some g ->
  exists pre tail, text = pre ++ g ++ tail
    /\ chome_tail tail = true /\ chome_numeral g.
Proof.
  assert (Hhere : forall s, head (chome_matches_at s) = Some g ->
            exists pre tail, s = pre ++ g ++ tail
              /\ chome_tail tail = true /\ chome_numeral g).
  { intros s (tail & Hs & Ht & Hn)%head_Some_elem_of%chome_matches_at_elem.
    exists [], tail. auto. }
  induction text as [|c text IH]; rewrite chome_match_unfold;
    destruct (head (chome_matches_at _)) as [g'|] eqn:Hhd.
  - intros [= ->]. by apply Hhere.
  - intros [=].
  - intros [= ->]. by apply Hhere.
  - intros (pre & tail & -> & Ht & Hn)%IH.
    exists (c :: pre), tail. auto.
Qed.

(** A numeral in front of the tail is found, and the group of the leftmost
    match is not empty. *)
Lemma chome_match_complete (pre g tail : jsstring) :
  g <> [] -> chome_numeral g -> chome_tail tail = true ->
  exists g', chome_match (pre ++ g ++ tail) = Some g' /\ g' <> [].
Proof.
  intros Hg Hn Ht.
  assert (Hlen : forall s, chome_tail s = true -> (length s <= 2)%nat).
  { intros s [-> | ->]%chome_tail_cases; simpl; lia. }
  assert (Hne : forall s g', head (chome_matches_at s) = Some g' ->
                (3 <= length s)%nat -> g' <> []).
  { intros s g' Hhd Hs ->.
    apply head_Some_elem_of, chome_matches_at_elem in Hhd as (t & -> & Htl & _).
    apply Hlen in Htl. simpl in Hs. lia. }
  assert (Hhere : exists g', head (chome_matches_at (g ++ tail)) = Some g').
  { assert (Hin : g ∈ chome_matches_at (g ++ tail)).
    { apply chome_matches_at_elem. eauto. }
    destruct (chome_matches_at (g ++ tail)); [by apply elem_of_nil in Hin |].
    simpl. eauto. }
  assert (Hg2 : forall g', head (chome_matches_at (g ++ tail)) = Some g' -> g' <> []).
  { intros g' Hhd ->.
    apply head_Some_elem_of, chome_matches_at_elem in Hhd as (t & Heq & Htl & _).
    rewrite app_nil_l in Heq. subst t.
    pose proof (Hlen _ Htl) as Hl. rewrite length_app in Hl.
    apply chome_tail_cases in Htl, Ht.
    destruct Ht as [-> | ->]; cbn [length] in Hl;
      (destruct g as [|x [|y g]]; [done | | cbn [length] in Hl; lia]);
      [| cbn [length] in Hl; lia].
    destruct Htl as [Htl | Htl]; discriminate Htl. }
  induction pre as [|c pre IH]; rewrite chome_match_unfold.
  - destruct Hhere as (g' & Hhd). rewrite app_nil_l, Hhd.
    exists g'. split; [reflexivity | by apply Hg2].
  - rewrite <- app_comm_cons.
    destruct (head (chome_matches_at (c :: pre ++ g ++ tail))) as [g'|] eqn:Hhd.
    + exists g'. split; [reflexivity |]. eapply Hne; [exact Hhd |].
      cbn [length]. rewrite !length_app. destruct g; [done |].
      destruct tail; [discriminate |]. cbn [length]. lia.
    + exact IH.
Qed.

(** The tail of a match is given by the end of the text. *)
Lemma chome_tail_end (x y t1 t2 : jsstring) :
  x ++ t1 = y ++ t2 -> chome_tail t1 = true -> chome_tail t2 = true ->
  x = y /\ t1 = t2.
Proof.
  intros Heq [-> | ->]%chome_tail_cases [-> | ->]%chome_tail_cases.
  - by apply app_inj_2 in Heq.
  - exfalso. change [KANJI_CHO; KANJI_ME] with ([KANJI_CHO] ++ [KANJI_ME]) in Heq.
    rewrite app_assoc in Heq. by apply app_inj_tail in Heq as [_ [=]].
  - exfalso. change [KANJI_CHO; KANJI_ME] with ([KANJI_CHO] ++ [KANJI_ME]) in Heq.
    rewrite app_assoc in Heq. by apply app_inj_tail in Heq as [_ [=]].
  - by apply app_inj_2 in Heq.
Qed.

(** [chome_match] is the leftmost match: no match starts before it, and
    there is no match at all when it finds none. *)
Lemma chome_match_leftmost (text : jsstring) :
  match chome_match text with
  | Some g =>
    exists pre tail, text = pre ++ g ++ tail
      /\ chome_tail tail = true /\ chome_numeral g
      /\ forall pre' g' tail',
           text = pre' ++ g' ++ tail' -> chome_tail tail' = true ->
           chome_numeral g' -> (length pre <= length pre')%nat
  | None =>
    forall pre' g' tail',
      text = pre' ++ g' ++ tail' -> chome_tail tail' = true ->
      chome_numeral g' -> False
  end.
Proof.
  assert (Hnone : forall s, head (chome_matches_at s) = None ->
            forall g' tail', s = g' ++ tail' -> chome_tail tail' = true ->
            chome_numeral g' -> False).
  { intros s Hhd g' tail' Hs Ht Hn.
    assert (Hin : g' ∈ chome_matches_at s) by (apply chome_matches_at_elem; eauto).
    destruct (chome_matches_at s); [by apply elem_of_nil in Hin | discriminate]. }
  induction text as [|c text IH]; rewrite chome_match_unfold;
    destruct (head (chome_matches_at _)) as [g|] eqn:Hhd.
  - apply head_Some_elem_of, chome_matches_at_elem in Hhd as (tail & Hs & Ht & Hn).
    exists [], tail. repeat split; try done. intros; cbn [length]; lia.
  - intros pre' g' tail' Heq Ht _. symmetry in Heq.
    apply app_eq_nil in Heq as [_ [_ ->]%app_eq_nil]. discriminate.
  - apply head_Some_elem_of, chome_matches_at_elem in Hhd as (tail & Hs & Ht & Hn).
    exists [], tail. repeat split; try done. intros; cbn [length]; lia.
  - destruct (chome_match text) as [g|].
    + destruct IH as (pre & tail & -> & Ht & Hn & Hleft).
      exists (c :: pre), tail. repeat split; try done.
      intros [|c' pre'] g' tail' Heq Ht' Hn'.
      * exfalso. by eapply (Hnone _ Hhd g' tail').
      * injection Heq as _ Heq. cbn [length].
        specialize (Hleft pre' g' tail' Heq Ht' Hn'). lia.
    + intros [|c' pre'] g' tail' Heq Ht' Hn'.
      * by eapply (Hnone _ Hhd g' tail').
      * injection Heq as _ Heq. by eapply IH.
Qed.

Lemma chome_numeral_nil : chome_numeral [].
Proof. exists [], [], []. repeat split; by left. Qed.

(** The numeral of the match is the longest numeral in front of the tail. *)
Lemma chome_match_longest (body tail : jsstring) :
  chome_tail tail = true ->
  exists pre g, body = pre ++ g /\ chome_numeral g
    /\ (forall pre' g', body = pre' ++ g' -> chome_numeral g' ->
          (length g' <= length g)%nat)
    /\ chome_match (body ++ tail) = Some g.
Proof.
  intros Ht. pose proof (chome_match_leftmost (body ++ tail)) as Hm.
  destruct (chome_match (body ++ tail)) as [g|].
  - destruct Hm as (pre & tail0 & Heq & Ht0 & Hn & Hleft).
    rewrite app_assoc in Heq.
    destruct (chome_tail_end _ _ _ _ Heq Ht Ht0) as [-> <-].
    exists pre, g. repeat split; try done.
    intros pre' g' Hb Hn'.
    assert (Hlen : (length pre <= length pre')%nat).
    { apply (Hleft pre' g' tail); [| done | done].
      by rewrite app_assoc, <- Hb. }
    apply (f_equal length) in Hb. rewrite !length_app in Hb. lia.
  - exfalso. apply (Hm body [] tail); [reflexivity | exact Ht |].
    apply chome_numeral_nil.
Qed.

Lemma string_of_N_nonempty (n : N) : string_of_N n <> [].
Proof.
  unfold string_of_N. destruct n as [|p]; [discriminate |]. simpl.
  pose proof (DecimalPos.Unsigned.to_uint_nonnil p) as Hp.
  destruct (Pos.to_uint p); [done | discriminate ..].
Qed.

Lemma getChomeNumber_cases (text suffix : jsstring) :
  (getChomeNumber text suffix = []
   /\ (chome_match text = None \/ chome_match text = Some []))
  \/ exists g, g <> [] /\ chome_match text = Some g
       /\ getChomeNumber text suffix = string_of_N (kanji2number g) ++ suffix.
Proof.
  unfold getChomeNumber. destruct (chome_match text) as [[|c g]|]; eauto.
  right. exists (c :: g). auto.
Qed.

Lemma chomeSuffix_eq (text : jsstring) :
  chomeSuffix text =
  if eqb (getChomeNumber text []) [] then []
  else 0x20 :: getChomeNumber text [].
Proof. reflexivity. Qed.

(** ** The aggregators: what a record is made of *)

Lemma oazaRecord_Some (prefCode : jsstring) (line : OazaLine)
    (cityName townName : jsstring) (k : KanaItem) (ro : option RomeItem) :
  exists r, oazaRecord prefCode line cityName townName (Some k) ro = Some r
    /\ length r = 15%nat
    /\ r !! COL_prefCode = Some (JStr prefCode)
    /\ r !! COL_zip = Some (JStr (kana_zip k))
    /\ r !! COL_cityCode = Some (JStr (oaza_cityCode line))
    /\ r !! COL_town = Some (JStr townName)
    /\ r !! COL_townKana
       = Some (JStr (han2zen (removeStringEnclosedInParentheses (kana_townKana k))
                       ++ chomeSuffix (oaza_town line)))
    /\ r !! COL_prefRome
       = Some (JStr (match ro with Some i => rome_prefRome i | None => [] end))
    /\ r !! COL_cityRome
       = Some (JStr (match ro with Some i => rome_cityRome i | None => [] end))
    /\ r !! COL_townRome
       = Some (JStr (match ro with
                     | Some i => removeStringEnclosedInParentheses (rome_townRome i)
                                   ++ chomeSuffix (oaza_town line)
                     | None => []
                     end)).
Proof. eexists. split; [reflexivity |]. repeat split. Qed.

Lemma oazaRecord_None (prefCode : jsstring) (line : OazaLine)
    (cityName townName : jsstring) (ro : option RomeItem) :
  oazaRecord prefCode line cityName townName None ro = None.
Proof. reflexivity. Qed.

Lemma gaikuRecord_Some (prefCode : jsstring) (line : GaikuLine)
    (cityName townName koaza : jsstring) (k : KanaItem) (ro : option RomeItem)
    (center : point) :
  exists r, gaikuRecord prefCode line cityName townName koaza (Some k) ro center
              = Some r
    /\ length r = 15%nat
    /\ r !! COL_prefCode = Some (JStr prefCode)
    /\ r !! COL_zip = Some (JStr (kana_zip k))
    /\ r !! COL_cityCode = Some (JStr (kana_lgCode k))
    /\ r !! COL_town = Some (JStr townName)
    /\ r !! COL_townKana
       = Some (JStr (han2zen (removeStringEnclosedInParentheses (kana_townKana k))
                       ++ chomeSuffix townName))
    /\ r !! COL_townRome
       = Some (JStr (match ro with
                     | Some i => removeStringEnclosedInParentheses (rome_townRome i)
                                   ++ chomeSuffix townName
                     | None => []
                     end))
    /\ r !! COL_koaza = Some (JStr koaza)
    /\ r !! COL_lat = Some (JNum (snd center))
    /\ r !! COL_lng = Some (JNum (fst center)).
Proof. eexists. split; [reflexivity |]. repeat split. Qed.

Lemma gaikuRecord_None (prefCode : jsstring) (line : GaikuLine)
    (cityName townName koaza : jsstring) (ro : option RomeItem) (center : point) :
  gaikuRecord prefCode line cityName townName koaza None ro center = None.
Proof. reflexivity. Qed.

Lemma field_lookup (col : nat) (r : record) (s : jsstring) :
  r !! col = Some (JStr s) -> field col r = s.
Proof. unfold field. by intros ->. Qed.

(** ** Coordinate aggregator *)

Lemma bound_gt_Fin (x q : Q) :
  bound_gt (Fin x) q = true <-> (q < x)%Q.
Proof.
  simpl. rewrite (Qgt_alt x q). destruct (x ?= q)%Q; split; congruence.
Qed.

Lemma bound_lt_Fin (x q : Q) :
  bound_lt (Fin x) q = true <-> (x < q)%Q.
Proof.
  simpl. rewrite Qlt_alt. destruct (x ?= q)%Q; split; congruence.
Qed.

(** One bound moved by one sample: it becomes the smaller (the larger) of
    the two, and it is one of the two. *)
Lemma lower_step (w x : Q) :
  let w' := if bound_gt (Fin w) x then x else w in
  (w' <= w)%Q /\ (w' <= x)%Q /\ (w' = w \/ w' = x).
Proof.
  cbv zeta. destruct (bound_gt (Fin w) x) eqn:H.
  - apply bound_gt_Fin in H. repeat split; auto using Qlt_le_weak, Qle_refl.
  - assert (~ (x < w)%Q) as Hn by (rewrite <- bound_gt_Fin; congruence).
    apply Qnot_lt_le in Hn. repeat split; auto using Qle_refl.
Qed.

Lemma upper_step (e x : Q) :
  let e' := if bound_lt (Fin e) x then x else e in
  (e <= e')%Q /\ (x <= e')%Q /\ (e' = e \/ e' = x).
Proof.
  cbv zeta. destruct (bound_lt (Fin e) x) eqn:H.
  - apply bound_lt_Fin in H. repeat split; auto using Qlt_le_weak, Qle_refl.
  - assert (~ (e < x)%Q) as Hn by (rewrite <- bound_lt_Fin; congruence).
    apply Qnot_lt_le in Hn. repeat split; auto using Qle_refl.
Qed.

Lemma is_bbox_single (c : point) : is_bbox [c] (fst c) (snd c) (fst c) (snd c).
Proof.
  split; [| repeat split; exists c; split; auto; by left].
  intros p [<- | []]. repeat split; apply Qle_refl.
Qed.

Lemma is_bbox_step (seen : list point) (w s e n : Q) (c : point) :
  is_bbox seen w s e n ->
  exists w' s' e' n',
    bbox_step (Fin w, Fin s, Fin e, Fin n) c = (Fin w', Fin s', Fin e', Fin n')
    /\ is_bbox (seen ++ [c]) w' s' e' n'.
Proof.
  intros (Hall & (pw & Hpw & Hw) & (ps & Hps & Hs) & (pe & Hpe & He) & (pn & Hpn & Hn)).
  pose proof (lower_step w (fst c)) as (Hw1 & Hw2 & Hw3).
  pose proof (lower_step s (snd c)) as (Hs1 & Hs2 & Hs3).
  pose proof (upper_step e (fst c)) as (He1 & He2 & He3).
  pose proof (upper_step n (snd c)) as (Hn1 & Hn2 & Hn3).
  exists (if bound_gt (Fin w) (fst c) then fst c else w),
         (if bound_gt (Fin s) (snd c) then snd c else s),
         (if bound_lt (Fin e) (fst c) then fst c else e),
         (if bound_lt (Fin n) (snd c) then snd c else n).
  split.
  { unfold bbox_step.
    destruct (bound_gt (Fin w) (fst c)), (bound_gt (Fin s) (snd c)),
      (bound_lt (Fin e) (fst c)), (bound_lt (Fin n) (snd c)); reflexivity. }
  assert (Hc : In c (seen ++ [c])) by (apply in_or_app; right; by left).
  assert (Hold : forall p, In p seen -> In p (seen ++ [c]))
    by (intros p Hp; apply in_or_app; by left).
  split; [| split; [| split; [| split]]].
  - intros p [Hp | [<- | []]]%in_app_or.
    + destruct (Hall p Hp) as (H1 & H2 & H3 & H4).
      repeat split; eauto using Qle_trans.
    + repeat split; assumption.
  - destruct Hw3 as [-> | ->]; [exists pw | exists c]; auto.
  - destruct Hs3 as [-> | ->]; [exists ps | exists c]; auto.
  - destruct He3 as [-> | ->]; [exists pe | exists c]; auto.
  - destruct Hn3 as [-> | ->]; [exists pn | exists c]; auto.
Qed.

Lemma bbox_fold (rest seen : list point) (w s e n : Q) :
  is_bbox seen w s e n ->
  exists w' s' e' n',
    fold_left bbox_step rest (Fin w, Fin s, Fin e, Fin n)
    = (Fin w', Fin s', Fin e', Fin n')
    /\ is_bbox (seen ++ rest) w' s' e' n'.
Proof.
  revert seen w s e n.
  induction rest as [|c rest IH]; intros seen w s e n Hb.
  - exists w, s, e, n. by rewrite app_nil_r.
  - destruct (is_bbox_step seen w s e n c Hb) as (w' & s' & e' & n' & Heq & Hb').
    cbn [fold_left]. rewrite Heq.
    destruct (IH _ _ _ _ _ Hb') as (w2 & s2 & e2 & n2 & Heq2 & Hb2).
    exists w2, s2, e2, n2. split; [exact Heq2 |].
    by rewrite <- app_assoc in Hb2.
Qed.

(** [turfCenter] of at least one sample is the centre of their bounding
    box. *)
Lemma turfCenter_spec (arr : list point) :
  arr <> [] ->
  exists w s e n, is_bbox arr w s e n
    /\ turfCenter arr = Some (((w + e) / 2)%Q, ((s + n) / 2)%Q).
Proof.
  destruct arr as [|c rest]; [done |]. intros _.
  destruct (bbox_fold rest [c] _ _ _ _ (is_bbox_single c))
    as (w & s & e & n & Heq & Hb).
  exists w, s, e, n. split; [exact Hb |].
  unfold turfCenter, bbox. cbn [fold_left].
  change (bbox_step (PosInf, PosInf, NegInf, NegInf) c)
    with (Fin (fst c), Fin (snd c), Fin (fst c), Fin (snd c)).
  by rewrite Heq.
Qed.

Lemma nearest_from_bound (target : point) (rest : list point)
    (i best : nat) (minDist : option D) :
  (best < i)%nat ->
  (nearest_from distance ltb target rest i best minDist < i + length rest)%nat.
Proof.
  revert i best minDist.
  induction rest as [|pt rest IH]; intros i best minDist Hlt; cbn [nearest_from length].
  - lia.
  - destruct (below ltb (distance target pt) minDist).
    + specialize (IH (S i) i (Some (distance target pt))). lia.
    + specialize (IH (S i) best minDist). lia.
Qed.

(** The loop of [turfNearestPoint] keeps the first feature whose distance no
    other feature is below, when [<] on distances is a strict weak order. *)
Lemma nearest_from_min (target : point) (rest seen : list point)
    (best : nat) (p : point) :
  strict_weak_order ltb ->
  seen !! best = Some p ->
  (forall q, In q seen -> ltb (distance target q) (distance target p) = false) ->
  (forall j q, (j < best)%nat -> seen !! j = Some q ->
     ltb (distance target p) (distance target q) = true) ->
  exists i p',
    nearest_from distance ltb target rest (length seen) best
      (Some (distance target p)) = i
    /\ (seen ++ rest) !! i = Some p'
    /\ (forall q, In q (seen ++ rest) ->
          ltb (distance target q) (distance target p') = false)
    /\ (forall j q, (j < i)%nat -> (seen ++ rest) !! j = Some q ->
          ltb (distance target p') (distance target q) = true).
Proof.
  intros (Hirr & Htrans & Hneg). revert seen best p.
  induction rest as [|pt rest IH]; intros seen best p Hbest Hmin Hfirst.
  - exists best, p. rewrite app_nil_r. auto.
  - cbn [nearest_from below].
    assert (Hlen : length (seen ++ [pt]) = S (length seen))
      by (rewrite length_app; simpl; lia).
    destruct (ltb (distance target pt) (distance target p)) eqn:Hlt.
    + destruct (IH (seen ++ [pt]) (length seen) pt) as (i & p' & Hi & Hp' & H1 & H2).
      * by rewrite lookup_app_r, Nat.sub_diag.
      * intros q [Hq | [<- | []]]%in_app_or; [| apply Hirr].
        destruct (ltb (distance target q) (distance target pt)) eqn:Hq'; [| done].
        pose proof (Htrans _ _ _ Hq' Hlt) as Ht.
        rewrite (Hmin q Hq) in Ht. discriminate.
      * intros j q Hj Hq. rewrite lookup_app_l in Hq by lia.
        destruct (ltb (distance target pt) (distance target q)) eqn:Hq'; [done |].
        apply list_elem_of_lookup_2, list_elem_of_In in Hq.
        rewrite (Hneg _ _ _ Hq' (Hmin q Hq)) in Hlt. discriminate.
      * exists i, p'. rewrite Hlen in Hi. rewrite <- app_assoc in Hp', H1, H2.
        auto.
    + destruct (IH (seen ++ [pt]) best p) as (i & p' & Hi & Hp' & H1 & H2).
      * apply lookup_app_l_Some. exact Hbest.
      * intros q [Hq | [<- | []]]%in_app_or; auto.
      * intros j q Hj Hq. apply (Hfirst j q Hj).
        apply lookup_lt_Some in Hbest. rewrite lookup_app_l in Hq by lia. exact Hq.
      * exists i, p'. rewrite Hlen in Hi. rewrite <- app_assoc in Hp', H1, H2.
        auto.
Qed.

(** [turfNearestPoint] answers with one of the features it was given. *)
Lemma turfNearestPoint_spec (target : point) (points : list point) :
  points <> [] ->
  exists i p,
    turfNearestPoint distance ltb target points = Some p
    /\ points !! i = Some p
    /\ (strict_weak_order ltb ->
        (forall q, In q points ->
           ltb (distance target q) (distance target p) = false)
        /\ (forall j q, (j < i)%nat -> points !! j = Some q ->
              ltb (distance target p) (distance target q) = true)).
Proof.
  destruct points as [|c rest]; [done |]. intros _.
  unfold turfNearestPoint. cbn [nearest_from below].
  set (i := nearest_from distance ltb target rest 1 0 (Some (distance target c))).
  assert (Hi : (i < length (c :: rest))%nat).
  { pose proof (nearest_from_bound target rest 1 0 (Some (distance target c))).
    cbn [length]. fold i in H. lia. }
  destruct (lookup_lt_is_Some_2 _ _ Hi) as [p Hp].
  exists i, p. split; [exact Hp |]. split; [exact Hp |].
  intros Hswo.
  destruct (nearest_from_min target rest [c] 0 c Hswo eq_refl)
    as (i' & p' & Hi' & Hp' & H1 & H2).
  - intros q [<- | []]. by destruct Hswo as (Hirr & _).
  - intros j q Hj. lia.
  - cbn [length] in Hi'. fold i in Hi'. subst i'.
    change ([c] ++ rest) with (c :: rest) in *.
    rewrite Hp in Hp'. injection Hp' as <-. auto.
Qed.

(** [getCenter] answers for every key that has a sample. *)
Lemma getCenter_is_Some (recordKey : jsstring)
    (coords : gmap jsstring (list point)) (arr : list point) :
  coords !! recordKey = Some arr -> arr <> [] ->
  exists p, getCenter distance ltb recordKey coords = Some p /\ In p arr.
Proof.
  intros Hk Hne.
  destruct (turfCenter_spec arr Hne) as (w & s & e & n & _ & Hc).
  destruct (turfNearestPoint_spec (((w + e) / 2)%Q, ((s + n) / 2)%Q) arr Hne)
    as (i & p & Hp & Hi & _).
  exists p. split.
  - unfold getCenter. rewrite Hk. cbn [mbind option_bind]. rewrite Hc.
    cbn [mbind option_bind]. exact Hp.
  - apply list_elem_of_In. by eapply list_elem_of_lookup_2.
Qed.

(** C4, as amended.  For a key with at least one sample, [getCenter] returns
    one of the samples of the key, never another point: the sample at the
    index that [turfNearestPoint] settles on for the centre of the bounding
    box of the samples.  When [<] on the distances of [turfNearestPoint] is a
    strict weak order, no sample is nearer the centre in that distance, and
    every earlier sample is strictly farther. *)
Theorem getCenter_returns_sample (recordKey : jsstring)
    (coords : gmap jsstring (list point)) (arr : list point) :
  coords !! recordKey = Some arr ->
  arr <> [] ->
  exists w s e n i p,
    is_bbox arr w s e n
    /\ getCenter distance ltb recordKey coords = Some p
    /\ arr !! i = Some p
    /\ (strict_weak_order ltb ->
        let center := (((w + e) / 2)%Q, ((s + n) / 2)%Q) in
        (forall q, In q arr ->
           ltb (distance center q) (distance center p) = false)
        /\ (forall j q, (j < i)%nat -> arr !! j = Some q ->
              ltb (distance center p) (distance center q) = true)).
Proof.
  intros Hk Hne.
  destruct (turfCenter_spec arr Hne) as (w & s & e & n & Hb & Hc).
  destruct (turfNearestPoint_spec (((w + e) / 2)%Q, ((s + n) / 2)%Q) arr Hne)
    as (i & p & Hp & Hi & Hmin).
  exists w, s, e, n, i, p. split; [exact Hb |]. split; [| split; [exact Hi | exact Hmin]].
  unfold getCenter. rewrite Hk. cbn [mbind option_bind]. rewrite Hc.
  cbn [mbind option_bind]. exact Hp.
Qed.

(** ** Deduplication: the two line iterations *)

Lemma oazaLoop_dedup (prefCode : jsstring) (kanaItems : list KanaItem)
    (romeItems : list RomeItem) (data : list OazaLine)
    (records : gmap jsstring record) :
  oazaLoop prefCode kanaItems romeItems data records
  = dedupLoop oazaKey (oazaRecordOf prefCode kanaItems romeItems) data records.
Proof.
  revert records. induction data as [|line rest IH]; intros records;
    [reflexivity |].
  cbn [oazaLoop dedupLoop]. destruct (records !! oazaKey line); [apply IH |].
  destruct (oazaRecordOf prefCode kanaItems romeItems line); [apply IH | reflexivity].
Qed.

Lemma gaikuLoop_dedup (prefCode : jsstring) (kanaItems : list KanaItem)
    (romeItems : list RomeItem) (coords : gmap jsstring (list point))
    (data : list GaikuLine) (records : gmap jsstring record) :
  gaikuLoop prefCode kanaItems romeItems coords data records
  = dedupLoop gaikuKey (gaikuRecordOf prefCode kanaItems romeItems coords)
      data records.
Proof.
  revert records. induction data as [|line rest IH]; intros records;
    [reflexivity |].
  cbn [gaikuLoop dedupLoop]. destruct (records !! gaikuKey line); [apply IH |].
  destruct (gaikuRecordOf prefCode kanaItems romeItems coords line);
    [apply IH | reflexivity].
Qed.

Section Dedup.

Context {L : Type}.
Variable key : L -> jsstring.
Variable make : L -> option record.

(** Under a key the loop leaves what was there, or else the record of the
    first row that has the key. *)
Lemma dedupLoop_lookup (data : list L) (records res : gmap jsstring record) :
  dedupLoop key make data records = Some res ->
  forall k,
    res !! k = match records !! k with
               | Some r => Some r
               | None => firstWithKey key k data ≫= make
               end.
Proof.
  revert records. induction data as [|line rest IH]; intros records.
  - intros [= <-] k. by destruct (records !! k).
  - cbn [dedupLoop]. unfold firstWithKey. cbn [List.find].
    destruct (records !! key line) as [r0|] eqn:Hline.
    + intros Hres k. rewrite (IH _ Hres k).
      destruct (records !! k) as [r|] eqn:Hk; [reflexivity |].
      destruct (eqb (key line) k) eqn:Heq; [| reflexivity].
      apply eqb_eq in Heq. congruence.
    + destruct (make line) as [r|] eqn:Hmake; [| discriminate].
      cbn [mbind option_bind]. intros Hres k. rewrite (IH _ Hres k).
      destruct (eqb (key line) k) eqn:Heq.
      * apply eqb_eq in Heq. subst k.
        rewrite lookup_insert_eq, Hline. cbn [mbind option_bind]. by rewrite Hmake.
      * apply eqb_neq in Heq. by rewrite lookup_insert_ne.
Qed.

Lemma dedupLoop_keeps (data : list L) (records res : gmap jsstring record)
    (k : jsstring) (r : record) :
  dedupLoop key make data records = Some res ->
  records !! k = Some r -> res !! k = Some r.
Proof. intros Hres Hk. by rewrite (dedupLoop_lookup _ _ _ Hres k), Hk. Qed.

(** Every row leaves a record under its key. *)
Lemma dedupLoop_covers (data : list L) (records res : gmap jsstring record) :
  dedupLoop key make data records = Some res ->
  forall line, In line data -> is_Some (res !! key line).
Proof.
  revert records. induction data as [|l rest IH]; intros records Hres line;
    [intros [] |].
  cbn [dedupLoop] in Hres. intros [<- | Hin].
  - destruct (records !! key l) as [r0|] eqn:Hl.
    + rewrite (dedupLoop_keeps _ _ _ _ _ Hres Hl). eauto.
    + destruct (make l) as [r|]; [| discriminate]. cbn [mbind option_bind] in Hres.
      erewrite (dedupLoop_keeps _ _ _ _ _ Hres); [eauto |].
      apply lookup_insert_eq.
  - destruct (records !! key l) as [r0|]; [by eapply IH |].
    destruct (make l) as [r|]; [| discriminate]. by eapply IH.
Qed.

(** The loop comes to its end when every row can be made into a record. *)
Lemma dedupLoop_total (data : list L) (records : gmap jsstring record) :
  (forall line, In line data -> is_Some (make line)) ->
  is_Some (dedupLoop key make data records).
Proof.
  revert records. induction data as [|l rest IH]; intros records Hall;
    [by eexists |].
  cbn [dedupLoop].
  assert (Hrest : forall line, In line rest -> is_Some (make line))
    by (intros line Hin; apply Hall; by right).
  destruct (records !! key l); [by apply IH |].
  destruct (Hall l (or_introl eq_refl)) as [r ->]. by apply IH.
Qed.

(** The loop throws when the first row of a fresh key cannot be made into a
    record. *)
Lemma dedupLoop_abort (pre : list L) (line : L) (rest : list L)
    (records : gmap jsstring record) :
  make line = None ->
  records !! key line = None ->
  (forall l, In l pre -> key l <> key line) ->
  dedupLoop key make (pre ++ line :: rest) records = None.
Proof.
  intros Hmake. revert records.
  induction pre as [|l pre IH]; intros records Hfresh Hpre; cbn [app dedupLoop].
  - by rewrite Hfresh, Hmake.
  - assert (Hpre' : forall l', In l' pre -> key l' <> key line)
      by (intros l' Hin; apply Hpre; by right).
    destruct (records !! key l); [by apply IH |].
    destruct (make l) as [r|]; [| reflexivity]. cbn [mbind option_bind].
    apply IH; [| exact Hpre'].
    rewrite lookup_insert_ne; [exact Hfresh |]. apply Hpre. by left.
Qed.

End Dedup.

(** ** Coordinate samples *)

Lemma addToCoords_lookup (recordKey : jsstring) (lng lat : Q)
    (coords : gmap jsstring (list point)) (k : jsstring) :
  addToCoords recordKey lng lat coords !! k
  = if decide (recordKey = k)
    then Some (default [] (coords !! recordKey) ++ [(lng, lat)])
    else coords !! k.
Proof.
  unfold addToCoords.
  destruct (coords !! recordKey) as [arr|] eqn:Hk; rewrite lookup_insert;
    by destruct (decide (recordKey = k)).
Qed.

(** A sample is only ever added at the end of the array of its key. *)
Lemma addToCoords_grows (recordKey : jsstring) (lng lat : Q)
    (coords : gmap jsstring (list point)) (k : jsstring) (arr : list point) :
  coords !! k = Some arr ->
  exists more, addToCoords recordKey lng lat coords !! k = Some (arr ++ more).
Proof.
  intros Hk. rewrite addToCoords_lookup.
  destruct (decide (recordKey = k)) as [Heq | _].
  - subst k. exists [(lng, lat)]. by rewrite Hk.
  - exists []. by rewrite app_nil_r.
Qed.

Lemma gaikuSamples_grows (data : list GaikuLine)
    (st : gmap jsstring (list point) * list GaikuRecord)
    (k : jsstring) (arr : list point) :
  fst st !! k = Some arr ->
  exists more, fst (fold_left gaikuSample data st) !! k = Some (arr ++ more).
Proof.
  revert st arr. induction data as [|line rest IH]; intros st arr Hk;
    cbn [fold_left].
  - exists []. by rewrite app_nil_r.
  - destruct (addToCoords_grows (gaikuKey line) (Number (gaiku_lng line))
                (Number (gaiku_lat line)) (fst st) k arr Hk) as [m1 H1].
    destruct (IH (gaikuSample st line) (arr ++ m1) H1) as [m2 H2].
    exists (m1 ++ m2). by rewrite app_assoc.
Qed.

(** After the first loop every row has its own sample under its key. *)
Lemma gaikuSamples_covers (data : list GaikuLine)
    (st : gmap jsstring (list point) * list GaikuRecord) (line : GaikuLine) :
  In line data ->
  exists arr, fst (fold_left gaikuSample data st) !! gaikuKey line = Some arr
    /\ In (Number (gaiku_lng line), Number (gaiku_lat line)) arr.
Proof.
  revert st. induction data as [|l rest IH]; intros st; [intros [] |].
  cbn [fold_left]. intros [-> | Hin]; [| by apply IH].
  assert (H1 : fst (gaikuSample st line) !! gaikuKey line
               = Some (default [] (fst st !! gaikuKey line)
                         ++ [(Number (gaiku_lng line), Number (gaiku_lat line))])).
  { unfold gaikuSample. cbn [fst]. rewrite addToCoords_lookup.
    by destruct (decide (gaikuKey line = gaikuKey line)). }
  destruct (gaikuSamples_grows rest _ _ _ H1) as [more H2].
  eexists. split; [exact H2 |].
  apply in_or_app. left. apply in_or_app. right. by left.
Qed.

(** With its samples in place, a row of the block-level file becomes a
    record exactly when its kana lookup finds an item. *)
Lemma gaikuRecordOf_is_Some (prefCode : jsstring) (kanaItems : list KanaItem)
    (romeItems : list RomeItem) (coords : gmap jsstring (list point))
    (line : GaikuLine) (arr : list point) :
  coords !! gaikuKey line = Some arr -> arr <> [] ->
  is_Some (getPostalKanaOrRomeItems kana (gaiku_pref line) (gaikuCity line)
             (gaikuTown line) kanaItems) ->
  is_Some (gaikuRecordOf prefCode kanaItems romeItems coords line).
Proof.
  intros Hk Hne [k Hkana].
  destruct (getCenter_is_Some _ _ _ Hk Hne) as (p & Hc & _).
  unfold gaikuRecordOf. rewrite Hc, Hkana. cbn [mbind option_bind].
  destruct (gaikuRecord_Some prefCode line (gaikuCity line) (gaikuTown line)
              (koazaName line) k
              (getPostalKanaOrRomeItems rome (gaiku_pref line) (gaikuCity line)
                 (gaikuTown line) romeItems) p) as (r & Hr & _).
  exists r. exact Hr.
Qed.

Lemma oazaRecordOf_is_Some (prefCode : jsstring) (kanaItems : list KanaItem)
    (romeItems : list RomeItem) (line : OazaLine) :
  is_Some (getPostalKanaOrRomeItems kana (oaza_pref line) (oazaCity line)
             (oazaTown line) kanaItems) ->
  is_Some (oazaRecordOf prefCode kanaItems romeItems line).
Proof.
  intros [k Hkana]. unfold oazaRecordOf. rewrite Hkana.
  destruct (oazaRecord_Some prefCode line (oazaCity line) (oazaTown line) k
              (getPostalKanaOrRomeItems rome (oaza_pref line) (oazaCity line)
                 (oazaTown line) romeItems)) as (r & Hr & _).
  exists r. exact Hr.
Qed.

Lemma getGaikuAddressItems_Some (prefCode : jsstring)
    (kanaItems : list KanaItem) (romeItems : list RomeItem)
    (records : gmap jsstring record) (data : list GaikuLine)
    (coords0 : gmap jsstring (list point)) (res : GaikuResult) :
  getGaikuAddressItems prefCode kanaItems romeItems records data coords0
  = Some res ->
  coords_after res = fst (gaikuSamples data coords0)
  /\ gaikuItems res = snd (gaikuSamples data coords0)
  /\ dedupLoop gaikuKey
       (gaikuRecordOf prefCode kanaItems romeItems (coords_after res))
       data records = Some (towns res).
Proof.
  unfold getGaikuAddressItems. rewrite gaikuLoop_dedup.
  destruct (dedupLoop _ _ data records) as [t|] eqn:Ht; [| discriminate].
  intros [= <-]. cbn [coords_after gaikuItems towns]. auto.
Qed.

(** ** The aggregators: the chome number and the city code *)

(** C7, as amended.  [getChomeNumber] is empty on a text that does not end in
    丁 or 丁目.  On a text that ends so, its result is fixed by the longest
    kanji numeral that stands in front of that end, which always exists: the
    empty string when this numeral is empty, and otherwise the decimal
    rendering of what [kanji2number] makes of it, which is not empty.  A row
    for which the kana dictionary has an item gives a record (at Gaiku level
    in the second loop, on a file whose coordinates read as finite numbers);
    in it the stored town name is the normalized source name, the kana
    reading is the dictionary reading followed, when the number is not empty,
    by one space and the number, and the romaji reading likewise (a romaji
    reading that is empty for want of a romaji item stays empty).  The number
    is that of the raw source town name at Oaza level and that of the
    normalized town name at Gaiku level. *)
Theorem getChomeNumber_appended :
  (forall text,
     (forall pre, text <> pre ++ [KANJI_CHO] /\ text <> pre ++ [KANJI_CHO; KANJI_ME]) ->
     getChomeNumber text [] = [])
  /\ (forall body tail pre g,
     tail = [KANJI_CHO] \/ tail = [KANJI_CHO; KANJI_ME] ->
     body = pre ++ g -> chome_numeral g ->
     (forall pre' g', body = pre' ++ g' -> chome_numeral g' ->
        (length g' <= length g)%nat) ->
     getChomeNumber (body ++ tail) []
     = match g with
       | [] => []
       | _ :: _ => string_of_N (kanji2number g)
       end)
  /\ (forall body : jsstring,
     exists pre g, body = pre ++ g /\ chome_numeral g
       /\ forall pre' g', body = pre' ++ g' -> chome_numeral g' ->
            (length g' <= length g)%nat)
  /\ (forall text,
     getChomeNumber text [] <> [] ->
     exists pre g tail, text = pre ++ g ++ tail
       /\ (tail = [KANJI_CHO] \/ tail = [KANJI_CHO; KANJI_ME])
       /\ g <> [] /\ chome_numeral g
       /\ getChomeNumber text [] = string_of_N (kanji2number g))
  /\ (forall pre g tail,
     g <> [] -> chome_numeral g ->
     tail = [KANJI_CHO] \/ tail = [KANJI_CHO; KANJI_ME] ->
     getChomeNumber (pre ++ g ++ tail) [] <> [])
  /\ (forall prefCode kanaItems romeItems line r,
     oazaRecordOf prefCode kanaItems romeItems line = Some r ->
     let n := getChomeNumber (oaza_town line) [] in
     let appended := if eqb n [] then [] else 0x20 :: n in
     field COL_town r = removeUnnecessarySpace (oaza_town line)
     /\ (exists k,
          getPostalKanaOrRomeItems kana (oaza_pref line) (oazaCity line)
            (oazaTown line) kanaItems = Some k
          /\ field COL_townKana r
             = han2zen (removeStringEnclosedInParentheses (kana_townKana k))
                 ++ appended)
     /\ (forall ro,
          getPostalKanaOrRomeItems rome (oaza_pref line) (oazaCity line)
            (oazaTown line) romeItems = Some ro ->
          field COL_townRome r
          = removeStringEnclosedInParentheses (rome_townRome ro) ++ appended)
     /\ (getPostalKanaOrRomeItems rome (oaza_pref line) (oazaCity line)
            (oazaTown line) romeItems = None ->
          field COL_townRome r = []))
  /\ (forall prefCode kanaItems romeItems coords line r,
     gaikuRecordOf prefCode kanaItems romeItems coords line = Some r ->
     let n := getChomeNumber (gaikuTown line) [] in
     let appended := if eqb n [] then [] else 0x20 :: n in
     field COL_town r = removeUnnecessarySpace (gaiku_town line)
     /\ (exists k,
          getPostalKanaOrRomeItems kana (gaiku_pref line) (gaikuCity line)
            (gaikuTown line) kanaItems = Some k
          /\ field COL_townKana r
             = han2zen (removeStringEnclosedInParentheses (kana_townKana k))
                 ++ appended)
     /\ (forall ro,
          getPostalKanaOrRomeItems rome (gaiku_pref line) (gaikuCity line)
            (gaikuTown line) romeItems = Some ro ->
          field COL_townRome r
          = removeStringEnclosedInParentheses (rome_townRome ro) ++ appended)
     /\ (getPostalKanaOrRomeItems rome (gaiku_pref line) (gaikuCity line)
            (gaikuTown line) romeItems = None ->
          field COL_townRome r = []))
  /\ (forall prefCode kanaItems romeItems line,
     is_Some (getPostalKanaOrRomeItems kana (oaza_pref line) (oazaCity line)
                (oazaTown line) kanaItems) ->
     is_Some (oazaRecordOf prefCode kanaItems romeItems line))
  /\ (forall prefCode kanaItems romeItems data coords0 line,
     (forall l, In l data ->
        coordinateLiteral (gaiku_lng l) = true
        /\ coordinateLiteral (gaiku_lat l) = true) ->
     In line data ->
     is_Some (getPostalKanaOrRomeItems kana (gaiku_pref line) (gaikuCity line)
                (gaikuTown line) kanaItems) ->
     is_Some (gaikuRecordOf prefCode kanaItems romeItems
                (fst (gaikuSamples data coords0)) line)).
Proof.
  split; [| split; [| split; [| split; [| split; [| split; [| split; [| split]]]]]]].
  - intros text Hend.
    destruct (getChomeNumber_cases text []) as [[H _] | (g & Hg & Hm & _)];
      [exact H |].
    apply chome_match_Some in Hm as (pre & tail & -> & Ht & _).
    apply chome_tail_cases in Ht. destruct (Hend (pre ++ g)) as [H1 H2].
    rewrite <- !app_assoc in H1, H2. by destruct Ht as [-> | ->].
  - intros body tail pre g Ht%chome_tail_cases Hb Hn Hmax.
    destruct (chome_match_longest body tail Ht)
      as (pre0 & g0 & Hb0 & Hn0 & Hmax0 & Hm).
    assert (Hg : g0 = g).
    { pose proof (Hmax pre0 g0 Hb0 Hn0). pose proof (Hmax0 pre g Hb Hn).
      rewrite Hb in Hb0. apply app_inj_2 in Hb0 as [_ ->]; [done | lia]. }
    subst g0. unfold getChomeNumber. rewrite Hm. destruct g; [done |].
    by rewrite app_nil_r.
  - intros body.
    destruct (chome_match_longest body [KANJI_CHO] eq_refl)
      as (pre & g & Hb & Hn & Hmax & _).
    by exists pre, g.
  - intros text Hne.
    destruct (getChomeNumber_cases text []) as [[H _] | (g & Hg & Hm & Heq)];
      [done |].
    apply chome_match_Some in Hm as (pre & tail & -> & Ht & Hn).
    exists pre, g, tail. rewrite app_nil_r in Heq.
    apply chome_tail_cases in Ht. auto.
  - intros pre g tail Hg Hn Ht%chome_tail_cases.
    destruct (chome_match_complete pre g tail Hg Hn Ht) as (g' & Hm & Hg').
    unfold getChomeNumber. rewrite Hm. destruct g' as [|c g']; [done |].
    rewrite app_nil_r. apply string_of_N_nonempty.
  - intros prefCode kanaItems romeItems line r. unfold oazaRecordOf.
    destruct (getPostalKanaOrRomeItems kana _ _ _ kanaItems) as [k|];
      [| by rewrite oazaRecord_None].
    set (ro := getPostalKanaOrRomeItems rome _ _ _ romeItems).
    destruct (oazaRecord_Some prefCode line (oazaCity line) (oazaTown line) k ro)
      as (r' & Hr' & _ & _ & _ & _ & Htown & Hkana & _ & _ & Hrome).
    intros Hr. pose proof (eq_trans (eq_sym Hr') Hr) as [= ->].
    rewrite chomeSuffix_eq in Hkana, Hrome. cbn zeta.
    split; [by apply field_lookup |]. split; [| split].
    + exists k. split; [reflexivity | by apply field_lookup].
    + intros i Hi. rewrite Hi in Hrome. by apply field_lookup.
    + intros Hi. rewrite Hi in Hrome. by apply field_lookup.
  - intros prefCode kanaItems romeItems coords line r. unfold gaikuRecordOf.
    destruct (getCenter distance ltb (gaikuKey line) coords) as [center|];
      [| discriminate].
    cbn [mbind option_bind].
    destruct (getPostalKanaOrRomeItems kana _ _ _ kanaItems) as [k|];
      [| by rewrite gaikuRecord_None].
    set (ro := getPostalKanaOrRomeItems rome _ _ _ romeItems).
    destruct (gaikuRecord_Some prefCode line (gaikuCity line) (gaikuTown line)
                (koazaName line) k ro center)
      as (r' & Hr' & _ & _ & _ & _ & Htown & Hkana & Hrome & _).
    intros Hr. pose proof (eq_trans (eq_sym Hr') Hr) as [= ->].
    rewrite chomeSuffix_eq in Hkana, Hrome. cbn zeta.
    split; [by apply field_lookup |]. split; [| split].
    + exists k. split; [reflexivity | by apply field_lookup].
    + intros i Hi. rewrite Hi in Hrome. by apply field_lookup.
    + intros Hi. rewrite Hi in Hrome. by apply field_lookup.
  - intros prefCode kanaItems romeItems line. apply oazaRecordOf_is_Some.
  - intros prefCode kanaItems romeItems data coords0 line _ Hin Hk.
    destruct (gaikuSamples_covers data (coords0, []) line Hin)
      as (arr & Harr & Hs).
    eapply gaikuRecordOf_is_Some; [exact Harr | by intros -> | exact Hk].
Qed.

(** C10.  An Oaza record takes its city code from the row; a Gaiku record
    takes it from the kana item, so a Gaiku row whose kana lookup finds
    nothing gives no record.  A row whose kana lookup finds an item does give
    the record: at Oaza level always, at Gaiku level in the second loop, where
    the first loop has stored a sample for the key of every row, the
    coordinates of the file reading as finite numbers. *)
Theorem city_code_source :
  (forall prefCode kanaItems romeItems line r,
     oazaRecordOf prefCode kanaItems romeItems line = Some r ->
     r !! COL_cityCode = Some (JStr (oaza_cityCode line)))
  /\ (forall prefCode kanaItems romeItems coords line r,
     gaikuRecordOf prefCode kanaItems romeItems coords line = Some r ->
     exists k,
       getPostalKanaOrRomeItems kana (gaiku_pref line) (gaikuCity line)
         (gaikuTown line) kanaItems = Some k
       /\ r !! COL_cityCode = Some (JStr (kana_lgCode k)))
  /\ (forall prefCode kanaItems romeItems coords line,
     getPostalKanaOrRomeItems kana (gaiku_pref line) (gaikuCity line)
       (gaikuTown line) kanaItems = None ->
     gaikuRecordOf prefCode kanaItems romeItems coords line = None)
  /\ (forall prefCode kanaItems romeItems line k,
     getPostalKanaOrRomeItems kana (oaza_pref line) (oazaCity line)
       (oazaTown line) kanaItems = Some k ->
     exists r, oazaRecordOf prefCode kanaItems romeItems line = Some r
       /\ r !! COL_cityCode = Some (JStr (oaza_cityCode line)))
  /\ (forall prefCode kanaItems romeItems data coords0 line k,
     (forall l, In l data ->
        coordinateLiteral (gaiku_lng l) = true
        /\ coordinateLiteral (gaiku_lat l) = true) ->
     In line data ->
     getPostalKanaOrRomeItems kana (gaiku_pref line) (gaikuCity line)
       (gaikuTown line) kanaItems = Some k ->
     exists r,
       gaikuRecordOf prefCode kanaItems romeItems
         (fst (gaikuSamples data coords0)) line = Some r
       /\ r !! COL_cityCode = Some (JStr (kana_lgCode k))).
Proof.
  assert (Hoaza : forall prefCode kanaItems romeItems line r,
     oazaRecordOf prefCode kanaItems romeItems line = Some r ->
     r !! COL_cityCode = Some (JStr (oaza_cityCode line))).
  { intros prefCode kanaItems romeItems line r. unfold oazaRecordOf.
    destruct (getPostalKanaOrRomeItems kana _ _ _ kanaItems) as [k|];
      [| by rewrite oazaRecord_None].
    set (ro := getPostalKanaOrRomeItems rome _ _ _ romeItems).
    destruct (oazaRecord_Some prefCode line (oazaCity line) (oazaTown line) k ro)
      as (r' & Hr' & _ & _ & _ & Hcode & _).
    intros Hr. by pose proof (eq_trans (eq_sym Hr') Hr) as [= ->]. }
  assert (Hgaiku : forall prefCode kanaItems romeItems coords line r,
     gaikuRecordOf prefCode kanaItems romeItems coords line = Some r ->
     exists k,
       getPostalKanaOrRomeItems kana (gaiku_pref line) (gaikuCity line)
         (gaikuTown line) kanaItems = Some k
       /\ r !! COL_cityCode = Some (JStr (kana_lgCode k))).
  { intros prefCode kanaItems romeItems coords line r. unfold gaikuRecordOf.
    destruct (getCenter distance ltb (gaikuKey line) coords) as [center|];
      [| discriminate].
    cbn [mbind option_bind].
    destruct (getPostalKanaOrRomeItems kana _ _ _ kanaItems) as [k|];
      [| by rewrite gaikuRecord_None].
    set (ro := getPostalKanaOrRomeItems rome _ _ _ romeItems).
    destruct (gaikuRecord_Some prefCode line (gaikuCity line) (gaikuTown line)
                (koazaName line) k ro center)
      as (r' & Hr' & _ & _ & _ & Hcode & _).
    intros Hr. pose proof (eq_trans (eq_sym Hr') Hr) as [= ->]. eauto. }
  split; [exact Hoaza |]. split; [exact Hgaiku |]. split; [| split].
  - intros prefCode kanaItems romeItems coords line Hk. unfold gaikuRecordOf.
    rewrite Hk. destruct (getCenter _ _ _ _); reflexivity.
  - intros prefCode kanaItems romeItems line k Hk.
    destruct (oazaRecordOf_is_Some prefCode kanaItems romeItems line) as [r Hr];
      [by rewrite Hk |].
    exists r. split; [exact Hr | by eapply Hoaza].
  - intros prefCode kanaItems romeItems data coords0 line k _ Hin Hk.
    destruct (gaikuSamples_covers data (coords0, []) line Hin)
      as (arr & Harr & Hs).
    destruct (gaikuRecordOf_is_Some prefCode kanaItems romeItems
                (fst (gaikuSamples data coords0)) line arr Harr) as [r Hr];
      [by intros -> | by rewrite Hk |].
    exists r. split; [exact Hr |].
    destruct (Hgaiku _ _ _ _ _ _ Hr) as (k' & Hk' & Hcode).
    rewrite Hk in Hk'. by injection Hk' as ->.
Qed.

(** ** The aggregators: first seen wins *)

(** C1: the code at the inputs where the claim fails.  A row of a fresh key
    whose kana lookup finds nothing makes either aggregator throw: no record
    is stored for it and none for any later row.  A missing romaji item alone
    is tolerated, with empty strings in the romaji fields. *)
Theorem missing_kana_item_throws :
  (forall prefCode kanaItems romeItems patchData pre line rest,
     getPostalKanaOrRomeItems kana (oaza_pref line) (oazaCity line)
       (oazaTown line) kanaItems = None ->
     default ∅ (patchData !! prefCode) !! oazaKey line = None ->
     (forall l, In l pre -> oazaKey l <> oazaKey line) ->
     getOazaAddressItems prefCode kanaItems romeItems patchData
       (pre ++ line :: rest) = None)
  /\ (forall prefCode kanaItems romeItems records coords0 pre line rest,
     getPostalKanaOrRomeItems kana (gaiku_pref line) (gaikuCity line)
       (gaikuTown line) kanaItems = None ->
     records !! gaikuKey line = None ->
     (forall l, In l pre -> gaikuKey l <> gaikuKey line) ->
     getGaikuAddressItems prefCode kanaItems romeItems records
       (pre ++ line :: rest) coords0 = None)
  /\ (forall prefCode kanaItems romeItems line k,
     getPostalKanaOrRomeItems kana (oaza_pref line) (oazaCity line)
       (oazaTown line) kanaItems = Some k ->
     getPostalKanaOrRomeItems rome (oaza_pref line) (oazaCity line)
       (oazaTown line) romeItems = None ->
     exists r, oazaRecordOf prefCode kanaItems romeItems line = Some r
       /\ field COL_prefRome r = [] /\ field COL_cityRome r = []
       /\ field COL_townRome r = []).
Proof.
  split; [| split].
  - intros prefCode kanaItems romeItems patchData pre line rest Hk Hfresh Hpre.
    unfold getOazaAddressItems. rewrite oazaLoop_dedup.
    apply dedupLoop_abort; [| exact Hfresh | exact Hpre].
    unfold oazaRecordOf. rewrite Hk. apply oazaRecord_None.
  - intros prefCode kanaItems romeItems records coords0 pre line rest Hk Hfresh Hpre.
    unfold getGaikuAddressItems. rewrite gaikuLoop_dedup.
    rewrite dedupLoop_abort; [reflexivity | | exact Hfresh | exact Hpre].
    unfold gaikuRecordOf. rewrite Hk. by destruct (getCenter _ _ _ _).
  - intros prefCode kanaItems romeItems line k Hk Hr.
    unfold oazaRecordOf. rewrite Hk, Hr.
    destruct (oazaRecord_Some prefCode line (oazaCity line) (oazaTown line) k None)
      as (r & Hr' & _ & _ & _ & _ & _ & _ & H1 & H2 & H3).
    exists r. split; [exact Hr' |]. by rewrite !(field_lookup _ _ []).
Qed.

(** C3.  For one prefecture: both aggregators come to their end when the kana
    lookup of every row finds an item; and whenever they do, a record of the
    patch data is the record of its key in both results, a record of the
    Oaza result is the record of its key in the final result, a key that was
    free takes the record of the first row that has it, every row has a
    record under its key, and the final output lists one record per key. *)
Theorem first_seen_record_wins (prefCode : jsstring)
    (kanaItems : list KanaItem) (romeItems : list RomeItem)
    (patchData : gmap jsstring (gmap jsstring record))
    (oazaData : list OazaLine) (gaikuData : list GaikuLine)
    (coords0 : gmap jsstring (list point)) :
  let patch := default ∅ (patchData !! prefCode) in
  ((forall l, In l oazaData ->
      is_Some (getPostalKanaOrRomeItems kana (oaza_pref l) (oazaCity l)
                 (oazaTown l) kanaItems)) ->
   (forall l, In l gaikuData ->
      is_Some (getPostalKanaOrRomeItems kana (gaiku_pref l) (gaikuCity l)
                 (gaikuTown l) kanaItems)) ->
   exists oaza res,
     getOazaAddressItems prefCode kanaItems romeItems patchData oazaData
     = Some oaza
     /\ getGaikuAddressItems prefCode kanaItems romeItems oaza gaikuData coords0
        = Some res)
  /\ forall oaza res,
     getOazaAddressItems prefCode kanaItems romeItems patchData oazaData
     = Some oaza ->
     getGaikuAddressItems prefCode kanaItems romeItems oaza gaikuData coords0
     = Some res ->
     (forall k r, patch !! k = Some r ->
        oaza !! k = Some r /\ towns res !! k = Some r)
     /\ (forall k r, oaza !! k = Some r -> towns res !! k = Some r)
     /\ (forall k, patch !! k = None ->
           oaza !! k
           = firstWithKey oazaKey k oazaData
               ≫= oazaRecordOf prefCode kanaItems romeItems)
     /\ (forall k, oaza !! k = None ->
           towns res !! k
           = firstWithKey gaikuKey k gaikuData
               ≫= gaikuRecordOf prefCode kanaItems romeItems (coords_after res))
     /\ (forall l, In l oazaData -> is_Some (towns res !! oazaKey l))
     /\ (forall l, In l gaikuData -> is_Some (towns res !! gaikuKey l))
     /\ NoDup (map_to_list (towns res)).*1
     /\ (forall k r, (k, r) ∈ map_to_list (towns res) <-> towns res !! k = Some r).
Proof.
  cbv zeta. split.
  - intros Hoaza Hgaiku.
    destruct (dedupLoop_total oazaKey (oazaRecordOf prefCode kanaItems romeItems)
                oazaData (default ∅ (patchData !! prefCode))) as [oaza Ho].
    { intros l Hl. by apply oazaRecordOf_is_Some, Hoaza. }
    set (st := gaikuSamples gaikuData coords0).
    destruct (dedupLoop_total gaikuKey
                (gaikuRecordOf prefCode kanaItems romeItems (fst st))
                gaikuData oaza) as [t Ht].
    { intros l Hl.
      destruct (gaikuSamples_covers gaikuData (coords0, []) l Hl) as (arr & Harr & Hin).
      eapply gaikuRecordOf_is_Some; [exact Harr | | by apply Hgaiku].
      by destruct arr. }
    exists oaza, {| towns := t; gaikuItems := snd st; coords_after := fst st |}.
    split.
    + unfold getOazaAddressItems. by rewrite oazaLoop_dedup.
    + unfold getGaikuAddressItems. fold st. by rewrite gaikuLoop_dedup, Ht.
  - intros oaza res Ho Hg.
    unfold getOazaAddressItems in Ho. rewrite oazaLoop_dedup in Ho.
    apply getGaikuAddressItems_Some in Hg as (_ & _ & Hg).
    split; [| split; [| split; [| split; [| split; [| split; [| split]]]]]].
    + intros k r Hk.
      pose proof (dedupLoop_keeps _ _ _ _ _ k r Ho Hk) as Hk'.
      split; [exact Hk' | by apply (dedupLoop_keeps _ _ _ _ _ k r Hg)].
    + intros k r. by apply (dedupLoop_keeps _ _ _ _ _ k r Hg).
    + intros k Hk. by rewrite (dedupLoop_lookup _ _ _ _ _ Ho k), Hk.
    + intros k Hk. by rewrite (dedupLoop_lookup _ _ _ _ _ Hg k), Hk.
    + intros l Hl.
      destruct (dedupLoop_covers _ _ _ _ _ Ho l Hl) as [r Hr].
      rewrite (dedupLoop_keeps _ _ _ _ _ _ r Hg Hr). eauto.
    + intros l Hl. by apply (dedupLoop_covers _ _ _ _ _ Hg).
    + apply NoDup_fst_map_to_list.
    + intros k r. apply elem_of_map_to_list.
Qed.

(** ** Postal backfill *)

Lemma replaceAll_space (s : jsstring) :
  replaceAll (u " ") [] s = List.filter (fun c => negb (c =? 0x20)) s.
Proof.
  change (u " ") with [0x20]. unfold replaceAll.
  induction s as [|c s IH]; [reflexivity |].
  cbn [replaceAll_from starts_with length pred List.filter].
  rewrite (N.eqb_sym 0x20 c), andb_true_r.
  destruct (c =? 0x20); cbn [negb app]; by rewrite IH.
Qed.

(** The chain of [replace] calls is the ordered list of corrections. *)
Lemma districtNameRome_spec (s : jsstring) :
  districtNameRome s = comparisonString_spec s.
Proof.
  unfold districtNameRome, comparisonString_spec, ROME_CORRECTIONS.
  rewrite replaceAll_space. cbn [fold_left fst snd]. reflexivity.
Qed.

Lemma eqb_sym (a b : jsstring) : eqb a b = eqb b a.
Proof.
  destruct (eqb b a) eqn:H.
  - apply eqb_eq in H. subst. apply eqb_refl.
  - apply eqb_neq. apply eqb_neq in H. congruence.
Qed.

Lemma splice_1_0_lookup (x a0 : jsval) (rest : list jsval) :
  splice_1_0 x (a0 :: rest) = a0 :: x :: rest.
Proof. reflexivity. Qed.

Lemma district_name_rome_Some (array : record) (name : jsstring) :
  district_name_rome array = Some name ->
  exists a0 rest s, array = a0 :: rest /\ array !! 10%nat = Some (JStr s)
    /\ name = districtNameRome s.
Proof.
  unfold district_name_rome.
  destruct (array !! 10%nat) as [[s|q]|] eqn:H10; try discriminate.
  intros [= <-]. destruct array as [|a0 rest]; [discriminate |].
  exists a0, rest, s. split; [reflexivity |]. split; reflexivity.
Qed.

(** C2.  The worker leaves a record alone exactly when its postal-code
    element is purely numeric.  Otherwise the record goes to the database
    with, for its postal code, the code of the only candidate, or of the
    second of two candidates, or the empty string when there is no candidate
    or more than two, in which case the record is printed as unexpected. *)
Theorem backfill_selection (romeItems : list RomeItem) (array : record) :
  (test_digits (array !! COL_zip) = true ->
     sqliteWriter romeItems array = Some (array, []))
  /\ (test_digits (array !! COL_zip) = false ->
      forall name, district_name_rome array = Some name ->
      let found := romeItemFindInclude romeItems array name in
      exists out diags,
        sqliteWriter romeItems array = Some (out, diags)
        /\ out <> array
        /\ (forall it, found = [it] ->
              out !! COL_zip = Some (JStr (rome_zip it)))
        /\ (forall it1 it2, found = [it1; it2] ->
              out !! COL_zip = Some (JStr (rome_zip it2)))
        /\ (found = [] \/ (2 < length found)%nat ->
              out !! COL_zip = Some (JStr []) /\ diags = [Log array])).
Proof.
  unfold sqliteWriter, COL_zip. split; [by intros -> |].
  intros -> name Hname. cbv zeta. rewrite Hname. cbn [mbind option_bind].
  apply district_name_rome_Some in Hname as (a0 & rest & s & -> & _ & _).
  set (found := romeItemFindInclude romeItems (a0 :: rest) name).
  destruct (chooseAddition (a0 :: rest) found) as [additions diags] eqn:Hch.
  eexists _, diags. split; [reflexivity |]. rewrite splice_1_0_lookup.
  split; [| split; [| split]].
  - intros [= Heq]. apply (f_equal length) in Heq. simpl in Heq. lia.
  - intros it Hf. rewrite Hf in Hch. injection Hch as <- _. reflexivity.
  - intros it1 it2 Hf. rewrite Hf in Hch. injection Hch as <- _. reflexivity.
  - intros Hf. destruct found as [|i1 [|i2 [|i3 more]]];
      try (destruct Hf as [Hf | Hf]; [discriminate Hf | simpl in Hf; lia]);
      injection Hch as <- <-; auto.
Qed.

(** The records that match the table schema, and that the aggregators build
    such records. *)
Lemma matches_schema_inv (r : record) :
  matches_schema r = true ->
  exists s0 s1 s2 s3 s4 s5 s6 s7 s8 s9 s10 s11 s12 q13 q14,
    r = [JStr s0; JStr s1; JStr s2; JStr s3; JStr s4; JStr s5; JStr s6;
         JStr s7; JStr s8; JStr s9; JStr s10; JStr s11; JStr s12;
         JNum q13; JNum q14].
Proof.
  unfold matches_schema. intros H.
  repeat (destruct r as [|[?|?] r]; try discriminate H).
  by repeat eexists.
Qed.

Lemma oazaRecordOf_schema (prefCode : jsstring) (kanaItems : list KanaItem)
    (romeItems : list RomeItem) (line : OazaLine) (r : record) :
  oazaRecordOf prefCode kanaItems romeItems line = Some r ->
  matches_schema r = true.
Proof.
  unfold oazaRecordOf, oazaRecord.
  destruct (getPostalKanaOrRomeItems kana _ _ _ kanaItems) as [k|];
    [| discriminate].
  cbn [fmap option_fmap option_map mbind option_bind]. by intros [= <-].
Qed.

Lemma gaikuRecordOf_schema (prefCode : jsstring) (kanaItems : list KanaItem)
    (romeItems : list RomeItem) (coords : gmap jsstring (list point))
    (line : GaikuLine) (r : record) :
  gaikuRecordOf prefCode kanaItems romeItems coords line = Some r ->
  matches_schema r = true.
Proof.
  unfold gaikuRecordOf, gaikuRecord.
  destruct (getCenter _ _ _ _) as [c|]; [| discriminate].
  cbn [mbind option_bind].
  destruct (getPostalKanaOrRomeItems kana _ _ _ kanaItems) as [k|];
    [| discriminate].
  cbn [fmap option_fmap option_map mbind option_bind]. by intros [= <-].
Qed.

Lemma matches_schema_fields (r : record) :
  matches_schema r = true ->
  r !! 1%nat = Some (JStr (field COL_zip r))
  /\ r !! 7%nat = Some (JStr (field COL_cityKana r))
  /\ r !! 10%nat = Some (JStr (field COL_townKana r))
  /\ length r = 15%nat.
Proof.
  intros (s0 & s1 & s2 & s3 & s4 & s5 & s6 & s7 & s8 & s9 & s10 & s11 & s12
          & q13 & q14 & ->)%matches_schema_inv.
  repeat split.
Qed.

(** The worker reads the record by index: the comparison string is built from
    element 10, and the candidates are selected by elements 1 and 7. *)
Lemma backfill_candidates_by_index (romeItems : list RomeItem)
    (array : record) (pref cityRome townRome : jsstring) :
  array !! 1%nat = Some (JStr pref) ->
  array !! 7%nat = Some (JStr cityRome) ->
  array !! 10%nat = Some (JStr townRome) ->
  district_name_rome array = Some (comparisonString_spec townRome)
  /\ romeItemFindInclude romeItems array (comparisonString_spec townRome)
     = candidates_spec romeItems pref cityRome townRome.
Proof.
  intros H1 H7 H10. split.
  - unfold district_name_rome. by rewrite H10, districtNameRome_spec.
  - unfold romeItemFindInclude, candidates_spec. apply List.filter_ext.
    intros it. unfold romeItemMatches, strict_eq. rewrite H1, H7.
    by rewrite replaceAll_space, (eqb_sym (comparisonString_spec townRome)).
Qed.

(** C5: the code where the claim holds and where it fails.  On a record laid
    out without a postal-code element (fourteen elements) the comparison
    string is built from the town romaji, and the candidates are selected by
    the prefecture name and the city romaji, as section 4.7 has it.  A record
    as the aggregators build it has fifteen elements, the postal code second;
    the worker reads it by the same indices 1, 7 and 10, so the comparison
    string is built from the kana town reading, and the candidates are the
    rows whose prefecture name is the postal code of the record and whose city
    romaji is its kana city reading. *)
Theorem backfill_candidates (romeItems : list RomeItem) :
  (forall prefCode pref prefKana prefRome cityCode city cityKana cityRome
        town townKana townRome koaza lat lng,
     let array := recordWithoutZip prefCode pref prefKana prefRome cityCode
                    city cityKana cityRome town townKana townRome koaza lat lng in
     district_name_rome array = Some (comparisonString_spec townRome)
     /\ romeItemFindInclude romeItems array (comparisonString_spec townRome)
        = candidates_spec romeItems pref cityRome townRome)
  /\ (forall r : record,
     matches_schema r = true ->
     district_name_rome r
     = Some (comparisonString_spec (field COL_townKana r))
     /\ romeItemFindInclude romeItems r
          (comparisonString_spec (field COL_townKana r))
        = candidates_spec romeItems (field COL_zip r) (field COL_cityKana r)
            (field COL_townKana r))
  /\ (forall prefCode kanaItems romeItems' line,
     is_Some (getPostalKanaOrRomeItems kana (oaza_pref line) (oazaCity line)
                (oazaTown line) kanaItems) ->
     exists r, oazaRecordOf prefCode kanaItems romeItems' line = Some r
       /\ matches_schema r = true)
  /\ (forall prefCode kanaItems romeItems' data coords0 line,
     (forall l, In l data ->
        coordinateLiteral (gaiku_lng l) = true
        /\ coordinateLiteral (gaiku_lat l) = true) ->
     In line data ->
     is_Some (getPostalKanaOrRomeItems kana (gaiku_pref line) (gaikuCity line)
                (gaikuTown line) kanaItems) ->
     exists r,
       gaikuRecordOf prefCode kanaItems romeItems'
         (fst (gaikuSamples data coords0)) line = Some r
       /\ matches_schema r = true).
Proof.
  split; [| split; [| split]].
  - intros. by apply backfill_candidates_by_index.
  - intros r (H1 & H7 & H10 & _)%matches_schema_fields.
    by apply backfill_candidates_by_index.
  - intros prefCode kanaItems romeItems' line Hk.
    destruct (oazaRecordOf_is_Some prefCode kanaItems romeItems' line Hk)
      as [r Hr].
    exists r. split; [exact Hr | by eapply oazaRecordOf_schema].
  - intros prefCode kanaItems romeItems' data coords0 line _ Hin Hk.
    destruct (gaikuSamples_covers data (coords0, []) line Hin)
      as (arr & Harr & Hs).
    destruct (gaikuRecordOf_is_Some prefCode kanaItems romeItems'
                (fst (gaikuSamples data coords0)) line arr Harr) as [r Hr];
      [by intros -> | exact Hk |].
    exists r. split; [exact Hr | by eapply gaikuRecordOf_schema].
Qed.

(** C6: the code where the claim holds and where it fails.  On a record laid
    out without a postal-code element the worker hands on the fifteen columns
    of the insert statement, every field as it was and the postal code it
    found, or the empty string, as the second.  On a record as the aggregators
    build it, whose postal code is not a run of digits, the worker does not
    fill the postal-code element: it puts a new element in front of it, so
    the array it hands on has sixteen elements and every field from the old
    postal code on sits one column further.  No aggregator changes a record
    once it is stored: the Gaiku pass returns every record it was given under
    its key. *)
Theorem backfill_inserts_one_element :
  (forall romeItems prefCode pref prefKana prefRome cityCode city cityKana
        cityRome town townKana townRome koaza lat lng,
     all_digits pref = false ->
     exists zip diags,
       sqliteWriter romeItems
         (recordWithoutZip prefCode pref prefKana prefRome cityCode city
            cityKana cityRome town townKana townRome koaza lat lng)
       = Some ([ JStr prefCode; JStr zip; JStr pref; JStr prefKana;
                 JStr prefRome; JStr cityCode; JStr city; JStr cityKana;
                 JStr cityRome; JStr town; JStr townKana; JStr townRome;
                 JStr koaza; JNum lat; JNum lng ], diags))
  /\ (forall romeItems (r : record),
     matches_schema r = true ->
     all_digits (field COL_zip r) = false ->
     exists out zip diags,
       sqliteWriter romeItems r = Some (out, diags)
       /\ length r = 15%nat /\ length out = 16%nat
       /\ out !! COL_prefCode = r !! COL_prefCode
       /\ out !! COL_zip = Some (JStr zip)
       /\ (forall i, (1 <= i)%nat -> out !! S i = r !! i))
  /\ (forall romeItems (r : record),
     matches_schema r = true ->
     all_digits (field COL_zip r) = true ->
     sqliteWriter romeItems r = Some (r, []))
  /\ (forall prefCode kanaItems romeItems line,
     is_Some (getPostalKanaOrRomeItems kana (oaza_pref line) (oazaCity line)
                (oazaTown line) kanaItems) ->
     exists r, oazaRecordOf prefCode kanaItems romeItems line = Some r
       /\ matches_schema r = true)
  /\ (forall prefCode kanaItems romeItems data coords0 line,
     (forall l, In l data ->
        coordinateLiteral (gaiku_lng l) = true
        /\ coordinateLiteral (gaiku_lat l) = true) ->
     In line data ->
     is_Some (getPostalKanaOrRomeItems kana (gaiku_pref line) (gaikuCity line)
                (gaikuTown line) kanaItems) ->
     exists r,
       gaikuRecordOf prefCode kanaItems romeItems
         (fst (gaikuSamples data coords0)) line = Some r
       /\ matches_schema r = true)
  /\ (forall prefCode kanaItems romeItems records data coords0 res k r,
     getGaikuAddressItems prefCode kanaItems romeItems records data coords0
     = Some res ->
     records !! k = Some r -> towns res !! k = Some r).
Proof.
  split; [| split; [| split; [| split; [| split]]]].
  - intros romeItems prefCode pref prefKana prefRome cityCode city cityKana
      cityRome town townKana townRome koaza lat lng Hpref.
    unfold sqliteWriter.
    change (recordWithoutZip _ _ _ _ _ _ _ _ _ _ _ _ _ _ !! 1%nat)
      with (Some (JStr pref)).
    cbn [test_digits]. rewrite Hpref.
    change (district_name_rome (recordWithoutZip _ _ _ _ _ _ _ _ _ _ _ _ _ _))
      with (Some (districtNameRome townRome)).
    cbn [mbind option_bind].
    destruct (chooseAddition _ _) as [additions d].
    eexists _, _. reflexivity.
  - intros romeItems r
      (s0 & s1 & s2 & s3 & s4 & s5 & s6 & s7 & s8 & s9 & s10 & s11 & s12
       & q13 & q14 & ->)%matches_schema_inv.
    unfold sqliteWriter, district_name_rome, field, COL_zip.
    cbn [lookup list_lookup test_digits mbind option_bind]. intros ->.
    destruct (chooseAddition _ _) as [additions d].
    eexists _, _, _. split; [reflexivity |]. rewrite splice_1_0_lookup.
    repeat split. intros [|i] Hi; [lia | reflexivity].
  - intros romeItems r
      (s0 & s1 & s2 & s3 & s4 & s5 & s6 & s7 & s8 & s9 & s10 & s11 & s12
       & q13 & q14 & ->)%matches_schema_inv.
    unfold sqliteWriter, field, COL_zip.
    cbn [lookup list_lookup test_digits]. by intros ->.
  - intros prefCode kanaItems romeItems line Hk.
    destruct (oazaRecordOf_is_Some prefCode kanaItems romeItems line Hk)
      as [r Hr].
    exists r. split; [exact Hr | by eapply oazaRecordOf_schema].
  - intros prefCode kanaItems romeItems data coords0 line _ Hin Hk.
    destruct (gaikuSamples_covers data (coords0, []) line Hin)
      as (arr & Harr & Hs).
    destruct (gaikuRecordOf_is_Some prefCode kanaItems romeItems
                (fst (gaikuSamples data coords0)) line arr Harr) as [r Hr];
      [by intros -> | exact Hk |].
    exists r. split; [exact Hr | by eapply gaikuRecordOf_schema].
  - intros prefCode kanaItems romeItems records data coords0 res k r Hg Hk.
    apply getGaikuAddressItems_Some in Hg as (_ & _ & Hg).
    by apply (dedupLoop_keeps _ _ _ _ _ k r Hg).
Qed.

(** ** The prefecture loop of [main] *)

Lemma prefRound_Some (files : Files) (kanaItems : list KanaItem)
    (romeItems : list RomeItem) (st st' : State) (prefNumber : N) :
  prefRound files kanaItems romeItems st prefNumber = Some st' ->
  coords st'
  = fst (gaikuSamples (nlftp_mlit_180a files (toPrefCode prefNumber)) (coords st))
  /\ (forall c, toPrefCode prefNumber <> c ->
        patchData st' !! c = patchData st !! c).
Proof.
  unfold prefRound.
  destruct (getAddressItems files prefNumber kanaItems romeItems
              (patchData st) (coords st)) as [res|] eqn:Hres; [| discriminate].
  intros [= <-]. cbn [coords patchData]. split.
  - unfold getAddressItems in Hres.
    destruct (getOazaAddressItems _ _ _ _ _) as [oaza|]; [| discriminate].
    cbn [mbind option_bind] in Hres.
    by apply getGaikuAddressItems_Some in Hres as (-> & _).
  - intros c Hc. destruct (patchData st !! toPrefCode prefNumber); [| reflexivity].
    by rewrite lookup_insert_ne.
Qed.

(** C8, as amended.  Across the prefecture loop the sample store only grows:
    every array of samples it held at the start is a prefix of the array
    under the same key at the end, and at the end it holds the sample of
    every block-level row of every prefecture that was processed.  The
    record maps are per prefecture: the loop leaves the patch object of a
    prefecture code it did not process as it was.  So are the dictionaries:
    a round reads of them only the rows of its own prefecture. *)
Theorem coords_outlive_prefecture (files : Files) (kanaItems : list KanaItem)
    (romeItems : list RomeItem) (prefCodeArray : list N) (st st' : State) :
  prefLoop files kanaItems romeItems prefCodeArray st = Some st' ->
  (forall k arr, coords st !! k = Some arr ->
     exists more, coords st' !! k = Some (arr ++ more))
  /\ (forall n line,
        In n prefCodeArray ->
        In line (nlftp_mlit_180a files (toPrefCode n)) ->
        exists arr, coords st' !! gaikuKey line = Some arr
          /\ In (Number (gaiku_lng line), Number (gaiku_lat line)) arr)
  /\ (forall c, (forall n, In n prefCodeArray -> toPrefCode n <> c) ->
        patchData st' !! c = patchData st !! c)
  /\ (forall n kanaItems' romeItems' patch cs,
        List.filter (inPref (k := kana) (prefNameOf n)) kanaItems'
        = List.filter (inPref (k := kana) (prefNameOf n)) kanaItems ->
        List.filter (inPref (k := rome) (prefNameOf n)) romeItems'
        = List.filter (inPref (k := rome) (prefNameOf n)) romeItems ->
        getAddressItems files n kanaItems' romeItems' patch cs
        = getAddressItems files n kanaItems romeItems patch cs).
Proof.
  intros Hloop.
  assert (Hdict : forall n kanaItems' romeItems' patch cs,
        List.filter (inPref (k := kana) (prefNameOf n)) kanaItems'
        = List.filter (inPref (k := kana) (prefNameOf n)) kanaItems ->
        List.filter (inPref (k := rome) (prefNameOf n)) romeItems'
        = List.filter (inPref (k := rome) (prefNameOf n)) romeItems ->
        getAddressItems files n kanaItems' romeItems' patch cs
        = getAddressItems files n kanaItems romeItems patch cs).
  { intros n kanaItems' romeItems' patch cs Hk Hr.
    unfold getAddressItems. cbv zeta. by rewrite Hk, Hr. }
  cut ((forall k arr, coords st !! k = Some arr ->
          exists more, coords st' !! k = Some (arr ++ more))
       /\ (forall n line,
             In n prefCodeArray ->
             In line (nlftp_mlit_180a files (toPrefCode n)) ->
             exists arr, coords st' !! gaikuKey line = Some arr
               /\ In (Number (gaiku_lng line), Number (gaiku_lat line)) arr)
       /\ (forall c, (forall n, In n prefCodeArray -> toPrefCode n <> c) ->
             patchData st' !! c = patchData st !! c)).
  { intros (H1 & H2 & H3). auto. }
  clear Hdict. revert st Hloop.
  induction prefCodeArray as [|n rest IH]; intros st; cbn [prefLoop].
  - intros [= <-]. split; [| split].
    + intros k arr Hk. exists []. by rewrite app_nil_r.
    + intros n line [].
    + reflexivity.
  - destruct (prefRound files kanaItems romeItems st n) as [st1|] eqn:Hround;
      [| discriminate].
    cbn [mbind option_bind]. intros Hloop.
    destruct (IH st1 Hloop) as (Hgrow & Hall & Hpatch).
    apply prefRound_Some in Hround as (Hc1 & Hp1).
    split; [| split].
    + intros k arr Hk.
      destruct (gaikuSamples_grows (nlftp_mlit_180a files (toPrefCode n))
                  (coords st, []) k arr Hk) as [m1 H1].
      fold (gaikuSamples (nlftp_mlit_180a files (toPrefCode n)) (coords st)) in H1.
      rewrite <- Hc1 in H1. destruct (Hgrow k _ H1) as [m2 H2].
      exists (m1 ++ m2). by rewrite app_assoc.
    + intros m line [<- | Hm] Hline; [| by eapply Hall].
      destruct (gaikuSamples_covers (nlftp_mlit_180a files (toPrefCode n))
                  (coords st, []) line Hline) as (arr & Harr & Hin).
      fold (gaikuSamples (nlftp_mlit_180a files (toPrefCode n)) (coords st)) in Harr.
      rewrite <- Hc1 in Harr. destruct (Hgrow _ _ Harr) as [more Hmore].
      exists (arr ++ more). split; [exact Hmore |]. apply in_or_app. by left.
    + intros c Hc. rewrite Hpatch, Hp1; [reflexivity | |].
      * apply Hc. by left.
      * intros m Hm. apply Hc. by right.
Qed.


(** * Further properties of the code *)

(** ** [han2zen] *)

Lemma han2zenMap_keys :
  forallb (fun kv => match fst kv with
                     | [] => false
                     | h :: _ => existsb (fun kv' => eqb (fst kv') [h]) han2zenMap
                     end) han2zenMap = true.
Proof. vm_compute. reflexivity. Qed.

Lemma han2zenMap_values :
  forallb (fun kv => (length (snd kv) =? 1)%nat
                     && forallb (fun c => negb (han2zen_head c)) (snd kv))
    han2zenMap = true.
Proof. vm_compute. reflexivity. Qed.

Lemma starts_with_head (h : N) (p s : jsstring) (c : N) :
  starts_with (h :: p) (c :: s) = true -> c = h.
Proof. cbn [starts_with]. by intros [->%N.eqb_eq _]%andb_prop. Qed.

Lemma han2zen_at_Some (c : N) (s : jsstring) (kv : jsstring * jsstring) :
  han2zen_at (c :: s) = Some kv ->
  In kv han2zenMap /\ han2zen_head c = true.
Proof.
  unfold han2zen_at. intros [Hin Hst]%List.find_some. split; [exact Hin |].
  pose proof han2zenMap_keys as Hk. rewrite forallb_forall in Hk.
  specialize (Hk kv Hin). cbv beta in Hk. unfold han2zen_head. apply existsb_exists.
  exists kv. split; [exact Hin |].
  destruct kv as [[|h p] v]; cbn [fst] in *; [discriminate |].
  apply starts_with_head in Hst as ->. apply N.eqb_refl.
Qed.

Lemma han2zen_at_None (c : N) (s : jsstring) :
  han2zen_at (c :: s) = None <-> han2zen_head c = false.
Proof.
  split.
  - intros Hnone. destruct (han2zen_head c) eqn:Hh; [| reflexivity].
    unfold han2zen_head in Hh. apply existsb_exists in Hh as (kv & Hin & Hc).
    pose proof han2zenMap_keys as Hk. rewrite forallb_forall in Hk.
    specialize (Hk kv Hin). cbv beta in Hk.
    destruct kv as [[|h p] v]; cbn [fst] in *; [discriminate |].
    apply N.eqb_eq in Hc as ->.
    apply existsb_exists in Hk as (kv' & Hin' & Heq%eqb_eq).
    unfold han2zen_at in Hnone.
    pose proof (List.find_none _ _ Hnone kv' Hin') as Hf. cbv beta in Hf.
    rewrite Heq in Hf. cbn [starts_with] in Hf.
    by rewrite N.eqb_refl in Hf.
  - intros Hh. destruct (han2zen_at (c :: s)) as [kv|] eqn:Hat; [| reflexivity].
    apply han2zen_at_Some in Hat as [_ Hat]. congruence.
Qed.

Lemma han2zen_from_no_head (s : jsstring) (skip : nat) (c : N) :
  In c (han2zen_from skip s) -> han2zen_head c = false.
Proof.
  revert skip. induction s as [|x s IH]; intros skip; cbn [han2zen_from];
    [intros [] |].
  destruct skip as [|k]; [| apply IH].
  destruct (han2zen_at (x :: s)) as [kv|] eqn:Hat.
  - intros [Hv | Hrest]%in_app_or; [| by eapply IH].
    apply han2zen_at_Some in Hat as [Hin _].
    pose proof han2zenMap_values as Hval. rewrite forallb_forall in Hval.
    specialize (Hval kv Hin). cbv beta in Hval. apply andb_prop in Hval as [_ Hval].
    rewrite forallb_forall in Hval. specialize (Hval c Hv).
    by destruct (han2zen_head c).
  - intros [<- | Hrest]; [by apply han2zen_at_None in Hat | by eapply IH].
Qed.

Lemma han2zen_from_length (s : jsstring) (skip : nat) :
  (length (han2zen_from skip s) <= length s)%nat.
Proof.
  revert skip. induction s as [|x s IH]; intros skip; cbn [han2zen_from length];
    [lia |].
  destruct skip as [|k]; [| specialize (IH k); lia].
  destruct (han2zen_at (x :: s)) as [kv|] eqn:Hat.
  - apply han2zen_at_Some in Hat as [Hin _].
    pose proof han2zenMap_values as Hval. rewrite forallb_forall in Hval.
    specialize (Hval kv Hin). cbv beta in Hval. apply andb_prop in Hval as [Hlen%Nat.eqb_eq _].
    specialize (IH (pred (length (fst kv)))). unfold jsstring in *.
    rewrite length_app, Hlen. lia.
  - cbn [length]. specialize (IH O). lia.
Qed.

Lemma han2zen_cons (c : N) (s : jsstring) :
  han2zen_head c = false -> han2zen (c :: s) = c :: han2zen s.
Proof.
  intros Hc. unfold han2zen. cbn [han2zen_from].
  apply han2zen_at_None with (s := s) in Hc. by rewrite Hc.
Qed.

(** X1.  [han2zen] is idempotent: in its result no character starts a key of
    the table, so a second pass changes nothing. *)
Theorem han2zen_idempotent (str : jsstring) :
  han2zen (han2zen str) = han2zen str
  /\ (forall c, In c (han2zen str) -> han2zen_head c = false).
Proof.
  assert (Hno : forall c, In c (han2zen str) -> han2zen_head c = false)
    by (intros c; apply han2zen_from_no_head).
  split; [| exact Hno].
  induction (han2zen str) as [|c s IH]; [reflexivity |].
  rewrite han2zen_cons by (apply Hno; by left).
  f_equal. apply IH. intros x Hx. apply Hno. by right.
Qed.

Lemma han2zenMap_key_lengths :
  forallb (fun kv => (length (fst kv) <=? 2)%nat) han2zenMap = true.
Proof. vm_compute. reflexivity. Qed.

Lemma han2zen_from_length_lower (s : jsstring) (skip : nat) :
  (length s <= 2 * length (han2zen_from skip s) + skip)%nat.
Proof.
  revert skip. induction s as [|x s IH]; intros skip; cbn [han2zen_from length];
    [lia |].
  destruct skip as [|k]; [| specialize (IH k); lia].
  destruct (han2zen_at (x :: s)) as [kv|] eqn:Hat.
  - apply han2zen_at_Some in Hat as [Hin _].
    pose proof han2zenMap_values as Hval. rewrite forallb_forall in Hval.
    specialize (Hval kv Hin). cbv beta in Hval.
    apply andb_prop in Hval as [Hlen%Nat.eqb_eq _].
    pose proof han2zenMap_key_lengths as Hkl. rewrite forallb_forall in Hkl.
    specialize (Hkl kv Hin). cbv beta in Hkl. apply Nat.leb_le in Hkl.
    specialize (IH (pred (length (fst kv)))). unfold jsstring in *.
    rewrite length_app, Hlen. lia.
  - cbn [length]. specialize (IH O). lia.
Qed.

(** X2.  Characters that start no key of the table are copied as they are and
    do not disturb the conversion of what follows them. *)
Theorem han2zen_passes_through (a b : jsstring) :
  (forall c, In c a -> han2zen_head c = false) ->
  han2zen (a ++ b) = a ++ han2zen b.
Proof.
  intros Ha.
  induction a as [|c a IH]; [reflexivity |].
  rewrite <- app_comm_cons, han2zen_cons by (apply Ha; by left).
  cbn [app]. f_equal. apply IH. intros x Hx. apply Ha. by right.
Qed.

(** X3.  Every replacement of [han2zen] turns one or two code units into one:
    the result is never longer than the input and never shorter than half of
    it. *)
Theorem han2zen_length (str : jsstring) :
  (length (han2zen str) <= length str <= 2 * length (han2zen str))%nat.
Proof.
  unfold han2zen. pose proof (han2zen_from_length str O).
  pose proof (han2zen_from_length_lower str O). lia.
Qed.

(** ** [removeStringEnclosedInParentheses] *)

Lemma is_line_terminator_paren_open : is_line_terminator 0x28 = false.
Proof. reflexivity. Qed.

Lemma is_line_terminator_paren_close : is_line_terminator 0x29 = false.
Proof. reflexivity. Qed.

Lemma no_line_terminator_app (a b : jsstring) :
  no_line_terminator (a ++ b) = no_line_terminator a && no_line_terminator b.
Proof. apply forallb_app. Qed.

Lemma no_line_terminator_reverse (s : jsstring) :
  no_line_terminator (reverse s) = no_line_terminator s.
Proof.
  induction s as [|c s IH]; [reflexivity |].
  rewrite reverse_cons, no_line_terminator_app, IH. cbn.
  rewrite andb_true_r. apply andb_comm.
Qed.

Lemma parens_tail_spec (s : jsstring) :
  parens_tail s = true <->
  exists body, s = body ++ [0x29] /\ body <> [] /\ no_line_terminator body = true.
Proof.
  unfold parens_tail. split.
  - destruct (reverse s) as [|close [|b body]] eqn:Hrev; try discriminate.
    intros [->%N.eqb_eq Hnl]%andb_prop.
    apply (f_equal reverse) in Hrev. rewrite reverse_involutive in Hrev.
    rewrite reverse_cons in Hrev. exists (reverse (b :: body)).
    split; [exact Hrev |]. split.
    + rewrite reverse_cons. by destruct (reverse body).
    + by rewrite no_line_terminator_reverse.
  - intros (body & -> & Hne & Hnl). rewrite reverse_app. cbn [reverse app].
    change (reverse [41]) with [41]. cbn [app].
    destruct (reverse body) as [|b body'] eqn:Hrev.
    + apply (f_equal reverse) in Hrev. rewrite reverse_involutive in Hrev.
      by subst body.
    + rewrite N.eqb_refl. cbn [andb].
      change (no_line_terminator (b :: body') = true).
      by rewrite <- Hrev, no_line_terminator_reverse.
Qed.

Lemma removeStringEnclosedInParentheses_split (text : jsstring) :
  exists rest,
    text = removeStringEnclosedInParentheses text ++ rest
    /\ (rest = []
        \/ exists body, rest = 0x28 :: body ++ [0x29] /\ body <> []
                        /\ no_line_terminator body = true).
Proof.
  induction text as [|c s IH]; [exists []; by split; [| left] |].
  cbn [removeStringEnclosedInParentheses].
  destruct ((c =? 0x28) && parens_tail s) eqn:Hm.
  - apply andb_prop in Hm as [->%N.eqb_eq (body & -> & Hb)%parens_tail_spec].
    exists (0x28 :: body ++ [0x29]). split; [reflexivity |]. right. by exists body.
  - destruct IH as (rest & Heq & Hrest). exists rest. split; [| exact Hrest].
    cbn [app]. by rewrite <- Heq.
Qed.

Lemma parens_tail_removed (s : jsstring) :
  parens_tail (removeStringEnclosedInParentheses s) = true ->
  parens_tail s = true.
Proof.
  destruct (removeStringEnclosedInParentheses_split s)
    as (rest & Heq & [-> | (body & -> & Hne & Hnl)]).
  - rewrite app_nil_r in Heq. by rewrite <- Heq.
  - intros (b & Hr & Hbne & Hbnl)%parens_tail_spec.
    apply parens_tail_spec. exists (b ++ [0x29] ++ 0x28 :: body).
    split; [| split].
    + rewrite Heq at 1. rewrite Hr. by rewrite <- !app_assoc.
    + by destruct b.
    + rewrite !no_line_terminator_app, Hbnl. cbn [andb].
      change (no_line_terminator (0x28 :: body))
        with (negb (is_line_terminator 0x28) && no_line_terminator body).
      by rewrite Hnl.
Qed.

Lemma removeStringEnclosedInParentheses_no_close (text : jsstring) :
  last text <> Some 0x29 ->
  removeStringEnclosedInParentheses text = text.
Proof.
  intros Hlast.
  destruct (removeStringEnclosedInParentheses_split text)
    as (rest & Heq & [-> | (body & -> & _)]).
  - rewrite app_nil_r in Heq. by rewrite <- Heq.
  - exfalso. apply Hlast. rewrite Heq.
    change (0x28 :: body ++ [0x29]) with ((0x28 :: body) ++ [0x29]).
    rewrite app_assoc. apply last_snoc.
Qed.

(** X4.  [removeStringEnclosedInParentheses] only ever cuts off an end of the
    text: the result is a prefix of the text, and what is cut off is either
    nothing or a parenthesised, non-empty run without line terminator that
    ends the text.  A text that does not end in a closing parenthesis is
    returned as it is. *)
Theorem removeStringEnclosedInParentheses_prefix (text : jsstring) :
  (exists rest,
     text = removeStringEnclosedInParentheses text ++ rest
     /\ (rest = []
         \/ exists body, rest = 0x28 :: body ++ [0x29] /\ body <> []
                         /\ no_line_terminator body = true))
  /\ (last text <> Some 0x29 ->
      removeStringEnclosedInParentheses text = text).
Proof.
  split; [apply removeStringEnclosedInParentheses_split |].
  apply removeStringEnclosedInParentheses_no_close.
Qed.

(** X5.  [removeStringEnclosedInParentheses] is idempotent. *)
Theorem removeStringEnclosedInParentheses_idempotent (text : jsstring) :
  removeStringEnclosedInParentheses (removeStringEnclosedInParentheses text)
  = removeStringEnclosedInParentheses text.
Proof.
  induction text as [|c s IH]; [reflexivity |].
  cbn [removeStringEnclosedInParentheses].
  destruct ((c =? 0x28) && parens_tail s) eqn:Hm; [reflexivity |].
  cbn [removeStringEnclosedInParentheses].
  destruct ((c =? 0x28) && parens_tail (removeStringEnclosedInParentheses s))
    eqn:Hm'.
  - apply andb_prop in Hm' as [Hc Ht%parens_tail_removed].
    by rewrite Hc, Ht in Hm.
  - by rewrite IH.
Qed.

(** X6.  A reading that ends in a parenthesised remark loses exactly that
    remark, when nothing before it opens a parenthesis. *)
Theorem removeStringEnclosedInParentheses_strips (pre body : jsstring) :
  ~ In 0x28 pre -> body <> [] -> no_line_terminator body = true ->
  removeStringEnclosedInParentheses (pre ++ 0x28 :: body ++ [0x29]) = pre.
Proof.
  intros Hpre Hne Hnl. induction pre as [|c pre IH].
  - cbn [app removeStringEnclosedInParentheses]. rewrite N.eqb_refl.
    assert (parens_tail (body ++ [0x29]) = true) as ->; [| reflexivity].
    apply parens_tail_spec. by exists body.
  - cbn [app removeStringEnclosedInParentheses].
    destruct (c =? 0x28) eqn:Hc.
    + apply N.eqb_eq in Hc as ->. exfalso. apply Hpre. by left.
    + cbn [andb]. f_equal. apply IH. intros Hin. apply Hpre. by right.
Qed.

(** ** [removeUnnecessarySpace] *)

Lemma trim_start_id (ws : N -> bool) (s : jsstring) :
  (forall c, head s = Some c -> ws c = false) -> trim_start ws s = s.
Proof.
  destruct s as [|c s]; [reflexivity |]. intros H. cbn [trim_start].
  by rewrite (H c eq_refl).
Qed.

Lemma trim_with_id (ws : N -> bool) (s : jsstring) :
  (forall c, head s = Some c -> ws c = false) ->
  (forall c, last s = Some c -> ws c = false) ->
  trim_with ws s = s.
Proof.
  intros Hhd Hlast. unfold trim_with, trim_end.
  rewrite (trim_start_id ws s Hhd), trim_start_id.
  - apply reverse_involutive.
  - intros c Hc. apply Hlast. by rewrite <- head_reverse.
Qed.

(** X7.  The fixed points of [removeUnnecessarySpace] are exactly the strings
    that hold no full-width space and neither start nor end with a whitespace
    character. *)
Theorem removeUnnecessarySpace_fixed_point (text : jsstring) :
  removeUnnecessarySpace text = text
  <-> ~ In FULLWIDTH_SPACE text
      /\ (forall c, head text = Some c -> is_js_space c = false)
      /\ (forall c, last text = Some c -> is_js_space c = false).
Proof.
  unfold removeUnnecessarySpace, trim. split.
  - intros Hfix.
    destruct (trim_with_split is_js_space (replace [FULLWIDTH_SPACE] [] text))
      as (k1 & k2 & Ht & _ & _ & Hhd & Hlast).
    rewrite Hfix in Ht, Hhd, Hlast. split; [| by split].
    destruct (replace_char_split FULLWIDTH_SPACE text)
      as [[Hnot _] | (pre & post & Hs & _ & Heq)]; [exact Hnot |].
    exfalso. rewrite Heq in Ht. apply (f_equal length) in Ht.
    rewrite Hs in Ht. rewrite ?length_app in Ht. cbn [length] in Ht.
    rewrite ?length_app in Ht. lia.
  - intros (Hnot & Hhd & Hlast).
    destruct (replace_char_split FULLWIDTH_SPACE text)
      as [[_ Heq] | (pre & post & Hs & _ & _)].
    + rewrite Heq. by apply trim_with_id.
    + exfalso. apply Hnot. rewrite Hs. apply in_or_app. right. by left.
Qed.

(** ** The municipal renames *)

(** X8.  The rename step changes a city name only for the two listed
    municipalities, and a renamed city is not renamed again. *)
Theorem cityNameOf_renames (pref city : jsstring) :
  cityNameOf pref (cityNameOf pref city) = cityNameOf pref city
  /\ (cityNameOf pref city <> city ->
      (pref = u "兵庫県" /\ city = u "篠山市"
       /\ cityNameOf pref city = u "丹波篠山市")
      \/ (pref = u "福岡県" /\ city = u "筑紫郡那珂川町"
          /\ cityNameOf pref city = u "那珂川市")).
Proof.
  unfold cityNameOf at 2 3 4 5 6. unfold renameEntry, isjRenames.
  cbn [List.find ren_pref ren_orig ren_renamed].
  destruct (eqb (u "兵庫県") pref) eqn:Hp1.
  - apply eqb_eq in Hp1 as <-.
    destruct (eqb (u "篠山市") city) eqn:Hc1; cbn [andb].
    + apply eqb_eq in Hc1 as <-. split; [by vm_compute |].
      intros _. left. by repeat split.
    + assert (eqb (u "福岡県") (u "兵庫県") = false) as -> by (by vm_compute).
      cbn [andb]. split; [| done].
      unfold cityNameOf, renameEntry, isjRenames.
      cbn [List.find ren_pref ren_orig ren_renamed]. rewrite Hc1.
      assert (eqb (u "福岡県") (u "兵庫県") = false) as -> by (by vm_compute).
      reflexivity.
  - cbn [andb]. destruct (eqb (u "福岡県") pref) eqn:Hp2.
    + apply eqb_eq in Hp2 as <-.
      destruct (eqb (u "筑紫郡那珂川町") city) eqn:Hc2; cbn [andb].
      * apply eqb_eq in Hc2 as <-. split; [by vm_compute |].
        intros _. right. by repeat split.
      * split; [| done].
        unfold cityNameOf, renameEntry, isjRenames.
        cbn [List.find ren_pref ren_orig ren_renamed]. rewrite Hp1, Hc2.
        reflexivity.
    + cbn [andb]. split; [| done].
      unfold cityNameOf, renameEntry, isjRenames.
      cbn [List.find ren_pref ren_orig ren_renamed]. by rewrite Hp1, Hp2.
Qed.

(** ** Prefecture codes *)

Lemma digits_value_acc (d : Decimal.uint) (acc : positive) :
  digits_value (N.pos acc) (digits_of_uint d) = N.pos (Pos.of_uint_acc d acc).
Proof.
  revert acc. unfold digits_value.
  induction d; intros acc; cbn [digits_of_uint fold_left Pos.of_uint_acc];
    [reflexivity | ..];
    match goal with
    | |- fold_left _ _ ?a = N.pos (Pos.of_uint_acc _ ?p) =>
      replace a with (N.pos p) by lia; apply IHd
    end.
Qed.

Lemma digits_value_of_uint (d : Decimal.uint) :
  digits_value 0 (digits_of_uint d) = N.of_uint d.
Proof.
  unfold N.of_uint.
  induction d; cbn [digits_of_uint Pos.of_uint]; [reflexivity | exact IHd | ..];
    unfold digits_value; cbn [fold_left];
    match goal with
    | |- fold_left _ _ ?a = N.pos (Pos.of_uint_acc _ ?p) =>
      change a with (N.pos p); apply digits_value_acc
    end.
Qed.

Lemma digits_of_uint_digits (d : Decimal.uint) :
  forallb is_digit (digits_of_uint d) = true.
Proof. induction d; cbn [digits_of_uint forallb]; by rewrite ?IHd. Qed.

Lemma take_while_all (p : N -> bool) (s : jsstring) :
  forallb p s = true -> Sample.take_while p s = s.
Proof.
  induction s as [|c s IH]; [reflexivity |]. cbn [forallb Sample.take_while].
  intros [-> Hs]%andb_prop. by rewrite IH.
Qed.

Lemma string_of_N_digits (n : N) : forallb is_digit (string_of_N n) = true.
Proof. apply digits_of_uint_digits. Qed.

Lemma string_of_N_value (n : N) : digits_value 0 (string_of_N n) = n.
Proof.
  unfold string_of_N. rewrite digits_value_of_uint.
  destruct n as [|p]; [reflexivity | apply DecimalPos.Unsigned.of_to].
Qed.

Lemma toPrefCode_digits (n : N) :
  exists c s, toPrefCode n = c :: s /\ forallb is_digit (c :: s) = true
    /\ digits_value 0 (c :: s) = n.
Proof.
  unfold toPrefCode. destruct (n <? 10).
  - exists 0x30, (string_of_N n). split; [reflexivity |]. split.
    + cbn [forallb]. by rewrite string_of_N_digits.
    + change (digits_value 0 (string_of_N n) = n). apply string_of_N_value.
  - pose proof (string_of_N_nonempty n) as Hne.
    pose proof (string_of_N_digits n) as Hd.
    pose proof (string_of_N_value n) as Hv.
    destruct (string_of_N n) as [|c s]; [done |]. by exists c, s.
Qed.

Lemma is_digit_not_space (c : N) : is_digit c = true -> is_js_space c = false.
Proof.
  unfold is_digit, is_js_space. intros [H1%N.leb_le H2%N.leb_le]%andb_prop.
  repeat (apply orb_false_intro);
    try (apply N.eqb_neq; lia).
  apply andb_false_iff. left. apply N.leb_gt. lia.
Qed.

Lemma parseInt10_toPrefCode (n : N) :
  parseInt10 (toPrefCode n) = Some (Z.of_N n).
Proof.
  destruct (toPrefCode_digits n) as (c & s & -> & Hd & Hv).
  unfold parseInt10. pose proof Hd as Hd'. cbn [forallb] in Hd'.
  apply andb_prop in Hd' as [Hc _].
  cbn [trim_start]. rewrite (is_digit_not_space c Hc).
  assert ((c =? 0x2D) = false) as ->.
  { apply N.eqb_neq. unfold is_digit in Hc.
    apply andb_prop in Hc as [?%N.leb_le ?%N.leb_le]. lia. }
  assert ((c =? 0x2B) = false) as ->.
  { apply N.eqb_neq. unfold is_digit in Hc.
    apply andb_prop in Hc as [?%N.leb_le ?%N.leb_le]. lia. }
  rewrite (take_while_all _ _ Hd). by rewrite Hv.
Qed.

(** X9.  A prefecture code reads back as its number: [parseInt] of
    [toPrefCode n] is [n], so the name that [getAddressItems] takes from
    [prefNames] is the one at index [n - 1], and two numbers never share a
    code.  The numbers are those that a JavaScript number holds exactly. *)
Theorem toPrefCode_round_trip (n m : N) :
  n <= MAX_SAFE_INTEGER -> m <= MAX_SAFE_INTEGER ->
  parseInt10 (toPrefCode n) = Some (Z.of_N n)
  /\ prefNameAt (toPrefCode n) = prefNameOf n
  /\ (toPrefCode n = toPrefCode m <-> n = m).
Proof.
  intros _ _. split; [apply parseInt10_toPrefCode |]. split.
  - unfold prefNameAt, prefNameOf. rewrite parseInt10_toPrefCode.
    cbn [mbind option_bind]. destruct (N.eqb_spec n 0) as [-> | Hn].
    + reflexivity.
    + assert ((Z.of_N n - 1 <? 0)%Z = false) as -> by (apply Z.ltb_ge; lia).
      f_equal. lia.
  - split; [| by intros ->]. intros Heq.
    pose proof (parseInt10_toPrefCode n) as Hn.
    rewrite Heq, parseInt10_toPrefCode in Hn. injection Hn as Hn. lia.
Qed.

Lemma prefNames_codes :
  forallb (fun k => (length (toPrefCode (N.of_nat k)) =? 2)%nat
                    && bool_decide (is_Some (prefNameOf (N.of_nat k))))
    (seq 1 47) = true.
Proof. vm_compute. reflexivity. Qed.

Lemma prefNames_NoDup : NoDup prefNames.
Proof.
  apply (bool_decide_eq_true_1 (NoDup prefNames)). vm_compute. reflexivity.
Qed.

(** X10.  For each of the 47 prefecture numbers the code has two characters
    and the name exists; for zero and for a larger number there is no name,
    and no dictionary row then passes the prefecture filter. *)
Theorem prefNameOf_range (n : N) :
  (1 <= n <= 47 -> length (toPrefCode n) = 2%nat /\ is_Some (prefNameOf n))
  /\ (n = 0 \/ 47 < n <= MAX_SAFE_INTEGER ->
      prefNameOf n = None
      /\ forall (k : kind) (it : item k), inPref (prefNameOf n) it = false).
Proof.
  split.
  - intros Hn. pose proof prefNames_codes as H. rewrite forallb_forall in H.
    specialize (H (N.to_nat n)). cbv beta in H. rewrite N2Nat.id in H.
    assert (Hin : In (N.to_nat n) (seq 1 47)) by (apply in_seq; lia).
    apply H in Hin. apply andb_prop in Hin as [H1 H2].
    split; [by apply Nat.eqb_eq | by apply bool_decide_eq_true_1 in H2].
  - intros Hn. assert (Hnone : prefNameOf n = None).
    { unfold prefNameOf. destruct (N.eqb_spec n 0); [reflexivity |].
      apply lookup_ge_None_2. change (length prefNames) with 47%nat.
      destruct Hn as [? | [? _]]; [done | lia]. }
    split; [exact Hnone |]. intros k it. by rewrite Hnone.
Qed.

Lemma inPref_same_prefecture (k : kind) (it : item k) (n m : N) :
  inPref (prefNameOf n) it = true -> inPref (prefNameOf m) it = true -> n = m.
Proof.
  unfold inPref, prefNameOf.
  destruct (N.eqb_spec n 0); [discriminate |].
  destruct (N.eqb_spec m 0); [discriminate |].
  destruct (prefNames !! (N.to_nat n - 1)%nat) as [p|] eqn:Hp; [| discriminate].
  destruct (prefNames !! (N.to_nat m - 1)%nat) as [q|] eqn:Hq; [| discriminate].
  intros H1%eqb_eq H2%eqb_eq. subst p q.
  pose proof (NoDup_lookup _ _ _ _ prefNames_NoDup Hp Hq). lia.
Qed.

(** X11.  A dictionary row passes the prefecture filter of at most one
    prefecture number: the rounds of two different prefectures never work on
    the same row. *)
Theorem inPref_one_prefecture (k : kind) (it : item k) (n m : N) :
  n <= MAX_SAFE_INTEGER -> m <= MAX_SAFE_INTEGER -> n <> m ->
  inPref (prefNameOf n) it && inPref (prefNameOf m) it = false.
Proof.
  intros _ _ Hne. apply not_true_iff_false. intros [H1 H2]%andb_prop.
  by apply Hne, (inPref_same_prefecture k it).
Qed.

(** ** The chome number and the postal backfill *)

Lemma all_digits_forallb (s : jsstring) :
  all_digits s = true <-> s <> [] /\ forallb is_digit s = true.
Proof. destruct s as [|c s]; cbn [all_digits]; split; intros H; try done; tauto. Qed.

Lemma strip_trailing_digits_digits (ds : jsstring) :
  forallb is_digit ds = true -> strip_trailing_digits ds = [].
Proof.
  destruct ds as [|c ds]; [reflexivity |]. intros H.
  cbn [strip_trailing_digits all_digits]. by rewrite H.
Qed.

Lemma all_digits_app_false (a b : jsstring) (c : N) :
  is_digit c = false -> all_digits (a ++ c :: b) = false.
Proof.
  intros Hc. apply not_true_iff_false. intros [_ H]%all_digits_forallb.
  rewrite forallb_app in H. apply andb_prop in H as [_ H].
  cbn [forallb] in H. by rewrite Hc in H.
Qed.

Lemma strip_trailing_digits_after (base ds : jsstring) (c : N) :
  is_digit c = false -> forallb is_digit ds = true ->
  strip_trailing_digits (base ++ c :: ds) = base ++ [c].
Proof.
  intros Hc Hds. induction base as [|x base IH].
  - cbn [app]. pose proof (all_digits_app_false [] ds c Hc) as Hf.
    cbn [app] in Hf. cbn [strip_trailing_digits]. rewrite Hf.
    by rewrite strip_trailing_digits_digits.
  - pose proof (all_digits_app_false (x :: base) ds c Hc) as Hf.
    cbn [app] in *. cbn [strip_trailing_digits]. rewrite Hf. by rewrite IH.
Qed.

(** X12.  What the aggregators append to a town reading is nothing or a
    space and a run of digits, and the comparison string of the postal
    backfill does not depend on such a run: it is that of the reading with the
    space alone. *)
Theorem chome_number_dropped_by_backfill :
  (forall base ds : jsstring,
     forallb is_digit ds = true ->
     districtNameRome (base ++ 0x20 :: ds) = districtNameRome (base ++ [0x20]))
  /\ (forall text : jsstring,
       chomeSuffix text = []
       \/ exists ds, forallb is_digit ds = true
                     /\ chomeSuffix text = 0x20 :: ds).
Proof.
  split.
  - intros base ds Hds. unfold districtNameRome.
    rewrite (strip_trailing_digits_after base ds 0x20 eq_refl Hds).
    by rewrite (strip_trailing_digits_after base [] 0x20 eq_refl eq_refl).
  - intros text. rewrite chomeSuffix_eq.
    destruct (getChomeNumber_cases text [])
      as [[-> _] | (g & _ & _ & ->)]; [by left |].
    rewrite app_nil_r. destruct (eqb _ _); [by left |]. right.
    eexists. split; [apply string_of_N_digits | reflexivity].
Qed.

(** X13.  The worker throws exactly when the second element is not a run of
    digits and the eleventh element is missing or is not a string. *)
Theorem sqliteWriter_throws_iff (romeItems : list RomeItem) (array : record) :
  sqliteWriter romeItems array = None
  <-> test_digits (array !! 1%nat) = false
      /\ forall s, array !! 10%nat <> Some (JStr s).
Proof.
  unfold sqliteWriter, district_name_rome.
  destruct (test_digits (array !! 1%nat)).
  - split; [discriminate | by intros [? _]].
  - destruct (array !! 10%nat) as [[s|q]|] eqn:H10; cbn [mbind option_bind].
    + destruct (chooseAddition _ _). split; [discriminate |].
      intros [_ H]. by destruct (H s).
    + split; [| done]. intros _. split; [done | discriminate].
    + split; [| done]. intros _. split; [done | discriminate].
Qed.

(** X14.  On a record that matches the table schema the worker never throws:
    with a postal code of digits it hands the record on as it is and prints
    nothing; otherwise the array it hands on has sixteen elements, the
    fifteen of the record and an inserted second one. *)
Theorem sqliteWriter_on_schema_record (romeItems : list RomeItem) (r : record) :
  matches_schema r = true ->
  exists out diags,
    sqliteWriter romeItems r = Some (out, diags)
    /\ (all_digits (field COL_zip r) = true -> out = r /\ diags = [])
    /\ (all_digits (field COL_zip r) = false ->
        length out = 16%nat /\ take 1 out = take 1 r /\ drop 2 out = drop 1 r).
Proof.
  intros (s0 & s1 & s2 & s3 & s4 & s5 & s6 & s7 & s8 & s9 & s10 & s11 & s12
          & q13 & q14 & ->)%matches_schema_inv.
  unfold sqliteWriter, district_name_rome, field, COL_zip.
  cbn [lookup list_lookup test_digits mbind option_bind].
  destruct (all_digits s1).
  - eexists _, _. split; [reflexivity |]. split; [done | discriminate].
  - destruct (chooseAddition _ _) as [additions out].
    eexists _, _. split; [reflexivity |]. split; [discriminate |].
    intros _. by rewrite splice_1_0_lookup.
Qed.

(** ** The first loop of [getGaikuAddressItems] *)

Lemma gaikuSamples_snd (data : list GaikuLine)
    (st : gmap jsstring (list point) * list GaikuRecord) :
  snd (fold_left gaikuSample data st)
  = snd st ++ map gaikuPointOf (List.filter flagged data).
Proof.
  revert st. induction data as [|line data IH]; intros st;
    cbn [fold_left List.filter map]; [by rewrite app_nil_r |].
  rewrite IH. unfold gaikuSample, flagged. cbn [snd].
  destruct (eqb (gaiku_flag line) (u "1")); [| reflexivity].
  cbn [map]. rewrite <- app_assoc. reflexivity.
Qed.

Lemma gaikuSamples_fst (data : list GaikuLine)
    (st : gmap jsstring (list point) * list GaikuRecord) (k : jsstring) :
  fst (fold_left gaikuSample data st) !! k
  = match map sampleOf (List.filter (fun l => eqb (gaikuKey l) k) data) with
    | [] => fst st !! k
    | new => Some (default [] (fst st !! k) ++ new)
    end.
Proof.
  revert st. induction data as [|line data IH]; intros st;
    cbn [fold_left List.filter map]; [reflexivity |].
  rewrite IH. unfold gaikuSample. cbn [fst].
  rewrite addToCoords_lookup.
  destruct (eqb (gaikuKey line) k) eqn:Hk.
  - apply eqb_eq in Hk as <-. rewrite decide_True by reflexivity.
    cbn [map]. fold (sampleOf line).
    destruct (map sampleOf _) as [|p new]; [reflexivity |].
    cbn [from_option]. unfold Datatypes.id. by rewrite <- app_assoc.
  - apply eqb_neq in Hk. by rewrite decide_False.
Qed.

(** X15.  The block points that [getGaikuAddressItems] returns are the rows
    of the file whose residential-display flag is the string 1, one point for
    each such row and in the order of the rows, whatever the records, the
    dictionaries and the samples are. *)
Theorem gaikuItems_flagged_rows (prefCode : jsstring)
    (kanaItems : list KanaItem) (romeItems : list RomeItem)
    (records : gmap jsstring record) (data : list GaikuLine)
    (coords0 : gmap jsstring (list point)) (res : GaikuResult) :
  getGaikuAddressItems prefCode kanaItems romeItems records data coords0
  = Some res ->
  gaikuItems res = map gaikuPointOf (List.filter flagged data).
Proof.
  intros (_ & -> & _)%getGaikuAddressItems_Some.
  unfold gaikuSamples. by rewrite gaikuSamples_snd.
Qed.

(** X16.  After the call the sample array of a key is the array the call
    found for it followed by the samples of the rows with that key, in the
    order of the rows; a key that no row has keeps what it had. *)
Theorem coords_after_samples (prefCode : jsstring)
    (kanaItems : list KanaItem) (romeItems : list RomeItem)
    (records : gmap jsstring record) (data : list GaikuLine)
    (coords0 : gmap jsstring (list point)) (res : GaikuResult) (k : jsstring) :
  getGaikuAddressItems prefCode kanaItems romeItems records data coords0
  = Some res ->
  coords_after res !! k
  = match map sampleOf (List.filter (fun l => eqb (gaikuKey l) k) data) with
    | [] => coords0 !! k
    | new => Some (default [] (coords0 !! k) ++ new)
    end.
Proof.
  intros (-> & _ & _)%getGaikuAddressItems_Some.
  unfold gaikuSamples. by rewrite gaikuSamples_fst.
Qed.

Lemma prefRound_gaikuQueue (files : Files) (kanaItems : list KanaItem)
    (romeItems : list RomeItem) (st st' : State) (prefNumber : N) :
  prefRound files kanaItems romeItems st prefNumber = Some st' ->
  gaikuQueue st'
  = gaikuQueue st
    ++ map gaikuPointOf
         (List.filter flagged (nlftp_mlit_180a files (toPrefCode prefNumber))).
Proof.
  unfold prefRound.
  destruct (getAddressItems _ _ _ _ _ _) as [res|] eqn:Hres; [| discriminate].
  cbn [mbind option_bind]. intros [= <-]. cbn [gaikuQueue]. f_equal.
  unfold getAddressItems in Hres. cbn zeta in Hres.
  destruct (getOazaAddressItems _ _ _ _ _) as [oaza|]; [| discriminate].
  cbn [mbind option_bind] in Hres.
  apply getGaikuAddressItems_Some in Hres as (_ & -> & _).
  unfold gaikuSamples. by rewrite gaikuSamples_snd.
Qed.

(** X17.  What the prefecture loop pushes to the block-level writer is, after
    what was queued before, the flagged rows of the block-level files, file
    after file in the order of the prefecture numbers and row after row within
    a file. *)
Theorem gaikuQueue_all_flagged_rows (files : Files) (kanaItems : list KanaItem)
    (romeItems : list RomeItem) (prefCodeArray : list N) (st st' : State) :
  prefLoop files kanaItems romeItems prefCodeArray st = Some st' ->
  gaikuQueue st'
  = gaikuQueue st
    ++ flat_map
         (fun n => map gaikuPointOf
                     (List.filter flagged (nlftp_mlit_180a files (toPrefCode n))))
         prefCodeArray.
Proof.
  revert st. induction prefCodeArray as [|n rest IH]; intros st;
    cbn [prefLoop flat_map].
  - intros [= <-]. by rewrite app_nil_r.
  - destruct (prefRound files kanaItems romeItems st n) as [st1|] eqn:Hround;
      [| discriminate].
    cbn [mbind option_bind]. intros Hloop.
    rewrite (IH _ Hloop), (prefRound_gaikuQueue _ _ _ _ _ _ Hround).
    by rewrite <- app_assoc.
Qed.

(** ** The centre of a key and the coordinates of a block-level record *)

Lemma turfCenter_nil : turfCenter [] = None.
Proof. reflexivity. Qed.

Lemma getCenter_Some_In (recordKey : jsstring)
    (coords : gmap jsstring (list point)) (p : point) :
  getCenter distance ltb recordKey coords = Some p ->
  exists arr, coords !! recordKey = Some arr /\ In p arr.
Proof.
  unfold getCenter. destruct (coords !! recordKey) as [arr|]; [| discriminate].
  cbn [mbind option_bind]. destruct (turfCenter arr) as [c|]; [| discriminate].
  cbn [mbind option_bind]. unfold turfNearestPoint. intros Hp.
  exists arr. split; [reflexivity |].
  apply list_elem_of_In. by eapply list_elem_of_lookup_2.
Qed.

Lemma turfPoint_finiteSample (p : point) : turfPoint (finiteSample p) = Some p.
Proof. by destruct p. Qed.

Lemma turfPoint_Some (c : jscoord * jscoord) (p : point) :
  turfPoint c = Some p -> c = finiteSample p.
Proof. destruct c as [[x|] [y|]]; try discriminate. by intros [= <-]. Qed.

Lemma turfPoint_None (c : jscoord * jscoord) :
  turfPoint c = None <-> fst c = None \/ snd c = None.
Proof.
  destruct c as [[x|] [y|]]; cbn; split; try done; try tauto.
  by intros [? | ?].
Qed.

Lemma center_of_features (features : list point) :
  features <> [] ->
  exists p, (center ← turfCenter features;
             turfNearestPoint distance ltb center features) = Some p
    /\ In p features.
Proof.
  intros Hne.
  destruct (turfCenter_spec features Hne) as (w & s & e & n & _ & ->).
  cbn [mbind option_bind].
  destruct (turfNearestPoint_spec (((w + e) / 2)%Q, ((s + n) / 2)%Q)
              features Hne) as (i & p & Hp & Hi & _).
  exists p. split; [exact Hp |].
  apply list_elem_of_In. by eapply list_elem_of_lookup_2.
Qed.

(** X18.  On a store whose coordinates are finite numbers or [NaN],
    [getCenter] throws exactly when the key has no sample array, or an empty
    one, or one that holds a sample with a [NaN] coordinate; in every other
    case it returns one of the samples of the key.  On a store of finite
    numbers it is the [getCenter] of the rest of this development. *)
Theorem getCenter_throws_iff (recordKey : jsstring)
    (coords : gmap jsstring (list (jscoord * jscoord))) :
  (getCenterNaN recordKey coords = None
   <-> coords !! recordKey = None \/ coords !! recordKey = Some []
       \/ exists arr c, coords !! recordKey = Some arr /\ In c arr
             /\ (fst c = None \/ snd c = None))
  /\ (forall p, getCenterNaN recordKey coords = Some p ->
      exists arr, coords !! recordKey = Some arr /\ In (finiteSample p) arr)
  /\ (forall coordsQ : gmap jsstring (list point),
      getCenterNaN recordKey (finiteStore coordsQ)
      = getCenter distance ltb recordKey coordsQ).
Proof.
  unfold getCenterNaN. split; [| split].
  - destruct (coords !! recordKey) as [arr|] eqn:Hk; cbn [mbind option_bind];
      [| split; [by left | done]].
    destruct (mapM turfPoint arr) as [features|] eqn:Hm;
      cbn [mbind option_bind].
    + destruct features as [|q features].
      * apply length_mapM in Hm. destruct arr; [| discriminate].
        split; [by right; left | done].
      * destruct (center_of_features (q :: features)) as (p & -> & _);
          [done |].
        split; [done |]. intros [H | [H | (arr' & c & H & Hin & Hc)]];
          [discriminate | | ]; injection H as ->; exfalso.
        -- discriminate Hm.
        -- apply mapM_Some_1 in Hm.
           apply list_elem_of_In in Hin.
           apply list_elem_of_lookup in Hin as [i Hi].
           destruct (Forall2_lookup_l _ _ _ _ _ Hm Hi) as (y & _ & Hy).
           apply turfPoint_None in Hc. congruence.
    + split; [| done]. intros _. right. right.
      apply mapM_None_1, Exists_exists in Hm as (c & Hin & Hc).
      exists arr, c. split; [reflexivity |].
      split; [by apply list_elem_of_In | by apply turfPoint_None].
  - intros p. destruct (coords !! recordKey) as [arr|]; [| discriminate].
    cbn [mbind option_bind].
    destruct (mapM turfPoint arr) as [features|] eqn:Hm; [| discriminate].
    cbn [mbind option_bind].
    destruct (turfCenter features) as [c|]; [| discriminate].
    cbn [mbind option_bind]. unfold turfNearestPoint. intros Hp.
    exists arr. split; [reflexivity |]. apply mapM_Some_1 in Hm.
    destruct (Forall2_lookup_r _ _ _ _ _ Hm Hp) as (x & Hx & Hxp).
    apply turfPoint_Some in Hxp as ->.
    apply list_elem_of_In. by eapply list_elem_of_lookup_2.
  - intros coordsQ. unfold getCenter, finiteStore. rewrite lookup_fmap.
    destruct (coordsQ !! recordKey) as [arr|]; [| reflexivity].
    cbn [fmap option_fmap option_map mbind option_bind].
    by rewrite (mapM_fmap_Some turfPoint finiteSample arr turfPoint_finiteSample).
Qed.

Lemma gaikuRecordOf_coordinates (prefCode : jsstring)
    (kanaItems : list KanaItem) (romeItems : list RomeItem)
    (coords : gmap jsstring (list point)) (line : GaikuLine) (r : record) :
  gaikuRecordOf prefCode kanaItems romeItems coords line = Some r ->
  exists p arr,
    coords !! gaikuKey line = Some arr /\ In p arr
    /\ r !! COL_lat = Some (JNum (snd p)) /\ r !! COL_lng = Some (JNum (fst p)).
Proof.
  unfold gaikuRecordOf.
  destruct (getCenter distance ltb (gaikuKey line) coords) as [p|] eqn:Hc;
    [| discriminate].
  cbn [mbind option_bind]. intros Hr.
  destruct (getCenter_Some_In _ _ _ Hc) as (arr & Harr & Hin).
  exists p, arr. split; [exact Harr |]. split; [exact Hin |].
  destruct (getPostalKanaOrRomeItems kana (gaiku_pref line) (gaikuCity line)
              (gaikuTown line) kanaItems) as [k|].
  - destruct (gaikuRecord_Some prefCode line (gaikuCity line) (gaikuTown line)
                (koazaName line) k
                (getPostalKanaOrRomeItems rome (gaiku_pref line)
                   (gaikuCity line) (gaikuTown line) romeItems) p)
      as (r' & Hr' & _ & _ & _ & _ & _ & _ & _ & _ & Hlat & Hlng).
    pose proof (eq_trans (eq_sym Hr') Hr) as [= ->]. by split.
  - by rewrite gaikuRecord_None in Hr.
Qed.

Lemma firstWithKey_Some {L : Type} (key : L -> jsstring) (k : jsstring)
    (data : list L) (line : L) :
  firstWithKey key k data = Some line -> In line data /\ key line = k.
Proof.
  unfold firstWithKey. intros [Hin Hk%eqb_eq]%List.find_some. by split.
Qed.

(** X19.  The latitude and the longitude of a record that the second loop of
    [getGaikuAddressItems] makes are those of one sample of its key: of a row
    of the file with that key, or of the array that the call found for the
    key. *)
Theorem gaiku_record_coordinates (prefCode : jsstring)
    (kanaItems : list KanaItem) (romeItems : list RomeItem)
    (records : gmap jsstring record) (data : list GaikuLine)
    (coords0 : gmap jsstring (list point)) (res : GaikuResult)
    (k : jsstring) (r : record) :
  getGaikuAddressItems prefCode kanaItems romeItems records data coords0
  = Some res ->
  records !! k = None ->
  towns res !! k = Some r ->
  exists p,
    r !! COL_lat = Some (JNum (snd p)) /\ r !! COL_lng = Some (JNum (fst p))
    /\ ((exists line, In line data /\ gaikuKey line = k /\ p = sampleOf line)
        \/ In p (default [] (coords0 !! k))).
Proof.
  intros Hres Hrec Hr.
  destruct (getGaikuAddressItems_Some _ _ _ _ _ _ _ Hres) as (Hc & _ & Hloop).
  pose proof (dedupLoop_lookup _ _ _ _ _ Hloop k) as Hk.
  rewrite Hrec, Hr in Hk.
  destruct (firstWithKey gaikuKey k data) as [line|] eqn:Hfirst;
    [| discriminate].
  cbn [mbind option_bind] in Hk. symmetry in Hk.
  apply firstWithKey_Some in Hfirst as [_ Hkey].
  destruct (gaikuRecordOf_coordinates _ _ _ _ _ _ Hk)
    as (p & arr & Harr & Hin & Hlat & Hlng).
  exists p. split; [exact Hlat |]. split; [exact Hlng |].
  rewrite Hkey, Hc in Harr. unfold gaikuSamples in Harr.
  rewrite gaikuSamples_fst in Harr. cbn [fst] in Harr.
  destruct (map sampleOf _) as [|s new] eqn:Hnew.
  - right. by rewrite Harr.
  - injection Harr as <-. apply in_app_or in Hin as [Hin | Hin]; [by right |].
    left. rewrite <- Hnew in Hin.
    apply in_map_iff in Hin as (line' & <- & [Hd Hk']%filter_In).
    exists line'. apply eqb_eq in Hk'. by repeat split.
Qed.

(** ** When the aggregators throw *)

Lemma firstWithKey_cons {L : Type} (key : L -> jsstring) (k : jsstring)
    (line : L) (rest : list L) :
  firstWithKey key k (line :: rest)
  = if eqb (key line) k then Some line else firstWithKey key k rest.
Proof. reflexivity. Qed.

Lemma dedupLoop_None_iff {L : Type} (key : L -> jsstring)
    (make : L -> option record) (data : list L)
    (records : gmap jsstring record) :
  dedupLoop key make data records = None
  <-> exists line,
        records !! key line = None
        /\ firstWithKey key (key line) data = Some line
        /\ make line = None.
Proof.
  revert records. induction data as [|line rest IH]; intros records;
    cbn [dedupLoop].
  - split; [discriminate | by intros (l & _ & ? & _)].
  - destruct (records !! key line) as [r0|] eqn:Hrec.
    + rewrite IH. split; intros (l & Hl & Hfirst & Hmake); exists l.
      * split; [exact Hl |]. split; [| exact Hmake].
        rewrite firstWithKey_cons.
        destruct (eqb (key line) (key l)) eqn:Hk; [| exact Hfirst].
        apply eqb_eq in Hk. congruence.
      * split; [exact Hl |]. split; [| exact Hmake].
        rewrite firstWithKey_cons in Hfirst.
        destruct (eqb (key line) (key l)) eqn:Hk; [| exact Hfirst].
        apply eqb_eq in Hk. congruence.
    + destruct (make line) as [r|] eqn:Hmk; cbn [mbind option_bind].
      * rewrite IH. split; intros (l & Hl & Hfirst & Hmake); exists l.
        -- apply lookup_insert_None in Hl as [Hl Hne].
           split; [exact Hl |]. split; [| exact Hmake].
           rewrite firstWithKey_cons.
           by rewrite (proj2 (eqb_neq (key line) (key l)) Hne).
        -- rewrite firstWithKey_cons in Hfirst.
           destruct (eqb (key line) (key l)) eqn:Hk.
           ++ injection Hfirst as <-. congruence.
           ++ apply eqb_neq in Hk. split; [| by split].
              by apply lookup_insert_None.
      * split; [| done]. intros _. exists line.
        split; [exact Hrec |]. split; [| exact Hmk].
        by rewrite firstWithKey_cons, eqb_refl.
Qed.

Lemma oazaRecordOf_None_iff (prefCode : jsstring) (kanaItems : list KanaItem)
    (romeItems : list RomeItem) (line : OazaLine) :
  oazaRecordOf prefCode kanaItems romeItems line = None
  <-> getPostalKanaOrRomeItems kana (oaza_pref line) (oazaCity line)
        (oazaTown line) kanaItems = None.
Proof.
  split.
  - intros Hnone.
    destruct (getPostalKanaOrRomeItems kana _ _ _ kanaItems) as [k|] eqn:Hk;
      [| reflexivity].
    destruct (oazaRecordOf_is_Some prefCode kanaItems romeItems line) as [r Hr];
      [by rewrite Hk | congruence].
  - intros Hk. unfold oazaRecordOf. rewrite Hk. apply oazaRecord_None.
Qed.

(** X20.  [getOazaAddressItems] throws exactly when the file has a row that
    is the first of its key, whose key the patch records do not hold, and for
    which the kana dictionary gives no item. *)
Theorem getOazaAddressItems_throws_iff (prefCode : jsstring)
    (kanaItems : list KanaItem) (romeItems : list RomeItem)
    (patchData : gmap jsstring (gmap jsstring record)) (data : list OazaLine) :
  getOazaAddressItems prefCode kanaItems romeItems patchData data = None
  <-> exists line,
        default ∅ (patchData !! prefCode) !! oazaKey line = None
        /\ firstWithKey oazaKey (oazaKey line) data = Some line
        /\ getPostalKanaOrRomeItems kana (oaza_pref line) (oazaCity line)
             (oazaTown line) kanaItems = None.
Proof.
  unfold getOazaAddressItems. rewrite oazaLoop_dedup, dedupLoop_None_iff.
  split; intros (line & Hrec & Hfirst & Hmake); exists line;
    (split; [exact Hrec |]; split; [exact Hfirst |]);
    first [by apply oazaRecordOf_None_iff in Hmake
          | by apply oazaRecordOf_None_iff].
Qed.

Lemma gaikuRecordOf_None_iff (prefCode : jsstring) (kanaItems : list KanaItem)
    (romeItems : list RomeItem) (data : list GaikuLine)
    (coords0 : gmap jsstring (list point)) (line : GaikuLine) :
  In line data ->
  gaikuRecordOf prefCode kanaItems romeItems (fst (gaikuSamples data coords0))
    line = None
  <-> getPostalKanaOrRomeItems kana (gaiku_pref line) (gaikuCity line)
        (gaikuTown line) kanaItems = None.
Proof.
  intros Hin. split.
  - intros Hnone.
    destruct (getPostalKanaOrRomeItems kana _ _ _ kanaItems) as [k|] eqn:Hk;
      [| reflexivity].
    destruct (gaikuSamples_covers data (coords0, []) line Hin)
      as (arr & Harr & Hs).
    destruct (gaikuRecordOf_is_Some prefCode kanaItems romeItems
                (fst (gaikuSamples data coords0)) line arr Harr) as [r Hr];
      [by intros -> | by rewrite Hk | congruence].
  - intros Hk. unfold gaikuRecordOf. rewrite Hk.
    destruct (getCenter _ _ _ _) as [c|]; [| reflexivity].
    cbn [mbind option_bind]. apply gaikuRecord_None.
Qed.

(** X21.  On a file whose coordinate columns all read as finite numbers, and
    with a sample store of finite numbers, [getGaikuAddressItems] throws
    exactly when the file has a row that is the first of its key, whose key
    the records do not hold, and for which the kana dictionary gives no item:
    computing the centre of a key does not throw in its second loop.  (A
    coordinate text that reads as [NaN] makes [getCenter] throw; such rows are
    what the hypothesis leaves out.) *)
Theorem getGaikuAddressItems_throws_iff (prefCode : jsstring)
    (kanaItems : list KanaItem) (romeItems : list RomeItem)
    (records : gmap jsstring record) (data : list GaikuLine)
    (coords0 : gmap jsstring (list point)) :
  (forall line, In line data ->
     coordinateLiteral (gaiku_lng line) = true
     /\ coordinateLiteral (gaiku_lat line) = true) ->
  (getGaikuAddressItems prefCode kanaItems romeItems records data coords0 = None
   <-> exists line,
         records !! gaikuKey line = None
         /\ firstWithKey gaikuKey (gaikuKey line) data = Some line
         /\ getPostalKanaOrRomeItems kana (gaiku_pref line) (gaikuCity line)
              (gaikuTown line) kanaItems = None).
Proof.
  intros _. unfold getGaikuAddressItems. cbn zeta. rewrite gaikuLoop_dedup.
  destruct (dedupLoop _ _ data records) as [t|] eqn:Hloop;
    cbn [mbind option_bind].
  - split; [discriminate |]. intros (line & Hrec & Hfirst & Hk). exfalso.
    assert (Hnone : dedupLoop gaikuKey
                      (gaikuRecordOf prefCode kanaItems romeItems
                         (fst (gaikuSamples data coords0))) data records = None).
    { apply dedupLoop_None_iff. exists line.
      split; [exact Hrec |]. split; [exact Hfirst |].
      apply firstWithKey_Some in Hfirst as [Hin _].
      by apply gaikuRecordOf_None_iff. }
    congruence.
  - split; [| done]. intros _.
    apply dedupLoop_None_iff in Hloop as (line & Hrec & Hfirst & Hmake).
    exists line. split; [exact Hrec |]. split; [exact Hfirst |].
    apply firstWithKey_Some in Hfirst as [Hin _].
    by apply gaikuRecordOf_None_iff in Hmake.
Qed.

(** ** The shape of the records *)

Lemma dedupLoop_invariant {L : Type} (key : L -> jsstring)
    (make : L -> option record) (P : record -> Prop) (data : list L)
    (records res : gmap jsstring record) :
  (forall line r, make line = Some r -> P r) ->
  (forall k r, records !! k = Some r -> P r) ->
  dedupLoop key make data records = Some res ->
  forall k r, res !! k = Some r -> P r.
Proof.
  intros Hmake Hrec Hloop k r Hr.
  pose proof (dedupLoop_lookup _ _ _ _ _ Hloop k) as Hk. rewrite Hr in Hk.
  destruct (records !! k) as [r0|] eqn:Hk0.
  - injection Hk as ->. by eapply Hrec.
  - destruct (firstWithKey key k data) as [line|]; [| discriminate].
    cbn [mbind option_bind] in Hk. by eapply Hmake.
Qed.

Lemma towns_schema (prefCode : jsstring)
    (kanaItems : list KanaItem) (romeItems : list RomeItem)
    (patchData : gmap jsstring (gmap jsstring record))
    (oazaData : list OazaLine) (gaikuData : list GaikuLine)
    (coords0 : gmap jsstring (list point))
    (oaza : gmap jsstring record) (res : GaikuResult) :
  (forall k r, default ∅ (patchData !! prefCode) !! k = Some r ->
     matches_schema r = true) ->
  getOazaAddressItems prefCode kanaItems romeItems patchData oazaData
  = Some oaza ->
  getGaikuAddressItems prefCode kanaItems romeItems oaza gaikuData coords0
  = Some res ->
  forall k r, towns res !! k = Some r -> matches_schema r = true.
Proof.
  intros Hpatch Hoaza Hres.
  unfold getOazaAddressItems in Hoaza. rewrite oazaLoop_dedup in Hoaza.
  apply getGaikuAddressItems_Some in Hres as (_ & _ & Hloop).
  eapply (dedupLoop_invariant _ _ (fun r => matches_schema r = true));
    [| | exact Hloop].
  - intros line r. apply gaikuRecordOf_schema.
  - eapply (dedupLoop_invariant _ _ (fun r => matches_schema r = true));
      [| exact Hpatch | exact Hoaza].
    intros line r. apply oazaRecordOf_schema.
Qed.

(** X22.  When every patch record of the prefecture matches the table schema
    (thirteen strings, then two numbers), so does every record that the two
    aggregators hand on. *)
Theorem towns_match_schema (prefCode : jsstring)
    (kanaItems : list KanaItem) (romeItems : list RomeItem)
    (patchData : gmap jsstring (gmap jsstring record))
    (oazaData : list OazaLine) (gaikuData : list GaikuLine)
    (coords0 : gmap jsstring (list point))
    (oaza : gmap jsstring record) (res : GaikuResult) :
  (forall k r, default ∅ (patchData !! prefCode) !! k = Some r ->
     matches_schema r = true) ->
  getOazaAddressItems prefCode kanaItems romeItems patchData oazaData
  = Some oaza ->
  getGaikuAddressItems prefCode kanaItems romeItems oaza gaikuData coords0
  = Some res ->
  forall k r, towns res !! k = Some r -> matches_schema r = true.
Proof.
  intros Hpatch Hoaza Hres k r Hr.
  unfold getOazaAddressItems in Hoaza. rewrite oazaLoop_dedup in Hoaza.
  apply getGaikuAddressItems_Some in Hres as (_ & _ & Hloop).
  pose proof (dedupLoop_lookup _ _ _ _ _ Hloop k) as Hk. rewrite Hr in Hk.
  destruct (oaza !! k) as [r0|] eqn:Hk0.
  - injection Hk as ->.
    pose proof (dedupLoop_lookup _ _ _ _ _ Hoaza k) as Hk1. rewrite Hk0 in Hk1.
    destruct (default ∅ (patchData !! prefCode) !! k) as [r1|] eqn:Hp.
    + injection Hk1 as ->. by eapply Hpatch.
    + destruct (firstWithKey oazaKey k oazaData) as [line|]; [| discriminate].
      cbn [mbind option_bind] in Hk1. by eapply oazaRecordOf_schema.
  - destruct (firstWithKey gaikuKey k gaikuData) as [line|]; [| discriminate].
    cbn [mbind option_bind] in Hk. by eapply gaikuRecordOf_schema.
Qed.


(** ** The kana columns *)

Lemma han2zenMap_heads :
  forallb (fun kv => match fst kv with
                     | h :: _ => 0xFF00 <=? h
                     | [] => true
                     end) han2zenMap = true.
Proof. vm_compute. reflexivity. Qed.

Lemma han2zen_head_low (c : N) : c < 0xFF00 -> han2zen_head c = false.
Proof.
  intros Hc. apply not_true_iff_false. unfold han2zen_head.
  intros (kv & Hin & Hkv)%existsb_exists.
  pose proof han2zenMap_heads as H. rewrite forallb_forall in H.
  specialize (H kv Hin). cbv beta in H.
  destruct kv as [[|h p] v]; cbn [fst] in *; [discriminate |].
  apply N.eqb_eq in Hkv. apply N.leb_le in H. lia.
Qed.

Lemma chomeSuffix_chars (text : jsstring) (c : N) :
  In c (chomeSuffix text) -> c < 0xFF00.
Proof.
  rewrite chomeSuffix_eq.
  destruct (getChomeNumber_cases text []) as [[-> _] | (g & _ & _ & ->)];
    [intros [] |].
  rewrite app_nil_r. destruct (eqb _ _); [intros [] |].
  intros [<- | Hin]; [lia |].
  pose proof (string_of_N_digits (kanji2number g)) as Hd.
  rewrite forallb_forall in Hd. specialize (Hd c Hin). unfold is_digit in Hd.
  apply andb_prop in Hd as [_ Hd%N.leb_le]. lia.
Qed.

Lemma kana_reading_no_head (a text : jsstring) (c : N) :
  In c (han2zen a ++ chomeSuffix text) -> han2zen_head c = false.
Proof.
  intros [Hin | Hin]%in_app_or.
  - by eapply han2zen_from_no_head.
  - by eapply han2zen_head_low, chomeSuffix_chars.
Qed.

Lemma han2zenMap_range :
  forallb han2zen_head (map (fun k => 0xFF61 + N.of_nat k) (seq 0 61)) = true
  /\ forallb (fun kv => match fst kv with
                        | h :: _ => (0xFF61 <=? h) && (h <=? 0xFF9D)
                        | [] => false
                        end) han2zenMap = true.
Proof. split; vm_compute; reflexivity. Qed.

(** The characters that start a key are the half-width forms from U+FF61 to
    U+FF9D: every half-width punctuation mark and katakana, but not the two
    voicing marks U+FF9E and U+FF9F. *)
Lemma han2zen_head_range (c : N) :
  han2zen_head c = true <-> 0xFF61 <= c <= 0xFF9D.
Proof.
  destruct han2zenMap_range as [Hall Hkeys]. split.
  - unfold han2zen_head. intros (kv & Hin & Hkv)%existsb_exists.
    rewrite forallb_forall in Hkeys. specialize (Hkeys kv Hin).
    cbv beta in Hkeys. destruct kv as [[|h p] v]; cbn [fst] in *;
      [discriminate |].
    apply N.eqb_eq in Hkv as ->.
    apply andb_prop in Hkeys as [?%N.leb_le ?%N.leb_le]. lia.
  - intros Hc. rewrite forallb_forall in Hall. apply Hall.
    apply in_map_iff. exists (N.to_nat (c - 0xFF61)). split; [lia |].
    apply in_seq. lia.
Qed.

(** X23.  The three kana columns of a record that an aggregator builds hold
    no character that starts a key of [han2zenMap], that is, no half-width
    form from U+FF61 to U+FF9D.  (A voicing mark U+FF9E or U+FF9F that follows
    no kana it combines with starts no key and is left as it is.) *)
Theorem kana_columns_converted :
  (forall prefCode kanaItems romeItems line r c,
     oazaRecordOf prefCode kanaItems romeItems line = Some r ->
     In c (field COL_prefKana r ++ field COL_cityKana r
           ++ field COL_townKana r) ->
     han2zen_head c = false /\ ~ (0xFF61 <= c <= 0xFF9D))
  /\ (forall prefCode kanaItems romeItems coords line r c,
     gaikuRecordOf prefCode kanaItems romeItems coords line = Some r ->
     In c (field COL_prefKana r ++ field COL_cityKana r
           ++ field COL_townKana r) ->
     han2zen_head c = false /\ ~ (0xFF61 <= c <= 0xFF9D)).
Proof.
  assert (Hrange : forall c, han2zen_head c = false ->
            han2zen_head c = false /\ ~ (0xFF61 <= c <= 0xFF9D)).
  { intros c Hc. split; [exact Hc |]. intros Hr%han2zen_head_range. congruence. }
  split.
  - intros prefCode kanaItems romeItems line r c. unfold oazaRecordOf, oazaRecord.
    destruct (getPostalKanaOrRomeItems kana _ _ _ kanaItems) as [k|];
      [| discriminate].
    cbn [fmap option_fmap option_map mbind option_bind]. intros [= <-].
    unfold field, COL_prefKana, COL_cityKana, COL_townKana.
    cbn [lookup list_lookup].
    intros [Hin | [Hin | Hin]%in_app_or]%in_app_or; apply Hrange.
    + by eapply han2zen_from_no_head.
    + by eapply han2zen_from_no_head.
    + by eapply kana_reading_no_head.
  - intros prefCode kanaItems romeItems coords line r c.
    unfold gaikuRecordOf, gaikuRecord.
    destruct (getCenter _ _ _ _) as [ctr|]; [| discriminate].
    cbn [mbind option_bind].
    destruct (getPostalKanaOrRomeItems kana _ _ _ kanaItems) as [k|];
      [| discriminate].
    cbn [fmap option_fmap option_map mbind option_bind]. intros [= <-].
    unfold field, COL_prefKana, COL_cityKana, COL_townKana.
    cbn [lookup list_lookup].
    intros [Hin | [Hin | Hin]%in_app_or]%in_app_or; apply Hrange.
    + by eapply han2zen_from_no_head.
    + by eapply han2zen_from_no_head.
    + by eapply kana_reading_no_head.
Qed.

(** ** Voiced pairs in [han2zen] *)

Lemma han2zenMap_pairs :
  forallb (fun kv => negb (length (fst kv) =? 2)%nat
                     || bool_decide (han2zen_at (fst kv) = Some kv))
    han2zenMap = true.
Proof. vm_compute. reflexivity. Qed.

Lemma starts_with_app (p k rest : jsstring) :
  (length p <= length k)%nat ->
  starts_with p (k ++ rest) = starts_with p k.
Proof.
  revert k. induction p as [|a p IH]; intros k Hlen; [by destruct k |].
  destruct k as [|b k]; cbn [length] in Hlen; [lia |].
  cbn [app starts_with]. rewrite IH by lia. reflexivity.
Qed.

Lemma find_ext_in {A : Type} (f g : A -> bool) (l : list A) :
  (forall x, In x l -> f x = g x) -> List.find f l = List.find g l.
Proof.
  induction l as [|a l IH]; [reflexivity |]. intros H. cbn [List.find].
  rewrite (H a) by (by left). rewrite IH; [reflexivity |].
  intros x Hx. apply H. by right.
Qed.

Lemma han2zen_at_pair (kv : jsstring * jsstring) (rest : jsstring) :
  In kv han2zenMap -> length (fst kv) = 2%nat ->
  han2zen_at (fst kv ++ rest) = Some kv.
Proof.
  intros Hin Hlen. pose proof han2zenMap_pairs as Hp.
  rewrite forallb_forall in Hp. specialize (Hp kv Hin). cbv beta in Hp.
  apply Nat.eqb_eq in Hlen. unfold jsstring in *. rewrite Hlen in Hp.
  cbn [negb orb] in Hp. apply bool_decide_eq_true_1 in Hp.
  rewrite <- Hp. unfold han2zen_at. apply find_ext_in.
  intros e He. apply starts_with_app.
  pose proof han2zenMap_key_lengths as Hk. rewrite forallb_forall in Hk.
  specialize (Hk e He). cbv beta in Hk. apply Nat.leb_le in Hk.
  apply Nat.eqb_eq in Hlen. unfold jsstring in *. lia.
Qed.

(** X24.  A kana followed by its voicing mark is converted as one character:
    for every two-character key of the table, a text that starts with the key
    is converted to the value of the key followed by the conversion of the
    rest, whatever the rest is. *)
Theorem han2zen_voiced_pairs (kv : jsstring * jsstring) (rest : jsstring) :
  In kv han2zenMap -> length (fst kv) = 2%nat ->
  han2zen (fst kv ++ rest) = snd kv ++ han2zen rest.
Proof.
  intros Hin Hlen. pose proof (han2zen_at_pair kv rest Hin Hlen) as Hat.
  destruct kv as [[|c [|d [|x k]]] v]; cbn [fst snd length] in *;
    try discriminate.
  unfold han2zen. cbn [app han2zen_from] in *. rewrite Hat.
  reflexivity.
Qed.

(** ** From the prefecture loop to the worker *)

Lemma patch_entry_schema (pd : gmap jsstring (gmap jsstring record))
    (c : jsstring) :
  (forall c m k r, pd !! c = Some m -> m !! k = Some r ->
     matches_schema r = true) ->
  forall k r, default ∅ (pd !! c) !! k = Some r -> matches_schema r = true.
Proof.
  intros Hpd k r. destruct (pd !! c) as [m|] eqn:Hc; cbn [from_option].
  - unfold Datatypes.id. by apply (Hpd c m).
  - by rewrite lookup_empty.
Qed.

Lemma prefRound_schema (files : Files) (kanaItems : list KanaItem)
    (romeItems : list RomeItem) (st st' : State) (prefNumber : N) :
  prefRound files kanaItems romeItems st prefNumber = Some st' ->
  (forall c m k r, patchData st !! c = Some m -> m !! k = Some r ->
     matches_schema r = true) ->
  (forall c m k r, patchData st' !! c = Some m -> m !! k = Some r ->
     matches_schema r = true)
  /\ (forall r, In r (sqliteQueue st') ->
        In r (sqliteQueue st) \/ matches_schema r = true).
Proof.
  unfold prefRound.
  destruct (getAddressItems _ _ _ _ _ _) as [res|] eqn:Hres; [| discriminate].
  cbn [mbind option_bind]. intros [= <-] Hpd. cbn [patchData sqliteQueue].
  unfold getAddressItems in Hres. cbn zeta in Hres.
  destruct (getOazaAddressItems _ _ _ _ _) as [oaza|] eqn:Hoaza;
    [| discriminate].
  cbn [mbind option_bind] in Hres.
  pose proof (towns_schema _ _ _ _ _ _ _ _ _
                (patch_entry_schema _ (toPrefCode prefNumber) Hpd) Hoaza Hres)
    as Htowns.
  split.
  - intros c m k r.
    destruct (patchData st !! toPrefCode prefNumber) as [m0|]; [| apply Hpd].
    destruct (decide (toPrefCode prefNumber = c)) as [<- | Hne].
    + rewrite lookup_insert_eq. intros [= <-]. apply Htowns.
    + rewrite lookup_insert_ne by exact Hne. apply Hpd.
  - intros r [Hin | Hin]%in_app_or; [by left |]. right.
    apply list_elem_of_In, list_elem_of_fmap in Hin as ([k r'] & -> & Hin).
    apply elem_of_map_to_list in Hin. by eapply Htowns.
Qed.

Lemma sqliteWriter_schema_total (romeItems : list RomeItem) (r : record) :
  matches_schema r = true -> is_Some (sqliteWriter romeItems r).
Proof.
  intros (s0 & s1 & s2 & s3 & s4 & s5 & s6 & s7 & s8 & s9 & s10 & s11 & s12
          & q13 & q14 & ->)%matches_schema_inv.
  unfold sqliteWriter, district_name_rome.
  cbn [lookup list_lookup test_digits mbind option_bind].
  destruct (all_digits s1); [by eexists |].
  destruct (chooseAddition _ _). by eexists.
Qed.

(** X25.  When the patch records match the table schema, every record that
    the prefecture loop pushes to the database writer matches it too, and the
    worker does not throw on any of them.  The prefecture numbers are taken
    to be distinct, as the 47 of a full run are: the worker changes a record
    in place, and a second round of one prefecture would meet the patch
    records of the first as the worker left them, which the state of
    [prefLoop] does not follow. *)
Theorem sqliteQueue_records_accepted (files : Files)
    (kanaItems : list KanaItem) (romeItems : list RomeItem)
    (prefCodeArray : list N) (st st' : State) :
  NoDup prefCodeArray ->
  prefLoop files kanaItems romeItems prefCodeArray st = Some st' ->
  (forall c m k r, patchData st !! c = Some m -> m !! k = Some r ->
     matches_schema r = true) ->
  (forall r, In r (sqliteQueue st) -> matches_schema r = true) ->
  forall r, In r (sqliteQueue st') ->
    matches_schema r = true
    /\ forall items, is_Some (sqliteWriter items r).
Proof.
  intros _ Hloop Hpd Hq r Hin.
  assert (Hr : matches_schema r = true).
  { revert st Hloop Hpd Hq.
    induction prefCodeArray as [|n rest IH]; intros st; cbn [prefLoop].
    - intros [= <-] _ Hq. by apply Hq.
    - destruct (prefRound files kanaItems romeItems st n) as [st1|] eqn:Hround;
        [| discriminate].
      cbn [mbind option_bind]. intros Hloop Hpd Hq.
      destruct (prefRound_schema _ _ _ _ _ _ Hround Hpd) as [Hpd1 Hq1].
      apply (IH st1 Hloop Hpd1). intros r' Hr'.
      destruct (Hq1 r' Hr') as [Hold | Hnew]; [by apply Hq | exact Hnew]. }
  split; [exact Hr |]. intros items. by apply sqliteWriter_schema_total.
Qed.
End Build.

(** * The model at concrete inputs *)

Lemma Qltb_lt (a b : Q) : Sample.Qltb a b = true <-> (a < b)%Q.
Proof.
  unfold Sample.Qltb. rewrite Qlt_alt. destruct (a ?= b)%Q; split; congruence.
Qed.

Lemma Qltb_nlt (a b : Q) : Sample.Qltb a b = false <-> (b <= a)%Q.
Proof.
  split.
  - intros H. apply Qnot_lt_le. rewrite <- Qltb_lt. congruence.
  - intros H. destruct (Sample.Qltb a b) eqn:Hab; [| reflexivity].
    apply Qltb_lt in Hab. exfalso. by apply (Qlt_not_le a b).
Qed.

(** Comparing squared Euclidean distances is a strict weak order. *)
Lemma Qltb_strict_weak_order : strict_weak_order Sample.Qltb.
Proof.
  split; [| split].
  - intros a. apply Qltb_nlt, Qle_refl.
  - intros a b c Hab%Qltb_lt Hbc%Qltb_lt. apply Qltb_lt. by eapply Qlt_trans.
  - intros a b c Hab%Qltb_nlt Hbc%Qltb_nlt. apply Qltb_nlt. by eapply Qle_trans.
Qed.

(** The three samples of one key, in the order they were added. *)
Example getCenter_example :
  getCenter euclid2 Sample.Qltb (u "k")
    (addToCoords (u "k") 4 4 (addToCoords (u "k") 10 10
       (addToCoords (u "k") 0 0 ∅)))
  = Some (4, 4)%Q.
Proof. vm_compute. reflexivity. Qed.

(** Witness of C4: a key with three samples. *)
Lemma getCenter_returns_sample_witness :
  exists w s e n i p,
    is_bbox [(0, 0); (10, 10); (4, 4)]%Q w s e n
    /\ getCenter euclid2 Sample.Qltb (u "k")
         {[ u "k" := [(0, 0); (10, 10); (4, 4)]%Q ]} = Some p
    /\ [(0, 0); (10, 10); (4, 4)]%Q !! i = Some p
    /\ (strict_weak_order Sample.Qltb ->
        let center := (((w + e) / 2)%Q, ((s + n) / 2)%Q) in
        (forall q, In q [(0, 0); (10, 10); (4, 4)]%Q ->
           Sample.Qltb (euclid2 center q) (euclid2 center p) = false)
        /\ (forall j q, (j < i)%nat ->
              [(0, 0); (10, 10); (4, 4)]%Q !! j = Some q ->
              Sample.Qltb (euclid2 center p) (euclid2 center q) = true)).
Proof.
  apply (getCenter_returns_sample euclid2 Sample.Qltb (u "k")
           {[ u "k" := [(0, 0); (10, 10); (4, 4)]%Q ]}
           [(0, 0); (10, 10); (4, 4)]%Q).
  - vm_compute. reflexivity.
  - discriminate.
Defined.

(** C7, as stated, fails: a block-level row whose source town name gives the
    number 1, and whose record has the number 11 after both readings, the
    number of the normalized town name. *)
Lemma getChomeNumber_counterexample :
  getChomeNumber Sample.kanji2number (gaiku_town gaikuLineSpaced) [] = u "1"
  /\ (res ← getGaikuAddressItems Sample.Number Sample.createRecordKey
              Sample.getPostalKanaOrRomeItems Sample.kanji2number euclid2
              Sample.Qltb (u "01") [Sample.kanaItem1] [Sample.romeItem1] ∅
              [gaikuLineSpaced] ∅;
      r ← towns res !! gaikuKey Sample.createRecordKey gaikuLineSpaced;
      Some (field COL_town r, field COL_townKana r, field COL_townRome r))
     = Some (u "旭ケ丘十一丁目", u "アサヒガオカ 11", u "ASAHIGAOKA 11").
Proof. split; vm_compute; reflexivity. Qed.

(** Witness of C10: a district-level row and a block-level row of one city,
    with a kana item whose municipal code differs from the city code of the
    district-level row. *)
Lemma city_code_source_witness :
  (exists r,
     oazaRecordOf Sample.Number Sample.getPostalKanaOrRomeItems
       Sample.kanji2number (u "01") [kanaItemOtherCode] [Sample.romeItem1]
       Sample.oazaLine1 = Some r
     /\ r !! COL_cityCode = Some (JStr (oaza_cityCode Sample.oazaLine1)))
  /\ (exists r,
       gaikuRecordOf Sample.createRecordKey
         Sample.getPostalKanaOrRomeItems Sample.kanji2number euclid2
         Sample.Qltb (u "01") [kanaItemOtherCode] [Sample.romeItem1]
         (fst (gaikuSamples Sample.Number Sample.createRecordKey
                 [Sample.gaikuLine1] ∅))
         Sample.gaikuLine1 = Some r
       /\ r !! COL_cityCode = Some (JStr (kana_lgCode kanaItemOtherCode))).
Proof.
  destruct (city_code_source Sample.Number Sample.createRecordKey
              Sample.getPostalKanaOrRomeItems Sample.kanji2number euclid2
              Sample.Qltb) as (_ & _ & _ & Hoaza & Hgaiku).
  split.
  - apply (Hoaza (u "01") [kanaItemOtherCode] [Sample.romeItem1]
             Sample.oazaLine1 kanaItemOtherCode).
    vm_compute. reflexivity.
  - apply (Hgaiku (u "01") [kanaItemOtherCode] [Sample.romeItem1]
             [Sample.gaikuLine1] ∅ Sample.gaikuLine1 kanaItemOtherCode).
    + intros l [<- | []]. split; vm_compute; reflexivity.
    + by left.
    + vm_compute. reflexivity.
Defined.

(** With both items found the number follows both readings. *)
Example getChomeNumber_example :
  exists r,
    oazaRecordOf Sample.Number Sample.getPostalKanaOrRomeItems
      Sample.kanji2number (u "01") [Sample.kanaItem1] [Sample.romeItem1]
      Sample.oazaLine1 = Some r
    /\ field COL_town r = u "旭ケ丘一丁目"
    /\ field COL_townKana r = u "アサヒガオカ 1"
    /\ field COL_townRome r = u "ASAHIGAOKA 1".
Proof.
  eexists. split; [vm_compute; reflexivity |].
  repeat split; vm_compute; reflexivity.
Qed.

(** C1 at a failing input: one district-level row, a kana dictionary in
    which its town is not found.  The aggregator throws. *)
Example missing_kana_item_example :
  Sample.getPostalKanaOrRomeItems kana Sample.hokkaido Sample.sapporo
    (u "旭ケ丘一丁目") [] = None
  /\ getOazaAddressItems Sample.Number Sample.createRecordKey
       Sample.getPostalKanaOrRomeItems Sample.kanji2number (u "01")
       [] [Sample.romeItem1] ∅ [Sample.oazaLine1] = None
  /\ getGaikuAddressItems Sample.Number Sample.createRecordKey
       Sample.getPostalKanaOrRomeItems Sample.kanji2number euclid2 Sample.Qltb
       (u "01") [] [Sample.romeItem1] ∅ [Sample.gaikuLine1] ∅ = None.
Proof. repeat split; vm_compute; reflexivity. Qed.

(** C5 at a failing input: a record as the Oaza aggregator builds it, here
    from a kana item without a postal code and a romaji item.  Its element
    10 is the kana town reading, its element 1 the postal code and its
    element 7 the kana city reading, so the row that section 4.7 selects is
    not among the candidates. *)
Example backfill_candidates_example :
  exists r name,
    oazaRecord Sample.Number Sample.kanji2number (u "01") Sample.oazaLine1
      Sample.sapporo (u "旭ケ丘一丁目") (Some Sample.kanaItemNoZip)
      (Some Sample.romeItem1) = Some r
    /\ test_digits (r !! COL_zip) = false
    /\ district_name_rome r = Some name
    /\ name = u "アサヒガオカ"
    /\ comparisonString_spec (field COL_townRome r) = u "ASAHIGAOKA"
    /\ romeItemFindInclude [Sample.romeItem1] r name = []
    /\ candidates_spec [Sample.romeItem1] (field COL_pref r)
         (field COL_cityRome r) (field COL_townRome r) = [Sample.romeItem1].
Proof.
  eexists _, _. split; [vm_compute; reflexivity |].
  repeat split; vm_compute; reflexivity.
Qed.

(** C6 at a failing input: a record as the Oaza aggregator builds it, here
    from a kana item without a postal code and a romaji item.  The worker
    does not overwrite its postal-code element but puts a new element in
    front of it, so the record has sixteen elements and the column of the
    prefecture name holds the old postal code. *)
Example backfill_frame_example :
  exists r out diags,
    oazaRecord Sample.Number Sample.kanji2number (u "01") Sample.oazaLine1
      Sample.sapporo (u "旭ケ丘一丁目") (Some Sample.kanaItemNoZip)
      (Some Sample.romeItem1) = Some r
    /\ sqliteWriter [Sample.romeItem1] r = Some (out, diags)
    /\ length r = 15%nat /\ length out = 16%nat
    /\ r !! COL_pref = Some (JStr Sample.hokkaido)
    /\ out !! COL_pref = Some (JStr [])
    /\ out !! COL_pref <> r !! COL_pref.
Proof.
  eexists _, _, _. split; [vm_compute; reflexivity |].
  split; [vm_compute; reflexivity |].
  repeat split; try (vm_compute; reflexivity).
  vm_compute. discriminate.
Qed.

(** The worker on a record with no postal-code element: one candidate, two
    candidates, none. *)
Example backfill_example :
  let array := recordWithoutZip (u "01") Sample.hokkaido (u "ホッカイドウ")
                 (u "HOKKAIDO") (u "01101") Sample.sapporo
                 (u "サッポロシチュウオウク") (u "SAPPORO SHI CHUO KU")
                 (u "旭ケ丘一丁目") (u "アサヒガオカ 1") (u "ASAHIGAOKA 1") []
                 (4304 # 100) (14132 # 100) in
  let other := {| rome_zip := u "0600000"; rome_pref := Sample.hokkaido;
                  rome_city := Sample.sapporo; rome_town := [];
                  rome_prefRome := u "HOKKAIDO";
                  rome_cityRome := u "SAPPORO SHI CHUO KU";
                  rome_townRome := [] |} in
  (fst <$> sqliteWriter [Sample.romeItem1] array) ≫= (.!! COL_zip)
  = Some (JStr (u "0640941"))
  /\ (fst <$> sqliteWriter [Sample.romeItem1; other] array) ≫= (.!! COL_zip)
     = Some (JStr (u "0600000"))
  /\ sqliteWriter [] array = Some (splice_1_0 (JStr []) array, [Log array])
  /\ (snd <$> sqliteWriter [other; Sample.romeItem1; other] array)
     = Some [Log array].
Proof. repeat split; vm_compute; reflexivity. Qed.

(** C8, as stated, fails: the sample that the round of prefecture 01 stored
    is in the sample store in which the round of prefecture 02 starts, and it
    is still there when that round ends. *)
Lemma coords_discarded_counterexample :
  let round n st :=
    prefRound Sample.Number Sample.createRecordKey
      Sample.getPostalKanaOrRomeItems Sample.kanji2number euclid2 Sample.Qltb
      Sample.files [Sample.kanaItem1; Sample.kanaItem2] [Sample.romeItem1]
      st n in
  let key := gaikuKey Sample.createRecordKey Sample.gaikuLine1 in
  (st1 ← round 1 Sample.state0; coords st1 !! key)
  = Some [(14131 # 100, 4305 # 100)]
  /\ (st1 ← round 1 Sample.state0; st2 ← round 2 st1; coords st2 !! key)
     = Some [(14131 # 100, 4305 # 100)].
Proof.
  split; vm_compute; reflexivity.
Qed.

(** Witness of C8: the loop over the two prefectures of the sample files. *)
Lemma coords_outlive_prefecture_witness :
  match prefLoop Sample.Number Sample.createRecordKey
          Sample.getPostalKanaOrRomeItems Sample.kanji2number euclid2
          Sample.Qltb Sample.files [Sample.kanaItem1; Sample.kanaItem2]
          [Sample.romeItem1] [1; 2] Sample.state0 with
  | Some st' =>
    (forall k arr, coords Sample.state0 !! k = Some arr ->
       exists more, coords st' !! k = Some (arr ++ more))
    /\ (forall n line,
          In n [1; 2] ->
          In line (nlftp_mlit_180a Sample.files (toPrefCode n)) ->
          exists arr,
            coords st' !! gaikuKey Sample.createRecordKey line = Some arr
            /\ In (Sample.Number (gaiku_lng line),
                   Sample.Number (gaiku_lat line)) arr)
    /\ (forall c, (forall n, In n [1; 2] -> toPrefCode n <> c) ->
          patchData st' !! c = patchData Sample.state0 !! c)
    /\ (forall n kanaItems' romeItems' patch cs,
          List.filter (inPref (k := kana) (prefNameOf n)) kanaItems'
          = List.filter (inPref (k := kana) (prefNameOf n))
              [Sample.kanaItem1; Sample.kanaItem2] ->
          List.filter (inPref (k := rome) (prefNameOf n)) romeItems'
          = List.filter (inPref (k := rome) (prefNameOf n)) [Sample.romeItem1] ->
          getAddressItems Sample.Number Sample.createRecordKey
            Sample.getPostalKanaOrRomeItems Sample.kanji2number euclid2
            Sample.Qltb Sample.files n kanaItems' romeItems' patch cs
          = getAddressItems Sample.Number Sample.createRecordKey
              Sample.getPostalKanaOrRomeItems Sample.kanji2number euclid2
              Sample.Qltb Sample.files n [Sample.kanaItem1; Sample.kanaItem2]
              [Sample.romeItem1] patch cs)
  | None => False
  end.
Proof.
  destruct (prefLoop Sample.Number Sample.createRecordKey
              Sample.getPostalKanaOrRomeItems Sample.kanji2number euclid2
              Sample.Qltb Sample.files [Sample.kanaItem1; Sample.kanaItem2]
              [Sample.romeItem1] [1; 2] Sample.state0) as [st'|] eqn:Hloop.
  - exact (coords_outlive_prefecture Sample.Number Sample.createRecordKey
             Sample.getPostalKanaOrRomeItems Sample.kanji2number euclid2
             Sample.Qltb Sample.files [Sample.kanaItem1; Sample.kanaItem2]
             [Sample.romeItem1] [1; 2] Sample.state0 st' Hloop).
  - vm_compute in Hloop. discriminate Hloop.
Defined.

(** One prefecture from its two files, each holding its row twice: the
    district-level row leaves one record, the block-level row another, and
    the flagged block-level row two block points. *)
Example first_seen_record_wins_example :
  (oaza ← getOazaAddressItems Sample.Number Sample.createRecordKey
            Sample.getPostalKanaOrRomeItems Sample.kanji2number (u "01")
            [Sample.kanaItem1] [Sample.romeItem1] ∅
            [Sample.oazaLine1; Sample.oazaLine1];
   res ← getGaikuAddressItems Sample.Number Sample.createRecordKey
           Sample.getPostalKanaOrRomeItems Sample.kanji2number euclid2
           Sample.Qltb (u "01") [Sample.kanaItem1] [Sample.romeItem1] oaza
           [Sample.gaikuLine1; Sample.gaikuLine1] ∅;
   Some (size oaza, size (towns res), length (gaikuItems res)))
  = Some (1, 2, 2)%nat.
Proof. vm_compute. reflexivity. Qed.

(** ** The distance of turf is not the Euclidean one *)

Lemma degreesToRadians_Z (q : Q) (z : Z) :
  (js_rem q 360 == inject_Z z)%Q ->
  degreesToRadians q = (IZR z * PI / 180)%R.
Proof.
  intros H. unfold degreesToRadians. rewrite (Qeq_eqR _ _ H).
  unfold Q2R, inject_Z. cbn [Qnum Qden]. rewrite Rinv_1. by rewrite Rmult_1_r.
Qed.

Lemma cos_PI4_facts : (0 < cos (PI / 4))%R /\ (cos (PI / 4) * cos (PI / 4) = 1 / 2)%R.
Proof.
  pose proof PI_RGT_0 as Hpi. split.
  - apply cos_gt_0; lra.
  - pose proof (cos_2a_cos (PI / 4)) as H.
    replace (2 * (PI / 4))%R with (PI / 2)%R in H by lra.
    rewrite cos_PI2 in H. lra.
Qed.

Lemma sin2_PI4 : (sin (PI / 4) ^ 2 = 1 / 2)%R.
Proof.
  pose proof (cos_2a_sin (PI / 4)) as H.
  replace (2 * (PI / 4))%R with (PI / 2)%R in H by lra.
  rewrite cos_PI2 in H. lra.
Qed.

Lemma sin2_PI8 : (sin (PI / 8) ^ 2 = (1 - cos (PI / 4)) / 2)%R.
Proof.
  pose proof (cos_2a_sin (PI / 8)) as H.
  replace (2 * (PI / 8))%R with (PI / 4)%R in H by lra. lra.
Qed.

Lemma sin2_neg (x : R) : (sin (- x) ^ 2 = sin x ^ 2)%R.
Proof. rewrite sin_neg. ring. Qed.

(** The haversines of the three samples from the centre. *)
Lemma haversine_pole :
  haversine Sample.centre (90, 90)%Q = ((1 - cos (PI / 4)) / 2)%R.
Proof.
  unfold haversine, Sample.centre. cbn [fst snd].
  rewrite (degreesToRadians_Z (90 - (90 # 2)) 45) by reflexivity.
  rewrite (degreesToRadians_Z (90 - (0 # 2)) 90) by reflexivity.
  rewrite (degreesToRadians_Z (90 # 2) 45) by reflexivity.
  rewrite (degreesToRadians_Z 90 90) by reflexivity.
  replace (45 * PI / 180 / 2)%R with (PI / 8)%R by lra.
  replace (90 * PI / 180 / 2)%R with (PI / 4)%R by lra.
  replace (90 * PI / 180)%R with (PI / 2)%R by lra.
  rewrite sin2_PI8, cos_PI2. lra.
Qed.

Lemma haversine_east : haversine Sample.centre (90, 45)%Q = (1 / 4)%R.
Proof.
  unfold haversine, Sample.centre. cbn [fst snd].
  rewrite (degreesToRadians_Z (45 - (90 # 2)) 0) by reflexivity.
  rewrite (degreesToRadians_Z (90 - (0 # 2)) 90) by reflexivity.
  rewrite (degreesToRadians_Z (90 # 2) 45) by reflexivity.
  rewrite (degreesToRadians_Z 45 45) by reflexivity.
  replace (0 * PI / 180 / 2)%R with 0%R by lra.
  replace (90 * PI / 180 / 2)%R with (PI / 4)%R by lra.
  replace (45 * PI / 180)%R with (PI / 4)%R by lra.
  rewrite sin2_PI4, sin_0. destruct cos_PI4_facts as [_ H]. nra.
Qed.

Lemma haversine_west :
  haversine Sample.centre (-90, 0)%Q = (1 / 2)%R.
Proof.
  unfold haversine, Sample.centre. cbn [fst snd].
  rewrite (degreesToRadians_Z (0 - (90 # 2)) (-45)) by reflexivity.
  rewrite (degreesToRadians_Z (-90 - (0 # 2)) (-90)) by reflexivity.
  rewrite (degreesToRadians_Z (90 # 2) 45) by reflexivity.
  rewrite (degreesToRadians_Z 0 0) by reflexivity.
  replace (-45 * PI / 180 / 2)%R with (- (PI / 8))%R by lra.
  replace (-90 * PI / 180 / 2)%R with (- (PI / 4))%R by lra.
  replace (45 * PI / 180)%R with (PI / 4)%R by lra.
  replace (0 * PI / 180)%R with 0%R by lra.
  rewrite !sin2_neg, sin2_PI8, sin2_PI4, cos_0. lra.
Qed.

(** Comparing real distances is a strict weak order. *)
Lemma Rltb_strict_weak_order : strict_weak_order Rltb.
Proof.
  unfold Rltb. split; [| split].
  - intros a. destruct (Rlt_dec a a); [lra | reflexivity].
  - intros a b c. destruct (Rlt_dec a b), (Rlt_dec b c), (Rlt_dec a c);
      try reflexivity; try discriminate. lra.
  - intros a b c. destruct (Rlt_dec a b), (Rlt_dec b c), (Rlt_dec a c);
      try reflexivity; try discriminate. lra.
Qed.

Lemma atan2_pos (y x : R) : (0 < x)%R -> atan2 y x = atan (y / x).
Proof. intros Hx. unfold atan2. by destruct (Rlt_dec 0 x). Qed.

(** The distance grows with the haversine. *)
Lemma distance_of_haversine_increasing (a b : R) :
  (0 <= a)%R -> (a < b)%R -> (b < 1)%R ->
  (2 * atan2 (sqrt a) (sqrt (1 - a)) * (earthRadius / 1000)
   < 2 * atan2 (sqrt b) (sqrt (1 - b)) * (earthRadius / 1000))%R.
Proof.
  intros Ha Hab Hb.
  assert (H1a : (0 < sqrt (1 - a))%R) by (apply sqrt_lt_R0; lra).
  assert (H1b : (0 < sqrt (1 - b))%R) by (apply sqrt_lt_R0; lra).
  assert (Hsa : (0 <= sqrt a)%R) by apply sqrt_pos.
  assert (Hs : (sqrt a < sqrt b)%R) by (apply sqrt_lt_1; lra).
  assert (Hs1 : (sqrt (1 - b) < sqrt (1 - a))%R) by (apply sqrt_lt_1; lra).
  rewrite !atan2_pos by assumption.
  assert (Hq : (sqrt a / sqrt (1 - a) < sqrt b / sqrt (1 - b))%R).
  { apply (Rmult_lt_reg_r (sqrt (1 - a) * sqrt (1 - b))); [nra |].
    unfold Rdiv.
    replace (sqrt a * / sqrt (1 - a) * (sqrt (1 - a) * sqrt (1 - b)))%R
      with (sqrt a * sqrt (1 - b) * (sqrt (1 - a) * / sqrt (1 - a)))%R by ring.
    replace (sqrt b * / sqrt (1 - b) * (sqrt (1 - a) * sqrt (1 - b)))%R
      with (sqrt b * sqrt (1 - a) * (sqrt (1 - b) * / sqrt (1 - b)))%R by ring.
    rewrite !Rinv_r by lra. nra. }
  pose proof (atan_increasing _ _ Hq) as Hatan.
  assert (He : (0 < earthRadius / 1000)%R) by (unfold earthRadius; lra).
  nra.
Qed.

(** The sample at the pole is nearer the centre than the two others, as turf
    measures. *)
Lemma turfDistance_pole_nearest :
  (turfDistance Sample.centre (90, 90)%Q < turfDistance Sample.centre (90, 45)%Q)%R
  /\ (turfDistance Sample.centre (90, 90)%Q
      < turfDistance Sample.centre (-90, 0)%Q)%R.
Proof.
  unfold turfDistance. cbv zeta.
  rewrite haversine_pole, haversine_east, haversine_west.
  destruct cos_PI4_facts as [Hpos Hsq].
  assert (Hc : (cos (PI / 4) < 1)%R) by nra.
  assert (Hc' : (1 / 2 < cos (PI / 4))%R) by nra.
  split; apply distance_of_haversine_increasing; lra.
Qed.

(** C4, as stated, fails: of three samples whose bounding box is centred on
    longitude 0, latitude 45, [getCenter] returns the one at the pole, which
    is nearest as the great circle goes, while the one to the east is
    strictly nearer the centre in the lon/lat plane. *)
Lemma getCenter_euclidean_counterexample :
  turfCenter Sample.threeSamples = Some Sample.centre
  /\ getCenter turfDistance Rltb (u "k") {[ u "k" := Sample.threeSamples ]}
     = Some (90, 90)%Q
  /\ In (90, 45)%Q Sample.threeSamples
  /\ (euclid2 Sample.centre (90, 45) < euclid2 Sample.centre (90, 90))%Q.
Proof.
  assert (Hc : turfCenter Sample.threeSamples = Some Sample.centre)
    by (vm_compute; reflexivity).
  split; [exact Hc |]. split; [| split].
  - unfold getCenter. rewrite lookup_singleton_eq. cbn [mbind option_bind].
    rewrite Hc. cbn [mbind option_bind].
    unfold turfNearestPoint, Sample.threeSamples. cbn [nearest_from below].
    destruct turfDistance_pole_nearest as [Heast Hwest].
    assert (H1 : Rltb (turfDistance Sample.centre (90, 45)%Q)
                   (turfDistance Sample.centre (90, 90)%Q) = false).
    { unfold Rltb. destruct (Rlt_dec _ _) as [Hlt |]; [lra | reflexivity]. }
    assert (H2 : Rltb (turfDistance Sample.centre (-90, 0)%Q)
                   (turfDistance Sample.centre (90, 90)%Q) = false).
    { unfold Rltb. destruct (Rlt_dec _ _) as [Hlt |]; [lra | reflexivity]. }
    rewrite H1, H2. reflexivity.
  - right. by left.
  - vm_compute. reflexivity.
Qed.

(** ** Further properties at concrete inputs *)

(** Witness of X2: a Latin letter before a voiced pair. *)
Lemma han2zen_passes_through_witness :
  han2zen ([0x41] ++ [0xFF76; 0xFF9E]) = [0x41] ++ han2zen [0xFF76; 0xFF9E].
Proof.
  apply han2zen_passes_through. intros c [<- | []]. vm_compute. reflexivity.
Defined.

(** Witness of X6: a reading with a remark in parentheses. *)
Lemma removeStringEnclosedInParentheses_strips_witness :
  removeStringEnclosedInParentheses
    ([0x41; 0x42; 0x43] ++ 0x28 :: [0x44] ++ [0x29])
  = [0x41; 0x42; 0x43].
Proof.
  apply removeStringEnclosedInParentheses_strips.
  - intros [H | [H | [H | []]]]; discriminate H.
  - discriminate.
  - reflexivity.
Defined.

(** Witness of X9: the numbers 1 and 2. *)
Lemma toPrefCode_round_trip_witness :
  parseInt10 (toPrefCode 1) = Some (Z.of_N 1)
  /\ prefNameAt (toPrefCode 1) = prefNameOf 1
  /\ (toPrefCode 1 = toPrefCode 2 <-> (1 : N) = 2).
Proof. apply toPrefCode_round_trip; vm_compute; discriminate. Defined.

(** Witness of X11: a row of Hokkaido and the numbers 1 and 2. *)
Lemma inPref_one_prefecture_witness :
  inPref (k := kana) (prefNameOf 1) Sample.kanaItem1
  && inPref (k := kana) (prefNameOf 2) Sample.kanaItem1 = false.
Proof.
  apply inPref_one_prefecture; [vm_compute; discriminate .. | discriminate].
Defined.

(** Witness of X14: the record with no postal code. *)
Lemma sqliteWriter_on_schema_record_witness :
  exists out diags,
    sqliteWriter [Sample.romeItem1] recordNoZip = Some (out, diags)
    /\ (all_digits (field COL_zip recordNoZip) = true ->
        out = recordNoZip /\ diags = [])
    /\ (all_digits (field COL_zip recordNoZip) = false ->
        length out = 16%nat /\ take 1 out = take 1 recordNoZip
        /\ drop 2 out = drop 1 recordNoZip).
Proof. apply sqliteWriter_on_schema_record. reflexivity. Defined.

(** Witness of X15: a file that holds its flagged row twice. *)
Lemma gaikuItems_flagged_rows_witness :
  match getGaikuAddressItems Sample.Number Sample.createRecordKey
          Sample.getPostalKanaOrRomeItems Sample.kanji2number euclid2
          Sample.Qltb (u "01") [Sample.kanaItem1] [Sample.romeItem1] ∅
          [Sample.gaikuLine1; Sample.gaikuLine1] ∅ with
  | Some res =>
    gaikuItems res
    = map (gaikuPointOf Sample.Number)
        (List.filter flagged [Sample.gaikuLine1; Sample.gaikuLine1])
  | None => False
  end.
Proof.
  destruct (getGaikuAddressItems Sample.Number Sample.createRecordKey
              Sample.getPostalKanaOrRomeItems Sample.kanji2number euclid2
              Sample.Qltb (u "01") [Sample.kanaItem1] [Sample.romeItem1] ∅
              [Sample.gaikuLine1; Sample.gaikuLine1] ∅) as [res|] eqn:Hres.
  - eapply gaikuItems_flagged_rows. exact Hres.
  - vm_compute in Hres. discriminate Hres.
Defined.

(** Witness of X16: the same file, and the key of its row. *)
Lemma coords_after_samples_witness :
  match getGaikuAddressItems Sample.Number Sample.createRecordKey
          Sample.getPostalKanaOrRomeItems Sample.kanji2number euclid2
          Sample.Qltb (u "01") [Sample.kanaItem1] [Sample.romeItem1] ∅
          [Sample.gaikuLine1; Sample.gaikuLine1] ∅ with
  | Some res =>
    coords_after res !! gaikuKey Sample.createRecordKey Sample.gaikuLine1
    = match map (sampleOf Sample.Number)
              (List.filter
                 (fun l => eqb (gaikuKey Sample.createRecordKey l)
                             (gaikuKey Sample.createRecordKey Sample.gaikuLine1))
                 [Sample.gaikuLine1; Sample.gaikuLine1]) with
      | [] => (∅ : gmap jsstring (list point))
                !! gaikuKey Sample.createRecordKey Sample.gaikuLine1
      | new =>
        Some (default []
                ((∅ : gmap jsstring (list point))
                   !! gaikuKey Sample.createRecordKey Sample.gaikuLine1)
              ++ new)
      end
  | None => False
  end.
Proof.
  destruct (getGaikuAddressItems Sample.Number Sample.createRecordKey
              Sample.getPostalKanaOrRomeItems Sample.kanji2number euclid2
              Sample.Qltb (u "01") [Sample.kanaItem1] [Sample.romeItem1] ∅
              [Sample.gaikuLine1; Sample.gaikuLine1] ∅) as [res|] eqn:Hres.
  - eapply coords_after_samples. exact Hres.
  - vm_compute in Hres. discriminate Hres.
Defined.

(** Witness of X17: the loop over the two prefectures of the sample files. *)
Lemma gaikuQueue_all_flagged_rows_witness :
  match prefLoop Sample.Number Sample.createRecordKey
          Sample.getPostalKanaOrRomeItems Sample.kanji2number euclid2
          Sample.Qltb Sample.files [Sample.kanaItem1; Sample.kanaItem2]
          [Sample.romeItem1] [1; 2] Sample.state0 with
  | Some st' =>
    gaikuQueue st'
    = gaikuQueue Sample.state0
      ++ flat_map
           (fun n => map (gaikuPointOf Sample.Number)
                       (List.filter flagged
                          (nlftp_mlit_180a Sample.files (toPrefCode n))))
           [1; 2]
  | None => False
  end.
Proof.
  destruct (prefLoop Sample.Number Sample.createRecordKey
              Sample.getPostalKanaOrRomeItems Sample.kanji2number euclid2
              Sample.Qltb Sample.files [Sample.kanaItem1; Sample.kanaItem2]
              [Sample.romeItem1] [1; 2] Sample.state0) as [st'|] eqn:Hloop.
  - eapply gaikuQueue_all_flagged_rows. exact Hloop.
  - vm_compute in Hloop. discriminate Hloop.
Defined.

(** Witness of X19: the record of the block-level row of the sample file. *)
Lemma gaiku_record_coordinates_witness :
  match getGaikuAddressItems Sample.Number Sample.createRecordKey
          Sample.getPostalKanaOrRomeItems Sample.kanji2number euclid2
          Sample.Qltb (u "01") [Sample.kanaItem1] [Sample.romeItem1] ∅
          [Sample.gaikuLine1] ∅ with
  | Some res =>
    match towns res !! gaikuKey Sample.createRecordKey Sample.gaikuLine1 with
    | Some r =>
      exists p,
        r !! COL_lat = Some (JNum (snd p)) /\ r !! COL_lng = Some (JNum (fst p))
        /\ ((exists line,
               In line [Sample.gaikuLine1]
               /\ gaikuKey Sample.createRecordKey line
                  = gaikuKey Sample.createRecordKey Sample.gaikuLine1
               /\ p = sampleOf Sample.Number line)
            \/ In p (default []
                       ((∅ : gmap jsstring (list point))
                          !! gaikuKey Sample.createRecordKey Sample.gaikuLine1)))
    | None => False
    end
  | None => False
  end.
Proof.
  destruct (getGaikuAddressItems Sample.Number Sample.createRecordKey
              Sample.getPostalKanaOrRomeItems Sample.kanji2number euclid2
              Sample.Qltb (u "01") [Sample.kanaItem1] [Sample.romeItem1] ∅
              [Sample.gaikuLine1] ∅) as [res|] eqn:Hres.
  - destruct (towns res !! gaikuKey Sample.createRecordKey Sample.gaikuLine1)
      as [r|] eqn:Hr.
    + eapply gaiku_record_coordinates;
        [exact Hres | apply lookup_empty | exact Hr].
    + exfalso.
      assert (E : (res ← getGaikuAddressItems Sample.Number
                           Sample.createRecordKey
                           Sample.getPostalKanaOrRomeItems Sample.kanji2number
                           euclid2 Sample.Qltb (u "01") [Sample.kanaItem1]
                           [Sample.romeItem1] ∅ [Sample.gaikuLine1] ∅;
                   r ← towns res
                         !! gaikuKey Sample.createRecordKey Sample.gaikuLine1;
                   Some (length r)) = Some 15%nat)
        by (vm_compute; reflexivity).
      rewrite Hres in E. cbn [mbind option_bind] in E. rewrite Hr in E.
      discriminate E.
  - vm_compute in Hres. discriminate Hres.
Defined.

(** Witness of X21: the block-level row of the sample file, with a kana
    dictionary that has no item for it. *)
Lemma getGaikuAddressItems_throws_iff_witness :
  getGaikuAddressItems Sample.Number Sample.createRecordKey
    Sample.getPostalKanaOrRomeItems Sample.kanji2number euclid2 Sample.Qltb
    (u "01") [] [Sample.romeItem1] ∅ [Sample.gaikuLine1] ∅ = None
  <-> exists line,
        (∅ : gmap jsstring record) !! gaikuKey Sample.createRecordKey line
        = None
        /\ firstWithKey (gaikuKey Sample.createRecordKey)
             (gaikuKey Sample.createRecordKey line) [Sample.gaikuLine1]
           = Some line
        /\ Sample.getPostalKanaOrRomeItems kana (gaiku_pref line)
             (gaikuCity line) (gaikuTown line) [] = None.
Proof.
  apply getGaikuAddressItems_throws_iff.
  intros line [<- | []]. split; vm_compute; reflexivity.
Defined.

(** Witness of X22: the two sample files of Hokkaido, with no patch. *)
Lemma towns_match_schema_witness :
  match getOazaAddressItems Sample.Number Sample.createRecordKey
          Sample.getPostalKanaOrRomeItems Sample.kanji2number (u "01")
          [Sample.kanaItem1] [Sample.romeItem1] ∅ [Sample.oazaLine1] with
  | Some oaza =>
    match getGaikuAddressItems Sample.Number Sample.createRecordKey
            Sample.getPostalKanaOrRomeItems Sample.kanji2number euclid2
            Sample.Qltb (u "01") [Sample.kanaItem1] [Sample.romeItem1] oaza
            [Sample.gaikuLine1] ∅ with
    | Some res =>
      forall k r, towns res !! k = Some r -> matches_schema r = true
    | None => False
    end
  | None => False
  end.
Proof.
  destruct (getOazaAddressItems Sample.Number Sample.createRecordKey
              Sample.getPostalKanaOrRomeItems Sample.kanji2number (u "01")
              [Sample.kanaItem1] [Sample.romeItem1] ∅ [Sample.oazaLine1])
    as [oaza|] eqn:Hoaza.
  - destruct (getGaikuAddressItems Sample.Number Sample.createRecordKey
                Sample.getPostalKanaOrRomeItems Sample.kanji2number euclid2
                Sample.Qltb (u "01") [Sample.kanaItem1] [Sample.romeItem1] oaza
                [Sample.gaikuLine1] ∅) as [res|] eqn:Hres.
    + eapply towns_match_schema; [| exact Hoaza | exact Hres].
      intros k r. rewrite lookup_empty. cbn. rewrite lookup_empty.
      discriminate.
    + exfalso.
      assert (E : (oaza ← getOazaAddressItems Sample.Number
                            Sample.createRecordKey
                            Sample.getPostalKanaOrRomeItems
                            Sample.kanji2number (u "01") [Sample.kanaItem1]
                            [Sample.romeItem1] ∅ [Sample.oazaLine1];
                   res ← getGaikuAddressItems Sample.Number
                           Sample.createRecordKey
                           Sample.getPostalKanaOrRomeItems Sample.kanji2number
                           euclid2 Sample.Qltb (u "01") [Sample.kanaItem1]
                           [Sample.romeItem1] oaza [Sample.gaikuLine1] ∅;
                   Some (size (towns res))) = Some 2%nat)
        by (vm_compute; reflexivity).
      rewrite Hoaza in E. cbn [mbind option_bind] in E. rewrite Hres in E.
      discriminate E.
  - exfalso.
    assert (E : size <$> getOazaAddressItems Sample.Number
                           Sample.createRecordKey
                           Sample.getPostalKanaOrRomeItems
                           Sample.kanji2number (u "01") [Sample.kanaItem1]
                           [Sample.romeItem1] ∅ [Sample.oazaLine1]
                = Some 1%nat)
      by (vm_compute; reflexivity).
    rewrite Hoaza in E. discriminate E.
Defined.

(** Witness of X24: the voiced pair for ガ before a Latin letter. *)
Lemma han2zen_voiced_pairs_witness :
  han2zen (fst ([0xFF76; 0xFF9E], [0x30AC]) ++ [0x41])
  = snd ([0xFF76; 0xFF9E], [0x30AC]) ++ han2zen [0x41].
Proof.
  apply han2zen_voiced_pairs; [| reflexivity]. vm_compute. left. reflexivity.
Defined.

(** Witness of X25: the loop over the two prefectures of the sample files. *)
Lemma sqliteQueue_records_accepted_witness :
  match prefLoop Sample.Number Sample.createRecordKey
          Sample.getPostalKanaOrRomeItems Sample.kanji2number euclid2
          Sample.Qltb Sample.files [Sample.kanaItem1; Sample.kanaItem2]
          [Sample.romeItem1] [1; 2] Sample.state0 with
  | Some st' =>
    forall r, In r (sqliteQueue st') ->
      matches_schema r = true
      /\ forall items, is_Some (sqliteWriter items r)
  | None => False
  end.
Proof.
  destruct (prefLoop Sample.Number Sample.createRecordKey
              Sample.getPostalKanaOrRomeItems Sample.kanji2number euclid2
              Sample.Qltb Sample.files [Sample.kanaItem1; Sample.kanaItem2]
              [Sample.romeItem1] [1; 2] Sample.state0) as [st'|] eqn:Hloop.
  - eapply sqliteQueue_records_accepted; [| exact Hloop | |].
    + apply (bool_decide_eq_true_1 (NoDup [1; 2])). reflexivity.
    + intros c m k r. cbn. rewrite lookup_empty. discriminate.
    + intros r [].
  - vm_compute in Hloop. discriminate Hloop.
Defined.
